(** * Particle animation core of the portfolio script (script.js)

    A shallow embedding of the two canvas particle systems of the page:
    - [NeuralCanvas] (class NeuralCanvas: createParticles, resize, draw,
      connectParticles, and its constructor guard);
    - [Background] (classes CanvasController, BackgroundParticle and
      BackgroundSystem).

    JavaScript numbers are modelled twice.

    - [JS.number]: a real number, or one of the IEEE special values NaN,
      +Infinity, -Infinity.  Arithmetic on finite values is exact
      (rounding, overflow, underflow and the sign of zero are abstracted);
      the special values follow the IEEE rules the script can observe
      (0/0 = NaN, x/0 = +-Infinity, every comparison with NaN is false).
      A double computation and its exact reading differ in the last place
      only as long as no intermediate result leaves the normal range;
      where a statement depends on a square staying in that range, it is
      made for operands between [JS.tiny] and [JS.huge].
    - [Double.double]: IEEE binary64 itself, round to nearest, ties to
      even, for the functions whose result changes in kind when a square
      underflows or overflows or when a sum is rounded before Math.floor:
      the mouse interaction of NeuralCanvas.draw, Vector2.mag, normalize
      and limit, and Utils.randomInt. *)

From Stdlib Require Import Reals Lra Lia List Bool Arith String.
From Stdlib Require SpecFloat.
Import ListNotations.

Open Scope string_scope.
Open Scope list_scope.
Open Scope R_scope.

(** ** JavaScript numbers *)

Module JS.

Inductive number : Type :=
| Fin (r : R)
| NaN
| PInf
| NInf.

Definition is_finite (a : number) : Prop :=
  match a with Fin _ => True | _ => False end.

(** Bounds of the range in which the square of a double neither underflows
    nor overflows: [2^-500] and [2^500]. *)
Definition tiny : R := / 2 ^ 500.
Definition huge : R := 2 ^ 500.

(** A bound on sizes well inside the range in which an addition keeps
    offsets of one unit: [2^40]. *)
Definition wide : R := 2 ^ 40.

(** A real number of size at most [huge]. *)
Definition in_range (a : number) : Prop :=
  match a with Fin r => Rabs r <= huge | _ => False end.

(** Zero, or a real number of size between [tiny] and [huge]. *)
Definition ordinary (a : number) : Prop :=
  match a with
  | Fin r => r = 0 \/ tiny <= Rabs r <= huge
  | _ => False
  end.

Definition opp (a : number) : number :=
  match a with
  | Fin r => Fin (- r)
  | NaN => NaN
  | PInf => NInf
  | NInf => PInf
  end.

(** [a + b] *)
Definition add (a b : number) : number :=
  match a, b with
  | NaN, _ | _, NaN => NaN
  | Fin r, Fin s => Fin (r + s)
  | PInf, NInf | NInf, PInf => NaN
  | PInf, _ | _, PInf => PInf
  | NInf, _ | _, NInf => NInf
  end.

(** [a - b] *)
Definition sub (a b : number) : number := add a (opp b).

(** Sign of an infinite product or quotient: [neg] flips the infinity. *)
Definition inf_signed (neg : bool) : number := if neg then NInf else PInf.

Definition is_neg (r : R) : bool := if Rlt_dec r 0 then true else false.

(** [a * b] *)
Definition mul (a b : number) : number :=
  match a, b with
  | NaN, _ | _, NaN => NaN
  | Fin r, Fin s => Fin (r * s)
  | Fin r, PInf | PInf, Fin r =>
      if Req_dec_T r 0 then NaN else inf_signed (is_neg r)
  | Fin r, NInf | NInf, Fin r =>
      if Req_dec_T r 0 then NaN else inf_signed (negb (is_neg r))
  | PInf, PInf | NInf, NInf => PInf
  | PInf, NInf | NInf, PInf => NInf
  end.

(** [a / b] *)
Definition div (a b : number) : number :=
  match a, b with
  | NaN, _ | _, NaN => NaN
  | Fin r, Fin s =>
      if Req_dec_T s 0
      then (if Req_dec_T r 0 then NaN else inf_signed (is_neg r))
      else Fin (r / s)
  | Fin _, (PInf | NInf) => Fin 0
  | PInf, Fin s => inf_signed (is_neg s)
  | NInf, Fin s => inf_signed (negb (is_neg s))
  | (PInf | NInf), (PInf | NInf) => NaN
  end.

(** [Math.sqrt(a)] *)
Definition sqrt (a : number) : number :=
  match a with
  | Fin r => if Rlt_dec r 0 then NaN else Fin (R_sqrt.sqrt r)
  | PInf => PInf
  | NInf | NaN => NaN
  end.

(** [a < b] *)
Definition lt (a b : number) : bool :=
  match a, b with
  | NaN, _ | _, NaN => false
  | Fin r, Fin s => if Rlt_dec r s then true else false
  | NInf, (Fin _ | PInf) => true
  | Fin _, PInf => true
  | _, _ => false
  end.

(** [a > b] *)
Definition gt (a b : number) : bool := lt b a.

(** Exceptions: a computation returns a value or throws. *)
Inductive error : Type :=
| TypeError (msg : string).

Inductive result (A : Type) : Type :=
| Ok (a : A)
| Throw (e : error).

Arguments Ok {A} a.
Arguments Throw {A} e.

Definition bind {A B : Type} (m : result A) (k : A -> result B) : result B :=
  match m with
  | Ok a => k a
  | Throw e => Throw e
  end.

End JS.

(** ** The 2D drawing context

    The script only issues drawing calls; the context is modelled by the list
    of primitive shapes it was asked to paint, most recent last. *)

Module Canvas.
Import JS.

Inductive style : Type :=
| Hex (code : string)
| Rgba (r g b : nat) (alpha : number).

Inductive cmd : Type :=
| ClearRect (x y w h : number)
  (* beginPath; arc(x, y, r, 0, 2 * PI); fill *)
| Disc (x y r : number) (fillStyle : style) (globalAlpha : number)
  (* beginPath; moveTo(x1, y1); lineTo(x2, y2); stroke *)
| Segment (x1 y1 x2 y2 : number) (strokeStyle : style)
          (lineWidth globalAlpha : number)
| Scale (sx sy : number).

End Canvas.

(** ** class NeuralCanvas and its globals (SYSTEM_CONFIG, STATE) *)

Module NeuralCanvas.
Import JS Canvas.

(** A particle object literal.  [oid] is the identity of the JavaScript
    object (its allocation number), the other fields are the literal's. *)
Record particle : Type := mkParticle {
  oid : nat;
  x : number;
  y : number;
  vx : number;
  vy : number;
  size : number;
  color : string
}.

(** The globals the class reads and writes, and the page around it. *)
Record world : Type := mkWorld {
  canvas : option (number * number);
    (* querySelector(SYSTEM_CONFIG.selectors.canvas): the element's width and
       height attributes, or null *)
  innerWidth : number;       (* window.innerWidth *)
  innerHeight : number;      (* window.innerHeight *)
  particleCount : nat;       (* SYSTEM_CONFIG.animation.particleCount *)
  reducedMotion : bool;      (* SYSTEM_CONFIG.core.reducedMotion *)
  debugMode : bool;          (* SYSTEM_CONFIG.core.debugMode *)
  mouseX : number;           (* STATE.mouseX *)
  mouseY : number;           (* STATE.mouseY *)
  draws : nat;               (* Math.random() calls made so far *)
  next_oid : nat;            (* objects allocated so far *)
  listeners : list string;   (* window.addEventListener registrations *)
  frames : nat;              (* requestAnimationFrame requests *)
  console : list string;     (* Utils.log output *)
  alerts : list string;      (* alert(...) *)
  cssVars : list (string * string)  (* documentElement.style.setProperty *)
}.

(** The fields of an instance whose constructor ran to its end. *)
Record fields : Type := mkFields {
  canvas_width : number;     (* this.canvas.width *)
  canvas_height : number;    (* this.canvas.height *)
  ctx : list cmd;            (* this.ctx *)
  particles : list particle;
  connections : list (nat * nat);
  width : number;
  height : number;
  mouseRadius : number
}.

(** An instance: when the canvas element is missing the constructor returns
    with [this.canvas = null] and no other field defined. *)
Inductive instance : Type :=
| NoCanvas
| Ready (f : fields).

Definition connectionRadius : number := Fin 150.
Definition cyan : string := "#00f0ff".

Section Random.

(** [Math.random()]: the [k]-th call returns [rand k]. *)
Variable rand : nat -> R.

Definition random (k : nat) : number := Fin (rand k).

(** One iteration of the loop of createParticles: the object literal,
    its five [Math.random()] calls in source order. *)
Definition newParticle (w h : number) (k id : nat) : particle :=
  {| oid := id;
     x := mul (random k) w;
     y := mul (random (k + 1)) h;
     vx := mul (sub (random (k + 2)) (Fin (1/2))) (Fin (3/2));
     vy := mul (sub (random (k + 3)) (Fin (1/2))) (Fin (3/2));
     size := add (mul (random (k + 4)) (Fin 2)) (Fin 1);
     color := cyan |}.

Fixpoint pushParticles (count : nat) (w h : number) (k id : nat)
  : list particle :=
  match count with
  | O => []
  | S count' => newParticle w h k id :: pushParticles count' w h (k + 5) (S id)
  end.

(** createParticles() *)
Definition createParticles (f : fields) (g : world) : fields * world :=
  let count := particleCount g in
  ({| canvas_width := canvas_width f;
      canvas_height := canvas_height f;
      ctx := ctx f;
      particles := pushParticles count (width f) (height f)
                     (draws g) (next_oid g);
      connections := connections f;
      width := width f;
      height := height f;
      mouseRadius := mouseRadius f |},
   {| canvas := canvas g;
      innerWidth := innerWidth g;
      innerHeight := innerHeight g;
      particleCount := particleCount g;
      reducedMotion := reducedMotion g;
      debugMode := debugMode g;
      mouseX := mouseX g;
      mouseY := mouseY g;
      draws := (draws g + 5 * count)%nat;
      next_oid := (next_oid g + count)%nat;
      listeners := listeners g;
      frames := frames g;
      console := console g;
      alerts := alerts g;
      cssVars := cssVars g |}).

(** resize() *)
Definition resize (f : fields) (g : world) : fields * world :=
  let w := innerWidth g in
  let h := innerHeight g in
  let f1 :=
    {| canvas_width := w;
       canvas_height := h;
       ctx := ctx f;
       particles := particles f;
       connections := connections f;
       width := w;
       height := h;
       mouseRadius := mouseRadius f |} in
  let g1 :=
    {| canvas := canvas g;
       innerWidth := innerWidth g;
       innerHeight := innerHeight g;
       particleCount := if gt w (Fin 1000) then 120%nat else 60%nat;
       reducedMotion := reducedMotion g;
       debugMode := debugMode g;
       mouseX := mouseX g;
       mouseY := mouseY g;
       draws := draws g;
       next_oid := next_oid g;
       listeners := listeners g;
       frames := frames g;
       console := console g;
       alerts := alerts g;
       cssVars := cssVars g |} in
  createParticles f1 g1.

End Random.

(** handleMouseMove(e) *)
Definition handleMouseMove (ex ey : number) (g : world) : world :=
  {| canvas := canvas g;
     innerWidth := innerWidth g;
     innerHeight := innerHeight g;
     particleCount := particleCount g;
     reducedMotion := reducedMotion g;
     debugMode := debugMode g;
     mouseX := ex;
     mouseY := ey;
     draws := draws g;
     next_oid := next_oid g;
     listeners := listeners g;
     frames := frames g;
     console := console g;
     alerts := alerts g;
     cssVars := cssVars g |}.

(** *** draw(): the per-particle update *)

(** [p.x += p.vx; p.y += p.vy] *)
Definition move (p : particle) : particle :=
  {| oid := oid p;
     x := add (x p) (vx p);
     y := add (y p) (vy p);
     vx := vx p; vy := vy p; size := size p; color := color p |}.

(** The two boundary checks: [if (p.x < 0 || p.x > width) p.vx *= -1] and
    the same on y. *)
Definition flips_x (w : number) (p : particle) : bool :=
  lt (x p) (Fin 0) || gt (x p) w.

Definition flips_y (h : number) (p : particle) : bool :=
  lt (y p) (Fin 0) || gt (y p) h.

Definition bounce (w h : number) (p : particle) : particle :=
  {| oid := oid p;
     x := x p;
     y := y p;
     vx := if flips_x w p then mul (vx p) (Fin (-1)) else vx p;
     vy := if flips_y h p then mul (vy p) (Fin (-1)) else vy p;
     size := size p; color := color p |}.

(** [Math.sqrt(dx*dx + dy*dy)] for the pointer at [(mx, my)], in exact
    arithmetic: 0 only at the pointer.  The value the engine computes is
    [Double.NeuralCanvas.pointerDistance], which is also 0 when both
    squares underflow; the two differ in the last place only for offsets
    between [tiny] and [huge]. *)
Definition pointerDistance (mx my : number) (p : particle) : number :=
  let dx := sub mx (x p) in
  let dy := sub my (y p) in
  sqrt (add (mul dx dx) (mul dy dy)).

(** [(directionX, directionY)] of the mouse interaction, or no displacement
    when the test [distance < mouseRadius] fails; in exact arithmetic, the
    binary64 evaluation being [Double.NeuralCanvas.displacement]. *)
Definition displacement (radius mx my : number) (p : particle)
  : option (number * number) :=
  let dx := sub mx (x p) in
  let dy := sub my (y p) in
  let distance := sqrt (add (mul dx dx) (mul dy dy)) in
  if lt distance radius then
    let forceDirectionX := div dx distance in
    let forceDirectionY := div dy distance in
    let force := div (sub radius distance) radius in
    let directionX := mul (mul forceDirectionX force) (Fin 2) in
    let directionY := mul (mul forceDirectionY force) (Fin 2) in
    Some (directionX, directionY)
  else None.

(** [p.x -= directionX; p.y -= directionY] inside the test. *)
Definition repel (radius mx my : number) (p : particle) : particle :=
  match displacement radius mx my p with
  | Some (directionX, directionY) =>
      {| oid := oid p;
         x := sub (x p) directionX;
         y := sub (y p) directionY;
         vx := vx p; vy := vy p; size := size p; color := color p |}
  | None => p
  end.

(** Body of the loop of draw() up to the drawing of the particle. *)
Definition updateParticle (w h radius mx my : number) (p : particle)
  : particle :=
  repel radius mx my (bounce w h (move p)).

Definition drawParticle (p : particle) : cmd :=
  Disc (x p) (y p) (size p) (Hex (color p)) (Fin 1).

(** *** connectParticles() *)

Definition distance (p q : particle) : number :=
  let dx := sub (x p) (x q) in
  let dy := sub (y p) (y q) in
  sqrt (add (mul dx dx) (mul dy dy)).

(** A line stroked by connectParticles: the two array indices, and the
    value of the local [opacity]. *)
Record link : Type := mkLink {
  link_a : nat;
  link_b : nat;
  opacity : number
}.

(** Body of the inner loop for the indices [a] and [b]. *)
Definition connectPair (maxDist : number) (ps : list particle) (a b : nat)
  : list link :=
  match nth_error ps a, nth_error ps b with
  | Some pa, Some pb =>
      let dist := distance pa pb in
      if lt dist maxDist
      then [ {| link_a := a; link_b := b;
                opacity := sub (Fin 1) (div dist maxDist) |} ]
      else []
  | _, _ => []
  end.

(** The two loops: [a] from 0, [b] from [a], both below the length. *)
Definition links (maxDist : number) (ps : list particle) : list link :=
  flat_map
    (fun a => flat_map (connectPair maxDist ps a)
                       (seq a (List.length ps - a)))
    (seq 0 (List.length ps)).

(** The alpha channel of [strokeStyle]: [opacity * 0.2]. *)
Definition strokeAlpha (l : link) : number := mul (opacity l) (Fin (1/5)).

Definition strokeLink (ps : list particle) (l : link) : list cmd :=
  match nth_error ps (link_a l), nth_error ps (link_b l) with
  | Some pa, Some pb =>
      [ Segment (x pa) (y pa) (x pb) (y pb)
                (Rgba 0 240 255 (strokeAlpha l)) (Fin 1) (Fin 1) ]
  | _, _ => []
  end.

Definition connectParticles (ps : list particle) : list cmd :=
  flat_map (strokeLink ps) (links connectionRadius ps).

(** *** draw() and animate() *)

Definition setCtx (f : fields) (c : list cmd) (ps : list particle) : fields :=
  {| canvas_width := canvas_width f;
     canvas_height := canvas_height f;
     ctx := c;
     particles := ps;
     connections := connections f;
     width := width f;
     height := height f;
     mouseRadius := mouseRadius f |}.

Definition draw (f : fields) (g : world) : fields :=
  let ps := map (updateParticle (width f) (height f) (mouseRadius f)
                                (mouseX g) (mouseY g))
                (particles f) in
  setCtx f
    (ctx f ++ [ClearRect (Fin 0) (Fin 0) (width f) (height f)]
           ++ map drawParticle ps
           ++ connectParticles ps)
    ps.

Definition requestFrame (g : world) : world :=
  {| canvas := canvas g;
     innerWidth := innerWidth g;
     innerHeight := innerHeight g;
     particleCount := particleCount g;
     reducedMotion := reducedMotion g;
     debugMode := debugMode g;
     mouseX := mouseX g;
     mouseY := mouseY g;
     draws := draws g;
     next_oid := next_oid g;
     listeners := listeners g;
     frames := S (frames g);
     console := console g;
     alerts := alerts g;
     cssVars := cssVars g |}.

Definition animate (f : fields) (g : world) : fields * world :=
  ((if reducedMotion g then f else draw f g), requestFrame g).

(** *** The constructor, init() and the caller in SystemSecrets *)

Definition addEventListener (event : string) (g : world) : world :=
  {| canvas := canvas g;
     innerWidth := innerWidth g;
     innerHeight := innerHeight g;
     particleCount := particleCount g;
     reducedMotion := reducedMotion g;
     debugMode := debugMode g;
     mouseX := mouseX g;
     mouseY := mouseY g;
     draws := draws g;
     next_oid := next_oid g;
     listeners := listeners g ++ [event];
     frames := frames g;
     console := console g;
     alerts := alerts g;
     cssVars := cssVars g |}.

(** Utils.log(msg, type) *)
Definition log (msg : string) (g : world) : world :=
  if debugMode g then
    {| canvas := canvas g;
       innerWidth := innerWidth g;
       innerHeight := innerHeight g;
       particleCount := particleCount g;
       reducedMotion := reducedMotion g;
       debugMode := debugMode g;
       mouseX := mouseX g;
       mouseY := mouseY g;
       draws := draws g;
       next_oid := next_oid g;
       listeners := listeners g;
       frames := frames g;
       console := console g ++ [msg];
       alerts := alerts g;
       cssVars := cssVars g |}
  else g.

Section Construction.

Variable rand : nat -> R.

(** init() *)
Definition init (f : fields) (g : world) : fields * world :=
  let (f1, g1) := resize rand f g in
  let (f2, g2) := createParticles rand f1 g1 in
  let (f3, g3) := animate f2 g2 in
  (f3, log "Neural Canvas Engine initialized."
         (addEventListener "mousemove" (addEventListener "resize" g3))).

(** new NeuralCanvas() *)
Definition construct (g : world) : instance * world :=
  match canvas g with
  | None => (NoCanvas, g)
  | Some (cw, ch) =>
      let (f, g') :=
        init {| canvas_width := cw;
                canvas_height := ch;
                ctx := [];
                particles := [];
                connections := [];
                width := innerWidth g;
                height := innerHeight g;
                mouseRadius := Fin 150 |} g in
      (Ready f, g')
  end.

Definition recolor (c : string) (p : particle) : particle :=
  {| oid := oid p; x := x p; y := y p; vx := vx p; vy := vy p;
     size := size p; color := c |}.

(** SystemSecrets.activateGodMode() *)
Definition activateGodMode (g : world) : result (instance * world) :=
  let g1 := log "GOD MODE ACTIVATED" g in
  let g2 :=
    {| canvas := canvas g1;
       innerWidth := innerWidth g1;
       innerHeight := innerHeight g1;
       particleCount := particleCount g1;
       reducedMotion := reducedMotion g1;
       debugMode := debugMode g1;
       mouseX := mouseX g1;
       mouseY := mouseY g1;
       draws := draws g1;
       next_oid := next_oid g1;
       listeners := listeners g1;
       frames := frames g1;
       console := console g1;
       alerts := alerts g1 ++ ["ACCESS GRANTED: SYSTEM OVERRIDE INITIATED."];
       cssVars := cssVars g1 ++ [("--accent-primary", "#ff00ff");
                                 ("--bg-deep", "#000000")] |} in
  let (matrixCanvas, g3) := construct g2 in
  match matrixCanvas with
  | NoCanvas =>
      (* matrixCanvas.particles is undefined *)
      Throw (TypeError "Cannot read properties of undefined (reading 'forEach')")
  | Ready f =>
      Ok (Ready (setCtx f (ctx f) (map (recolor "#ff00ff") (particles f))), g3)
  end.

End Construction.

(** *** Notions used to state properties of the class *)

(** [lo <= a <= hi] on numbers: none of the three is NaN or infinite. *)
Definition within (lo hi a : number) : Prop :=
  match lo, hi, a with
  | Fin l, Fin u, Fin r => l <= r <= u
  | _, _, _ => False
  end.

(** Euclidean length of the displacement applied to a particle; 0 when the
    mouse interaction is skipped. *)
Definition magnitude (d : option (number * number)) : number :=
  match d with
  | Some (directionX, directionY) =>
      sqrt (add (mul directionX directionX) (mul directionY directionY))
  | None => Fin 0
  end.

(** The pointer is exactly at the particle. *)
Definition pointerAt (mx my : number) (p : particle) : Prop :=
  x p = mx /\ y p = my.

(** The pointer is at least one unit (a CSS pixel) away from the
    particle. *)
Definition apart (mx my : number) (p : particle) : Prop :=
  exists d, pointerDistance mx my p = Fin d /\ 1 <= d.

(** The history of one particle over successive frames of draw(), the
    pointer of each frame given: the particle after each frame. *)
Fixpoint run (w h radius : number) (p : particle)
         (pointers : list (number * number)) : list particle :=
  match pointers with
  | [] => []
  | (mx, my) :: rest =>
      let p' := updateParticle w h radius mx my p in
      p' :: run w h radius p' rest
  end.

(** Frames of the history in which the boundary check on x fires
    ([p.vx *= -1] is executed). *)
Fixpoint flipsOnX (w h radius : number) (p : particle)
         (pointers : list (number * number)) : nat :=
  match pointers with
  | [] => O
  | (mx, my) :: rest =>
      ((if flips_x w (move p) then 1 else 0)
       + flipsOnX w h radius (updateParticle w h radius mx my p) rest)%nat
  end.




(** No frame of the history applies a pointer displacement to the
    particle (the test [distance < mouseRadius] fails in each). *)
Fixpoint freeRun (w h radius : number) (p : particle)
         (pointers : list (number * number)) : Prop :=
  match pointers with
  | [] => True
  | (mx, my) :: rest =>
      displacement radius mx my (move p) = None /\
      freeRun w h radius (updateParticle w h radius mx my p) rest
  end.

(** In each frame of the history the particle gets no displacement, or the
    pointer is a point of the canvas at least one unit away from the
    particle. *)
Fixpoint pointerRun (W H : R) (radius : number) (p : particle)
         (pointers : list (number * number)) : Prop :=
  match pointers with
  | [] => True
  | (mx, my) :: rest =>
      (displacement radius mx my (move p) = None \/
       (exists rx ry, mx = Fin rx /\ my = Fin ry /\
                      0 <= rx <= W /\ 0 <= ry <= H /\
                      apart mx my (move p))) /\
      pointerRun W H radius (updateParticle (Fin W) (Fin H) radius mx my p) rest
  end.

(** On x, for the bound [W], the margin [m] and the speed [c] on the axis:
    the particle and its next position are at most [m + c] outside. *)
Definition near_x (W m c : R) (p : particle) : Prop :=
  exists px u,
    x p = Fin px /\ vx p = Fin u /\ Rabs u = c /\
    - (m + c) <= px <= W + (m + c) /\ - (m + c) <= px + u <= W + (m + c).

Definition near_y (H m c : R) (p : particle) : Prop :=
  exists py v,
    y p = Fin py /\ vy p = Fin v /\ Rabs v = c /\
    - (m + c) <= py <= H + (m + c) /\ - (m + c) <= py + v <= H + (m + c).

(** On x, for the bound [W] and the speed [c] on the axis: the particle is
    inside, or it is outside with a velocity that takes it back inside in
    one step. *)
Definition returning_x (W c : R) (p : particle) : Prop :=
  exists px u,
    x p = Fin px /\ vx p = Fin u /\ Rabs u = c /\
    (0 <= px <= W \/ ((px < 0 \/ W < px) /\ 0 <= px + u <= W)).

Definition returning_y (H c : R) (p : particle) : Prop :=
  exists py v,
    y p = Fin py /\ vy p = Fin v /\ Rabs v = c /\
    (0 <= py <= H \/ ((py < 0 \/ H < py) /\ 0 <= py + v <= H)).

(** A particle of size 1 at [(px, py)] with velocity [(pvx, pvy)], for
    concrete runs. *)
Definition particleAt (px py pvx pvy : R) : particle :=
  {| oid := 0; x := Fin px; y := Fin py; vx := Fin pvx; vy := Fin pvy;
     size := Fin 1; color := cyan |}.

(** An instance on a [w] by [h] window holding the particles [ps], and the
    globals of a page with that window and the pointer at [(mx, my)], for
    concrete runs; one object (number 0) has been allocated. *)
Definition fieldsOf (w h : number) (ps : list particle) : fields :=
  {| canvas_width := w; canvas_height := h; ctx := []; particles := ps;
     connections := []; width := w; height := h; mouseRadius := Fin 150 |}.

(** The globals of a page that has no canvas for the selector. *)
Definition pageWithoutCanvas (w h : number) : world :=
  {| canvas := None; innerWidth := w; innerHeight := h;
     particleCount := 60; reducedMotion := false; debugMode := true;
     mouseX := Fin 0; mouseY := Fin 0; draws := 0; next_oid := 0;
     listeners := []; frames := 0; console := []; alerts := [];
     cssVars := [] |}.

Definition worldAt (w h mx my : number) : world :=
  {| canvas := Some (w, h); innerWidth := w; innerHeight := h;
     particleCount := 60; reducedMotion := false; debugMode := true;
     mouseX := mx; mouseY := my; draws := 0; next_oid := 1;
     listeners := []; frames := 0; console := []; alerts := [];
     cssVars := [] |}.

End NeuralCanvas.

(** ** The first script: CONFIG, STATE, InputHandler, CanvasController,
       BackgroundParticle and BackgroundSystem *)

Module Background.
Import JS Canvas.

(** STATE.mouse *)
Record pointer : Type := mkPointer {
  mouse_x : number;
  mouse_y : number;
  isActive : bool;
  isClicking : bool
}.

(** The initial value of STATE.mouse. *)
Definition initialPointer : pointer :=
  {| mouse_x := Fin (-9999); mouse_y := Fin (-9999);
     isActive := false; isClicking := false |}.

(** InputHandler.handleTouchEnd() *)
Definition handleTouchEnd (m : pointer) : pointer :=
  {| mouse_x := Fin (-9999); mouse_y := Fin (-9999);
     isActive := false; isClicking := false |}.

(** InputHandler.handleMouseMove(e) *)
Definition handleMouseMove (clientX clientY : number) (m : pointer) : pointer :=
  {| mouse_x := clientX; mouse_y := clientY;
     isActive := true; isClicking := isClicking m |}.

(** CONFIG.bg *)
Definition particleCountDesktop : nat := 100.
Definition particleCountMobile : nat := 40.
Definition connectionDistance : number := Fin 140.
Definition baseSpeed : number := Fin (3/10).
Definition cyan : string := "#00f0ff".

(** The page and the globals around the background system. *)
Record env : Type := mkEnv {
  element : option (number * number * option (number * number));
    (* getElementById(id): null, or the canvas: its width and height
       attributes, and its parentElement: null or the parent's clientWidth
       and clientHeight *)
  dpr : number;              (* STATE.screen.dpr *)
  isMobile : bool;           (* CONFIG.core.isMobile *)
  draws : nat;               (* Math.random() calls made so far *)
  subscribers : list string  (* Events.on('resize', ...) registrations *)
}.

(** *** class CanvasController *)

Record controller : Type := mkController {
  isValid : bool;
  parent : option (number * number);
  ctx : list cmd;
  canvas_width : number;     (* this.canvas.width *)
  canvas_height : number;    (* this.canvas.height *)
  width : number;
  height : number
}.

(** resize() *)
Definition resize (d : number) (c : controller) : controller :=
  if negb (isValid c) then c
  else
    match parent c with
    | Some (clientWidth, clientHeight) =>
        {| isValid := isValid c;
           parent := parent c;
           ctx := ctx c ++ [Scale d d];
           canvas_width := mul clientWidth d;
           canvas_height := mul clientHeight d;
           width := clientWidth;
           height := clientHeight |}
    | None => c
    end.

(** clear() *)
Definition clear (c : controller) : controller :=
  if negb (isValid c) then c
  else
    {| isValid := isValid c;
       parent := parent c;
       ctx := ctx c ++ [ClearRect (Fin 0) (Fin 0) (width c) (height c)];
       canvas_width := canvas_width c;
       canvas_height := canvas_height c;
       width := width c;
       height := height c |}.

Definition subscribe (who : string) (e : env) : env :=
  {| element := element e; dpr := dpr e; isMobile := isMobile e;
     draws := draws e; subscribers := subscribers e ++ [who] |}.

(** new CanvasController(id).  Without an element there is no canvas whose
    attributes could be read: [canvas_width] and [canvas_height] are then
    placeholders that no method reads. *)
Definition newController (e : env) : controller * env :=
  match element e with
  | Some (cw, ch, par) =>
      let c := {| isValid := true; parent := par; ctx := [];
                  canvas_width := cw; canvas_height := ch;
                  width := Fin 0; height := Fin 0 |} in
      (resize (dpr e) c, subscribe "CanvasController.resize" e)
  | None =>
      ({| isValid := false; parent := None; ctx := [];
          canvas_width := NaN; canvas_height := NaN;
          width := Fin 0; height := Fin 0 |}, e)
  end.

(** *** class BackgroundParticle *)

Record particle : Type := mkParticle {
  w : number;
  h : number;
  x : number;
  y : number;
  vx : number;
  vy : number;
  size : number;
  life : number
}.

Section Random.

(** [Math.random()]: the [k]-th call returns [rand k]. *)
Variable rand : nat -> R.

Definition random (k : nat) : number := Fin (rand k).

(** reset(), the six [Math.random()] calls starting at call [k]. *)
Definition reset (p : particle) (k : nat) : particle :=
  {| w := w p;
     h := h p;
     x := mul (random k) (w p);
     y := mul (random (k + 1)) (h p);
     vx := mul (sub (random (k + 2)) (Fin (1/2))) baseSpeed;
     vy := mul (sub (random (k + 3)) (Fin (1/2))) baseSpeed;
     size := mul (random (k + 4)) (Fin 2);
     life := mul (random (k + 5)) (Fin 100) |}.

(** new BackgroundParticle(w, h); the fields that reset() reads are the
    two set before it. *)
Definition newParticle (cw ch : number) (k : nat) : particle :=
  reset {| w := cw; h := ch; x := NaN; y := NaN; vx := NaN; vy := NaN;
           size := NaN; life := NaN |} k.

(** The test of update() on the advanced particle. *)
Definition outside (p : particle) : bool :=
  lt (x p) (Fin 0) || gt (x p) (w p) || lt (y p) (Fin 0) || gt (y p) (h p).

Definition advance (p : particle) : particle :=
  {| w := w p;
     h := h p;
     x := add (x p) (vx p);
     y := add (y p) (vy p);
     vx := vx p;
     vy := vy p;
     size := size p;
     life := add (life p) (Fin 1) |}.

(** update(): the particle and the number of [Math.random()] calls made. *)
Definition update (p : particle) (k : nat) : particle * nat :=
  let p1 := advance p in
  if outside p1 then (reset p1 k, (k + 6)%nat) else (p1, k).

(** draw(ctx) *)
Definition drawParticle (p : particle) : cmd :=
  Disc (x p) (y p) (size p) (Hex cyan) (Fin (3/10)).

(** *** class BackgroundSystem *)

Record system : Type := mkSystem {
  canvas : controller;
  particles : list particle;
  initialized : bool
}.

Fixpoint pushParticles (count : nat) (cw ch : number) (k : nat)
  : list particle :=
  match count with
  | O => []
  | S count' => newParticle cw ch k :: pushParticles count' cw ch (k + 6)
  end.

(** createParticles() *)
Definition createParticles (s : system) (e : env) : system * env :=
  let count := if isMobile e then particleCountMobile
               else particleCountDesktop in
  ({| canvas := canvas s;
      particles := pushParticles count (width (canvas s)) (height (canvas s))
                     (draws e);
      initialized := initialized s |},
   {| element := element e; dpr := dpr e; isMobile := isMobile e;
      draws := (draws e + 6 * count)%nat;
      subscribers := subscribers e |}).

(** init() *)
Definition init (s : system) (e : env) : system * env :=
  let (s1, e1) := createParticles s e in
  ({| canvas := canvas s1; particles := particles s1; initialized := true |},
   subscribe "BackgroundSystem.createParticles" e1).

(** new BackgroundSystem() *)
Definition newSystem (e : env) : system * env :=
  let (c, e1) := newController e in
  let s := {| canvas := c; particles := []; initialized := false |} in
  if isValid c then init s e1 else (s, e1).

Fixpoint updateAll (ps : list particle) (k : nat) : list particle * nat :=
  match ps with
  | [] => ([], k)
  | p :: rest =>
      let (p', k1) := update p k in
      let (rest', k2) := updateAll rest k1 in
      (p' :: rest', k2)
  end.

(** update() *)
Definition updateSystem (s : system) (e : env) : system * env :=
  if negb (initialized s) then (s, e)
  else
    let (ps, k) := updateAll (particles s) (draws e) in
    ({| canvas := canvas s; particles := ps; initialized := initialized s |},
     {| element := element e; dpr := dpr e; isMobile := isMobile e;
        draws := k; subscribers := subscribers e |}).

End Random.

Definition distance (p q : particle) : number :=
  let dx := sub (x p) (x q) in
  let dy := sub (y p) (y q) in
  sqrt (add (mul dx dx) (mul dy dy)).

(** A line stroked by draw(): the two array indices and [globalAlpha]. *)
Record link : Type := mkLink {
  link_i : nat;
  link_j : nat;
  alpha : number
}.

(** Body of the inner loop for the indices [i] and [j]. *)
Definition connectPair (maxDist : number) (ps : list particle) (i j : nat)
  : list link :=
  match nth_error ps i, nth_error ps j with
  | Some p1, Some p2 =>
      let dist := distance p1 p2 in
      if lt dist maxDist
      then [ {| link_i := i; link_j := j;
                alpha := mul (Fin (15/100))
                             (sub (Fin 1) (div dist maxDist)) |} ]
      else []
  | _, _ => []
  end.

(** The lines of row [i]: [j] from [i + 1] below the length. *)
Definition linksFrom (maxDist : number) (ps : list particle) (i : nat)
  : list link :=
  flat_map (connectPair maxDist ps i) (seq (S i) (List.length ps - S i)).

Definition links (maxDist : number) (ps : list particle) : list link :=
  flat_map (linksFrom maxDist ps) (seq 0 (List.length ps)).

Definition strokeLink (ps : list particle) (l : link) : list cmd :=
  match nth_error ps (link_i l), nth_error ps (link_j l) with
  | Some p1, Some p2 =>
      [ Segment (x p1) (y p1) (x p2) (y p2) (Hex cyan) (Fin (1/2)) (alpha l) ]
  | _, _ => []
  end.

(** One iteration of the outer loop of draw(). *)
Definition drawRow (ps : list particle) (i : nat) : list cmd :=
  match nth_error ps i with
  | Some p1 =>
      drawParticle p1
        :: flat_map (strokeLink ps) (linksFrom connectionDistance ps i)
  | None => []
  end.

(** draw() *)
Definition drawSystem (s : system) : system :=
  if negb (initialized s) then s
  else
    let c := clear (canvas s) in
    {| canvas :=
         {| isValid := isValid c;
            parent := parent c;
            ctx := ctx c ++ flat_map (drawRow (particles s))
                                     (seq 0 (List.length (particles s)));
            canvas_width := canvas_width c;
            canvas_height := canvas_height c;
            width := width c;
            height := height c |};
       particles := particles s;
       initialized := initialized s |}.

(** [lo <= a <= hi] on numbers: none of the three is NaN or infinite. *)
Definition within (lo hi a : number) : Prop :=
  match lo, hi, a with
  | Fin l, Fin u, Fin r => l <= r <= u
  | _, _, _ => False
  end.

(** A particle of a [W] by [H] canvas whose position and velocity are real
    numbers. *)
Definition realParticle (W H : R) (p : particle) : Prop :=
  w p = Fin W /\ h p = Fin H /\
  is_finite (x p) /\ is_finite (y p) /\ is_finite (vx p) /\ is_finite (vy p).

(** Events.emit('resize', ...): the callbacks subscribed by this system, in
    subscription order. *)
Definition notify (rand : nat -> R) (se : system * env) (who : string)
  : system * env :=
  let (s, e) := se in
  if String.eqb who "CanvasController.resize"
  then ({| canvas := resize (dpr e) (canvas s);
           particles := particles s;
           initialized := initialized s |}, e)
  else if String.eqb who "BackgroundSystem.createParticles"
       then createParticles rand s e
       else (s, e).

(** InputHandler.handleResize() for the new [window.innerWidth]. *)
Definition handleResize (rand : nat -> R) (innerWidth : number)
           (s : system) (e : env) : system * env :=
  let e1 := {| element := element e; dpr := dpr e;
               isMobile := lt innerWidth (Fin 768);
               draws := draws e; subscribers := subscribers e |} in
  fold_left (notify rand) (subscribers e1) (s, e1).

(** What the frame loop (Application.update, Application.draw) and the
    resize event do with the system. *)
Inductive call : Type :=
| CallUpdate
| CallDraw
| ResizeEvent (innerWidth : number).

Definition perform (rand : nat -> R) (s : system) (e : env) (c : call)
  : system * env :=
  match c with
  | CallUpdate => updateSystem rand s e
  | CallDraw => (drawSystem s, e)
  | ResizeEvent innerWidth => handleResize rand innerWidth s e
  end.

Fixpoint performAll (rand : nat -> R) (s : system) (e : env)
         (cs : list call) : system * env :=
  match cs with
  | [] => (s, e)
  | c :: rest =>
      let (s', e') := perform rand s e c in performAll rand s' e' rest
  end.

(** The particles of a system are real particles of a [W] by [H] canvas,
    inside it. *)
Definition allInside (W H : R) (s : system) : Prop :=
  Forall (fun q => realParticle W H q /\
                   within (Fin 0) (Fin W) (x q) /\
                   within (Fin 0) (Fin H) (y q))
         (particles s).

End Background.

(** ** More of JavaScript's arithmetic *)

Module JSMath.
Import JS.

(** [a === b] on numbers *)
Definition eqb (a b : number) : bool :=
  match a, b with
  | Fin r, Fin s => if Req_dec_T r s then true else false
  | PInf, PInf | NInf, NInf => true
  | _, _ => false
  end.

(** [a !== b] *)
Definition neqb (a b : number) : bool := negb (eqb a b).

(** [a <= b] and [a >= b] *)
Definition le (a b : number) : bool := lt a b || eqb a b.
Definition ge (a b : number) : bool := le b a.

(** Truthiness of a number: all but 0 and NaN. *)
Definition truthy (a : number) : bool :=
  match a with
  | Fin r => if Req_dec_T r 0 then false else true
  | NaN => false
  | PInf | NInf => true
  end.

(** [a || d] *)
Definition orElse (a d : number) : number := if truthy a then a else d.

(** [Math.min(a, b)] and [Math.max(a, b)] *)
Definition min (a b : number) : number :=
  match a, b with
  | NaN, _ | _, NaN => NaN
  | _, _ => if lt b a then b else a
  end.

Definition max (a b : number) : number :=
  match a, b with
  | NaN, _ | _, NaN => NaN
  | _, _ => if lt a b then b else a
  end.

End JSMath.

(** ** class Vector2 *)

Module Vector2.
Import JS JSMath.

Record vec : Type := mkVec {
  x : number;
  y : number
}.

(** new Vector2(x, y): [this.x = x || 0; this.y = y || 0] *)
Definition make (a b : number) : vec :=
  {| x := orElse a (Fin 0); y := orElse b (Fin 0) |}.

Definition set (v : vec) (a b : number) : vec := {| x := a; y := b |}.

Definition add (v u : vec) : vec :=
  {| x := JS.add (x v) (x u); y := JS.add (y v) (y u) |}.

Definition sub (v u : vec) : vec :=
  {| x := JS.sub (x v) (x u); y := JS.sub (y v) (y u) |}.

Definition mult (v : vec) (s : number) : vec :=
  {| x := JS.mul (x v) s; y := JS.mul (y v) s |}.

(** div(s): [if (s === 0) return this] *)
Definition div (v : vec) (s : number) : vec :=
  if eqb s (Fin 0) then v
  else {| x := JS.div (x v) s; y := JS.div (y v) s |}.

(** mag(), in exact arithmetic.  The value the engine computes is
    [Double.Vector2.mag]: Infinity when a square overflows, 0 when both
    underflow. *)
Definition mag (v : vec) : number :=
  sqrt (JS.add (mul (x v) (x v)) (mul (y v) (y v))).

(** normalize(): [if (m !== 0) this.div(m)] *)
Definition normalize (v : vec) : vec :=
  let m := mag v in
  if neqb m (Fin 0) then div v m else v.

(** limit(max) *)
Definition limit (v : vec) (max : number) : vec :=
  if gt (mag v) max then mult (normalize v) max else v.

Definition dist (v u : vec) : number :=
  let dx := JS.sub (x v) (x u) in
  let dy := JS.sub (y v) (y u) in
  sqrt (JS.add (mul dx dx) (mul dy dy)).

Definition copy (v : vec) : vec := make (x v) (y v).

(** static sub(v1, v2) *)
Definition difference (v1 v2 : vec) : vec :=
  make (JS.sub (x v1) (x v2)) (JS.sub (y v1) (y v2)).

(** Both components are real numbers. *)
Definition finite (v : vec) : Prop := is_finite (x v) /\ is_finite (y v).

(** Both components are zero or of a size between [tiny] and [huge]: their
    squares neither underflow nor overflow. *)
Definition ordinary (v : vec) : Prop :=
  JS.ordinary (x v) /\ JS.ordinary (y v).

End Vector2.

(** ** class NeuralNode and the pointer of NeuralNetworkSystem.update *)

Module NeuralNode.
Import JS JSMath.

(** CONFIG.ann *)
Definition mouseRadius : number := Fin 250.
Definition mouseForce : number := Fin 2.
Definition floatSpeed : number := Fin (1/2).

Record node : Type := mkNode {
  id : nat;
  basePos : Vector2.vec;
  pos : Vector2.vec;
  vel : Vector2.vec;
  acc : Vector2.vec;
  radius : number;
  baseRadius : number;
  floatOffset : number;
  activation : number;
  connections : list nat;   (* the ids of the nodes connected to *)
  isAnchor : bool;
  layer : nat
}.

Definition setActivation (n : node) (a : number) : node :=
  {| id := id n; basePos := basePos n; pos := pos n; vel := vel n;
     acc := acc n; radius := radius n; baseRadius := baseRadius n;
     floatOffset := floatOffset n; activation := a;
     connections := connections n; isAnchor := isAnchor n;
     layer := layer n |}.

Definition setAcc (n : node) (a : Vector2.vec) : node :=
  {| id := id n; basePos := basePos n; pos := pos n; vel := vel n;
     acc := a; radius := radius n; baseRadius := baseRadius n;
     floatOffset := floatOffset n; activation := activation n;
     connections := connections n; isAnchor := isAnchor n;
     layer := layer n |}.

(** connect(node) *)
Definition connect (n : node) (other : nat) : node :=
  {| id := id n; basePos := basePos n; pos := pos n; vel := vel n;
     acc := acc n; radius := radius n; baseRadius := baseRadius n;
     floatOffset := floatOffset n; activation := activation n;
     connections := connections n ++ [other]; isAnchor := isAnchor n;
     layer := layer n |}.

(** activate(amount) *)
Definition activate (n : node) (amount : number) : node :=
  setActivation n (min (add (activation n) amount) (Fin 1)).

(** The part of update() under [if (STATE.mouse.isActive)]. *)
Definition repulse (mousePos : Vector2.vec) (n : node) : node :=
  let mouseV := Vector2.make (Vector2.x mousePos) (Vector2.y mousePos) in
  let dist := Vector2.dist (pos n) mouseV in
  if lt dist mouseRadius then
    let repulsion := Vector2.normalize (Vector2.difference (pos n) mouseV) in
    let magnitude := div (sub mouseRadius dist) mouseRadius in
    let repulsion :=
      Vector2.mult repulsion (mul (mul magnitude mouseForce) (Fin 5)) in
    activate (setAcc n (Vector2.add (acc n) repulsion)) (Fin (1/100))
  else n.

(** update(mousePos), [isActive] being STATE.mouse.isActive. *)
Definition update (isActive : bool) (mousePos : Vector2.vec) (n : node)
  : node :=
  let targetX := Vector2.x (basePos n) in
  let targetY := Vector2.y (basePos n) in
  let force := Vector2.make (sub targetX (Vector2.x (pos n)))
                            (sub targetY (Vector2.y (pos n))) in
  let force := Vector2.mult force (mul floatSpeed (Fin (1/10))) in
  let n1 := setAcc n (Vector2.add (acc n) force) in
  let n2 := if isActive then repulse mousePos n1 else n1 in
  let vel1 := Vector2.mult (Vector2.add (vel n2) (acc n2)) (Fin (92/100)) in
  let pos1 := Vector2.add (pos n2) vel1 in
  let acc1 := Vector2.mult (acc n2) (Fin 0) in
  let activation1 := max (sub (activation n2) (Fin (1/100))) (Fin 0) in
  {| id := id n2; basePos := basePos n2; pos := pos1; vel := vel1;
     acc := acc1;
     radius := add (baseRadius n2) (mul activation1 (Fin 5));
     baseRadius := baseRadius n2; floatOffset := floatOffset n2;
     activation := activation1; connections := connections n2;
     isAnchor := isAnchor n2; layer := layer n2 |}.

(** getBoundingClientRect() of the canvas *)
Record rect : Type := mkRect {
  left : number;
  top : number;
  right : number;
  bottom : number
}.

(** The pointer NeuralNetworkSystem.update() hands to the nodes:
    [mouseVec]. *)
Definition localMouse (m : Background.pointer) (r : rect) : Vector2.vec :=
  if Background.isActive m
     && (ge (Background.mouse_x m) (left r)
         && le (Background.mouse_x m) (right r)
         && ge (Background.mouse_y m) (top r)
         && le (Background.mouse_y m) (bottom r))
  then Vector2.make (sub (Background.mouse_x m) (left r))
                    (sub (Background.mouse_y m) (top r))
  else Vector2.make (Fin (-9999)) (Fin (-9999)).

(** The loop [this.nodes.forEach(node => node.update(mouseVec))]. *)
Definition updateNodes (m : Background.pointer) (r : rect)
           (nodes : list node) : list node :=
  map (update (Background.isActive m) (localMouse m r)) nodes.

(** Position, velocity, acceleration, base position and activation are
    real numbers. *)
Definition finiteNode (n : node) : Prop :=
  Vector2.finite (basePos n) /\ Vector2.finite (pos n) /\
  Vector2.finite (vel n) /\ Vector2.finite (acc n) /\
  is_finite (activation n) /\ is_finite (baseRadius n).

(** A node at rest at [(ox, oy)] with activation [a], for concrete runs. *)
Definition nodeAt (ox oy a : R) : node :=
  {| id := 0;
     basePos := Vector2.mkVec (Fin ox) (Fin oy);
     pos := Vector2.mkVec (Fin ox) (Fin oy);
     vel := Vector2.mkVec (Fin 0) (Fin 0);
     acc := Vector2.mkVec (Fin 0) (Fin 0);
     radius := Fin 8; baseRadius := Fin 8; floatOffset := Fin 0;
     activation := Fin a; connections := []; isAnchor := false;
     layer := 0 |}.

End NeuralNode.

(** ** Utils of the first script, and mapRange of the third *)

Module Utils.
Import JS JSMath.

Section Random.

Variable rand : nat -> R.

(** Utils.random(min, max), also Utils.randomFloat; the [k]-th
    Math.random() call. *)
Definition random (k : nat) (min max : number) : number :=
  add (mul (Fin (rand k)) (sub max min)) min.

End Random.

(** Utils.map(value, start1, stop1, start2, stop2) *)
Definition map (value start1 stop1 start2 stop2 : number) : number :=
  add start2 (mul (sub stop2 start2)
                  (div (sub value start1) (sub stop1 start1))).

(** Utils.mapRange(value, inMin, inMax, outMin, outMax) *)
Definition mapRange (value inMin inMax outMin outMax : number) : number :=
  add (div (mul (sub value inMin) (sub outMax outMin)) (sub inMax inMin))
      outMin.

(** Utils.lerp(start, end, amt) *)
Definition lerp (start stop amt : number) : number :=
  add (mul (sub (Fin 1) amt) start) (mul amt stop).

(** Utils.dist(x1, y1, x2, y2) *)
Definition dist (x1 y1 x2 y2 : number) : number :=
  let dx := sub x1 x2 in
  let dy := sub y1 y2 in
  sqrt (add (mul dx dx) (mul dy dy)).

End Utils.

(** ** class EventManager *)

Module Events.
Import JS.

(** [this.listeners]: for an event name, its array of callbacks, when the
    object has the property itself.  A callback is known by its identity. *)
Definition registry : Type := string -> option (list nat).

(** The constructor: [this.listeners = {}]. *)
Definition empty : registry := fun _ => None.

(** [this.listeners] is a plain object: for these names
    [this.listeners[event]] is what Object.prototype holds, a function or
    an object that is no array. *)
Definition objectPrototypeKeys : list string :=
  [ "constructor"; "__defineGetter__"; "__defineSetter__"; "hasOwnProperty";
    "__lookupGetter__"; "__lookupSetter__"; "isPrototypeOf";
    "propertyIsEnumerable"; "toString"; "valueOf"; "__proto__";
    "toLocaleString" ].

Definition inherited (event : string) : bool :=
  existsb (String.eqb event) objectPrototypeKeys.

(** The array [this.listeners[event]] of a name that is not inherited,
    empty when there is none. *)
Definition callbacks (event : string) (reg : registry) : list nat :=
  match reg event with
  | Some cbs => cbs
  | None => []
  end.

(** on(event, callback) *)
Definition on (event : string) (callback : nat) (reg : registry)
  : result registry :=
  if inherited event
  then Throw (TypeError "this.listeners[event].push is not a function")
  else Ok (fun e =>
             if String.eqb e event
             then Some (match reg event with
                        | Some cbs => cbs ++ [callback]
                        | None => [callback]
                        end)
             else reg e).

(** emit(event, payload): the callbacks called, in order. *)
Definition emit (event : string) (reg : registry) : result (list nat) :=
  if inherited event
  then Throw (TypeError "this.listeners[event].forEach is not a function")
  else Ok (callbacks event reg).

(** off(event, callback) *)
Definition off (event : string) (callback : nat) (reg : registry)
  : result registry :=
  if inherited event
  then Throw (TypeError "this.listeners[event].filter is not a function")
  else Ok (fun e =>
             if String.eqb e event
             then match reg event with
                  | Some cbs =>
                      Some (filter (fun cb => negb (Nat.eqb cb callback)) cbs)
                  | None => None
                  end
             else reg e).

End Events.

(** ** The typing animation of the first script: typeEffect() *)

Module Typing.
Import JS.

Definition roles : list string :=
  [ "Machine Learning Engineer"; "AI Developer"; "Python Developer";
    "Data Science Enthusiast" ].

(** [roleIndex], [charIndex], [isDeleting] *)
Record state : Type := mkState {
  roleIndex : nat;
  charIndex : Z;
  isDeleting : bool
}.

Definition initial : state :=
  {| roleIndex := 0; charIndex := 0%Z; isDeleting := false |}.

(** [s.substring(0, n)] *)
Definition prefix (s : string) (n : Z) : string :=
  String.substring 0 (Z.to_nat n) s.

(** One call of typeEffect() for the list [rs] of roles: the new globals,
    the text written to the element and the delay of the next call.
    [element] tells whether [.typing-text] exists. *)
Definition typeEffect (rs : list string) (element : bool) (st : state)
  : result (state * string * nat) :=
  match nth_error rs (roleIndex st) with
  | None => Throw (TypeError "currentRole is undefined")
  | Some currentRole =>
      if negb element then Throw (TypeError "typingElement is null")
      else
        let text := prefix currentRole (charIndex st) in
        let charIndex1 :=
          if isDeleting st then (charIndex st - 1)%Z
          else (charIndex st + 1)%Z in
        let speed := if isDeleting st then 50%nat else 100%nat in
        if negb (isDeleting st)
           && Z.eqb charIndex1 (Z.of_nat (String.length currentRole))
        then Ok ({| roleIndex := roleIndex st; charIndex := charIndex1;
                    isDeleting := true |}, text, 1500%nat)
        else if isDeleting st && Z.eqb charIndex1 0
             then Ok ({| roleIndex := (roleIndex st + 1) mod List.length rs;
                         charIndex := charIndex1;
                         isDeleting := false |}, text, 500%nat)
             else Ok ({| roleIndex := roleIndex st; charIndex := charIndex1;
                         isDeleting := isDeleting st |}, text, speed)
  end.

(** [n] successive calls, the timer firing each time: the final globals and
    the texts shown, first call first. *)
Fixpoint calls (rs : list string) (n : nat) (st : state)
  : result (state * list string) :=
  match n with
  | O => Ok (st, [])
  | S n' =>
      match typeEffect rs true st with
      | Throw e => Throw e
      | Ok (st1, text, _) =>
          match calls rs n' st1 with
          | Throw e => Throw e
          | Ok (st2, texts) => Ok (st2, text :: texts)
          end
      end
  end.

End Typing.

(** ** class SystemSecrets: the key buffer *)

Module Secrets.

Definition konamiCode : list string :=
  [ "ArrowUp"; "ArrowUp"; "ArrowDown"; "ArrowDown"; "ArrowLeft";
    "ArrowRight"; "ArrowLeft"; "ArrowRight"; "b"; "a" ].

(** [array.join('')] *)
Definition join (keys : list string) : string := String.concat "" keys.

(** checkInput(e) for [e.key = key]: the new [keyBuffer], and whether
    activateGodMode() is called. *)
Definition checkInput (key : string) (keyBuffer : list string)
  : list string * bool :=
  let pushed := keyBuffer ++ [key] in
  let buffer :=
    if Nat.ltb (List.length konamiCode) (List.length pushed)
    then tl pushed else pushed in
  (buffer, String.eqb (join buffer) (join konamiCode)).

(** The keydown events [keys] in order: the final buffer and how many
    times activateGodMode() was called. *)
Fixpoint typeKeys (keys : list string) (keyBuffer : list string)
  : list string * nat :=
  match keys with
  | [] => (keyBuffer, O)
  | key :: rest =>
      let (buffer, fired) := checkInput key keyBuffer in
      let (final, n) := typeKeys rest buffer in
      (final, ((if fired then 1 else 0) + n)%nat)
  end.

(** The keydown listener for [e.key = key] on a page with the globals [g]:
    checkInput(e), and activateGodMode() when the buffer matches. *)
Definition keydown (rand : nat -> R) (key : string)
           (keyBuffer : list string) (g : NeuralCanvas.world)
  : JS.result (list string * NeuralCanvas.world) :=
  let (buffer, fired) := checkInput key keyBuffer in
  if fired then
    match NeuralCanvas.activateGodMode rand g with
    | JS.Throw e => JS.Throw e
    | JS.Ok (_, g') => JS.Ok (buffer, g')
    end
  else JS.Ok (buffer, g).

End Secrets.

(** ** class HologramController: handleTilt *)

Module Hologram.
Import JS.

(** handleTilt(e) for a hero section whose bounding rectangle starts at
    [(left, top)] and is [width] by [height]: the angles [tiltX] and
    [tiltY] written to the container, or nothing under reduced motion. *)
Definition handleTilt (reducedMotion : bool)
           (left top width height clientX clientY : number)
  : option (number * number) :=
  if reducedMotion then None
  else
    let x := sub clientX left in
    let y := sub clientY top in
    let xPct := mul (sub (div x width) (Fin (1/2))) (Fin 2) in
    let yPct := mul (sub (div y height) (Fin (1/2))) (Fin 2) in
    let tiltX := mul yPct (Fin 10) in
    let tiltY := mul (opp xPct) (Fin 10) in
    Some (tiltX, tiltY).

End Hologram.

(** ** Numbers as the engine computes them: IEEE binary64 *)

Module Double.
Import SpecFloat.
Local Open Scope Z_scope.

Definition prec : Z := 53.
Definition emax : Z := 1024.

(** A double: a signed zero, a signed infinity, NaN, or the finite number
    [(-1)^s * m * 2^e]. *)
Definition double : Type := spec_float.

Definition add : double -> double -> double := SFadd prec emax.
Definition sub : double -> double -> double := SFsub prec emax.
Definition mul : double -> double -> double := SFmul prec emax.
Definition div : double -> double -> double := SFdiv prec emax.
Definition sqrt : double -> double := SFsqrt prec emax.

(** [a < b], [a > b], [a === b] *)
Definition lt (a b : double) : bool := SFltb a b.
Definition gt (a b : double) : bool := SFltb b a.
Definition eqb (a b : double) : bool := SFeqb a b.

(** The double nearest to [m * 2^e], and the double of an integer. *)
Definition dyadic (m e : Z) : double := binary_normalize prec emax m e false.
Definition ofZ (z : Z) : double := dyadic z 0.

Definition zero : double := S754_zero false.
Definition NaN : double := S754_nan.
Definition PInf : double := S754_infinity false.
Definition NInf : double := S754_infinity true.

(** Number.isFinite *)
Definition is_finite (a : double) : bool :=
  match a with
  | S754_zero _ | S754_finite _ _ _ => true
  | S754_infinity _ | S754_nan => false
  end.

Definition is_zero (a : double) : bool :=
  match a with S754_zero _ => true | _ => false end.

(** [Math.floor(a)] *)
Definition floor (a : double) : double :=
  match a with
  | S754_finite s m e =>
      if 0 <=? e then a
      else
        let q := Z.shiftr (Zpos m) (- e) in
        let exact := Z.shiftl q (- e) =? Zpos m in
        if s then ofZ (- (if exact then q else q + 1)) else ofZ q
  | _ => a
  end.

(** *** NeuralCanvas.draw(): the per-particle update *)

Module NeuralCanvas.

(** The fields of a particle that the update reads or writes. *)
Record particle : Type := mkParticle {
  x : double;
  y : double;
  vx : double;
  vy : double
}.

(** [p.x += p.vx; p.y += p.vy] *)
Definition move (p : particle) : particle :=
  {| x := add (x p) (vx p);
     y := add (y p) (vy p);
     vx := vx p; vy := vy p |}.

(** [if (p.x < 0 || p.x > width) p.vx *= -1] and the same on y. *)
Definition bounce (w h : double) (p : particle) : particle :=
  {| x := x p;
     y := y p;
     vx := if lt (x p) zero || gt (x p) w
           then mul (vx p) (ofZ (-1)) else vx p;
     vy := if lt (y p) zero || gt (y p) h
           then mul (vy p) (ofZ (-1)) else vy p |}.

(** [Math.sqrt(dx*dx + dy*dy)] for the pointer at [(mx, my)] *)
Definition pointerDistance (mx my : double) (p : particle) : double :=
  let dx := sub mx (x p) in
  let dy := sub my (y p) in
  sqrt (add (mul dx dx) (mul dy dy)).

(** [(directionX, directionY)], or no displacement when the test
    [distance < mouseRadius] fails. *)
Definition displacement (radius mx my : double) (p : particle)
  : option (double * double) :=
  let dx := sub mx (x p) in
  let dy := sub my (y p) in
  let distance := sqrt (add (mul dx dx) (mul dy dy)) in
  if lt distance radius then
    let forceDirectionX := div dx distance in
    let forceDirectionY := div dy distance in
    let force := div (sub radius distance) radius in
    let directionX := mul (mul forceDirectionX force) (ofZ 2) in
    let directionY := mul (mul forceDirectionY force) (ofZ 2) in
    Some (directionX, directionY)
  else None.

(** [p.x -= directionX; p.y -= directionY] inside the test. *)
Definition repel (radius mx my : double) (p : particle) : particle :=
  match displacement radius mx my p with
  | Some (directionX, directionY) =>
      {| x := sub (x p) directionX;
         y := sub (y p) directionY;
         vx := vx p; vy := vy p |}
  | None => p
  end.

(** Body of the loop of draw() up to the drawing of the particle. *)
Definition updateParticle (w h radius mx my : double) (p : particle)
  : particle :=
  repel radius mx my (bounce w h (move p)).

End NeuralCanvas.

(** *** class Vector2 *)

Module Vector2.

Record vec : Type := mkVec { x : double; y : double }.

(** [x || 0]: NaN and both zeros are falsy. *)
Definition orZero (a : double) : double :=
  match a with
  | S754_nan | S754_zero _ => zero
  | _ => a
  end.

(** [new Vector2(x, y)] *)
Definition make (a b : double) : vec := {| x := orZero a; y := orZero b |}.

Definition mult (v : vec) (s : double) : vec :=
  {| x := mul (x v) s; y := mul (y v) s |}.

(** div(s): [if (s === 0) return this] *)
Definition div (v : vec) (s : double) : vec :=
  if eqb s zero then v
  else {| x := Double.div (x v) s; y := Double.div (y v) s |}.

Definition mag (v : vec) : double :=
  sqrt (add (mul (x v) (x v)) (mul (y v) (y v))).

(** normalize(): [if (m !== 0) this.div(m)] *)
Definition normalize (v : vec) : vec :=
  let m := mag v in
  if negb (eqb m zero) then div v m else v.

(** limit(max): [if (this.mag() > max) { normalize(); mult(max) }] *)
Definition limit (v : vec) (max : double) : vec :=
  if gt (mag v) max then mult (normalize v) max else v.

End Vector2.

(** *** Utils.randomInt *)

Module Utils.

(** Utils.randomInt(min, max) when Math.random() returns [random]:
    [Math.floor(Math.random() * (max - min + 1) + min)]. *)
Definition randomInt (random min max : double) : double :=
  floor (add (mul random (add (sub max min) (ofZ 1))) min).

End Utils.

End Double.

(** * Properties *)

(** ** Arithmetic of [number] on real operands *)

Section NumberFacts.
Import JS.

Lemma is_finite_inv (a : number) : is_finite a -> exists r, a = Fin r.
Proof. destruct a; simpl; intros H; try contradiction. now exists r. Qed.

Lemma sub_Fin (a b : R) : sub (Fin a) (Fin b) = Fin (a - b).
Proof. reflexivity. Qed.

Lemma lt_Fin_true (a b : R) : lt (Fin a) (Fin b) = true <-> a < b.
Proof.
  unfold lt. destruct (Rlt_dec a b); split; intros; try easy; try lra.
Qed.

Lemma lt_Fin_false (a b : R) : lt (Fin a) (Fin b) = false <-> b <= a.
Proof.
  unfold lt. destruct (Rlt_dec a b); split; intros; try easy; try lra.
Qed.

Lemma div_Fin (a b : R) : b <> 0 -> div (Fin a) (Fin b) = Fin (a / b).
Proof. intros Hb. unfold div. destruct (Req_dec_T b 0); [contradiction | reflexivity]. Qed.

Lemma div_zero_zero : div (Fin 0) (Fin 0) = NaN.
Proof.
  unfold div. destruct (Req_dec_T 0 0) as [_ | H]; [reflexivity | now elim H].
Qed.

Lemma sqrt_Fin (a : R) : 0 <= a -> sqrt (Fin a) = Fin (R_sqrt.sqrt a).
Proof. intros Ha. unfold sqrt. destruct (Rlt_dec a 0); [lra | reflexivity]. Qed.

Lemma sqrt_sum_squares (a b : R) :
  sqrt (add (mul (Fin a) (Fin a)) (mul (Fin b) (Fin b)))
  = Fin (R_sqrt.sqrt (a * a + b * b)).
Proof. simpl add. apply sqrt_Fin. nra. Qed.

Lemma sqrt_sum_squares_ge_l (a b : R) : Rabs a <= R_sqrt.sqrt (a * a + b * b).
Proof.
  rewrite <- (sqrt_Rsqr_abs a). apply sqrt_le_1_alt. unfold Rsqr. nra.
Qed.

Lemma sqrt_sum_squares_ge_r (a b : R) : Rabs b <= R_sqrt.sqrt (a * a + b * b).
Proof.
  rewrite <- (sqrt_Rsqr_abs b). apply sqrt_le_1_alt. unfold Rsqr. nra.
Qed.

Lemma sqrt_sum_squares_pos (a b : R) :
  0 < R_sqrt.sqrt (a * a + b * b) -> 0 < a * a + b * b.
Proof.
  intros H. destruct (Rle_lt_dec (a * a + b * b) 0) as [Hle | Hlt]; [| exact Hlt].
  rewrite (sqrt_neg_0 _ Hle) in H. lra.
Qed.

Lemma tiny_pos : 0 < tiny.
Proof. unfold tiny. apply Rinv_0_lt_compat, pow_lt. lra. Qed.

Lemma huge_large : 4096 <= huge.
Proof.
  unfold huge. replace 4096 with (2 ^ 12) by (simpl; lra).
  apply Rle_pow; [lra | lia].
Qed.

Lemma wide_large : 4096 <= wide.
Proof.
  unfold wide. replace 4096 with (2 ^ 12) by (simpl; lra).
  apply Rle_pow; [lra | lia].
Qed.

Lemma tiny_small : tiny <= 1.
Proof.
  unfold tiny. apply Rle_trans with (/ 1).
  - apply Rinv_le_contravar; [lra |]. apply pow_R1_Rle. lra.
  - rewrite Rinv_1. lra.
Qed.

Lemma in_range_small (r : R) : - 4096 <= r <= 4096 -> in_range (Fin r).
Proof.
  intros Hr. unfold in_range. pose proof huge_large.
  apply Rabs_le. lra.
Qed.

Lemma in_range_finite (a : number) : in_range a -> is_finite a.
Proof. destruct a; simpl; auto. Qed.

End NumberFacts.

(** ** Binary64: special values *)

Section DoubleFacts.
Import SpecFloat.

Lemma div_by_zero_not_finite (a b : Double.double) :
  Double.is_zero b = true -> Double.is_finite (Double.div a b) = false.
Proof. destruct b; try discriminate. intros _. destruct a; reflexivity. Qed.

Lemma mul_not_finite_l (a b : Double.double) :
  Double.is_finite a = false -> Double.is_finite (Double.mul a b) = false.
Proof.
  destruct a; try discriminate; intros _; destruct b; reflexivity.
Qed.

Lemma sub_not_finite_r (a b : Double.double) :
  Double.is_finite b = false -> Double.is_finite (Double.sub a b) = false.
Proof.
  destruct b as [sb | sb | | sb mb eb]; try discriminate; intros _;
    destruct a as [sa | sa | | sa ma ea];
    try destruct sa; try destruct sb; reflexivity.
Qed.

Lemma sub_self (a : Double.double) :
  Double.is_finite a = true -> Double.sub a a = Double.zero.
Proof.
  destruct a as [s | s | | s m e]; try discriminate; intros _.
  - now destruct s.
  - unfold Double.sub, SFsub. cbv zeta. now rewrite Z.sub_diag.
Qed.

Lemma mul_nan_l (b : Double.double) : Double.mul Double.NaN b = Double.NaN.
Proof. reflexivity. Qed.

Lemma sub_nan_r (a : Double.double) : Double.sub a Double.NaN = Double.NaN.
Proof. now destruct a. Qed.

(** A computed distance of zero passes the test against a positive radius
    and divides both offsets by zero. *)
Lemma zero_distance_not_finite
  (rad mx my : Double.double) (q : Double.NeuralCanvas.particle) :
  Double.is_zero (Double.NeuralCanvas.pointerDistance mx my q) = true ->
  Double.lt (Double.NeuralCanvas.pointerDistance mx my q) rad = true ->
  Double.is_finite
    (Double.NeuralCanvas.x (Double.NeuralCanvas.repel rad mx my q)) = false /\
  Double.is_finite
    (Double.NeuralCanvas.y (Double.NeuralCanvas.repel rad mx my q)) = false.
Proof.
  intros Hz Hlt.
  unfold Double.NeuralCanvas.repel, Double.NeuralCanvas.displacement.
  unfold Double.NeuralCanvas.pointerDistance in Hz, Hlt.
  cbv zeta in *. rewrite Hlt.
  cbn [Double.NeuralCanvas.x Double.NeuralCanvas.y].
  split; apply sub_not_finite_r, mul_not_finite_l, mul_not_finite_l,
    div_by_zero_not_finite; exact Hz.
Qed.

(** The pointer exactly at a particle: both offsets are 0 and both
    directions 0/0. *)
Lemma coincident_pointer_gives_nan
  (rad : Double.double) (q : Double.NeuralCanvas.particle) :
  Double.is_finite (Double.NeuralCanvas.x q) = true ->
  Double.is_finite (Double.NeuralCanvas.y q) = true ->
  Double.lt Double.zero rad = true ->
  Double.NeuralCanvas.pointerDistance
    (Double.NeuralCanvas.x q) (Double.NeuralCanvas.y q) q = Double.zero /\
  Double.NeuralCanvas.x
    (Double.NeuralCanvas.repel rad (Double.NeuralCanvas.x q)
                               (Double.NeuralCanvas.y q) q) = Double.NaN /\
  Double.NeuralCanvas.y
    (Double.NeuralCanvas.repel rad (Double.NeuralCanvas.x q)
                               (Double.NeuralCanvas.y q) q) = Double.NaN.
Proof.
  intros Fx Fy Hlt.
  unfold Double.NeuralCanvas.repel, Double.NeuralCanvas.displacement,
    Double.NeuralCanvas.pointerDistance.
  cbv zeta. rewrite (sub_self _ Fx), (sub_self _ Fy).
  change (Double.sqrt (Double.add (Double.mul Double.zero Double.zero)
                                  (Double.mul Double.zero Double.zero)))
    with Double.zero.
  rewrite Hlt. cbn [Double.NeuralCanvas.x Double.NeuralCanvas.y].
  change (Double.div Double.zero Double.zero) with Double.NaN.
  rewrite !mul_nan_l, !sub_nan_r. repeat split.
Qed.

End DoubleFacts.

(** ** The mouse interaction of NeuralCanvas.draw *)

Section PointerInteraction.
Import JS NeuralCanvas.

Variables (rad mx my : R).
Variable p : particle.
Variables (px py : R).
Hypothesis Hx : x p = Fin px.
Hypothesis Hy : y p = Fin py.

Let d : R := R_sqrt.sqrt ((mx - px) * (mx - px) + (my - py) * (my - py)).

Lemma pointerDistance_real : pointerDistance (Fin mx) (Fin my) p = Fin d.
Proof.
  unfold pointerDistance. rewrite Hx, Hy, !sub_Fin. apply sqrt_sum_squares.
Qed.

Lemma displacement_far :
  rad <= d -> displacement (Fin rad) (Fin mx) (Fin my) p = None.
Proof.
  intros Hd. unfold displacement. rewrite Hx, Hy, !sub_Fin, sqrt_sum_squares.
  fold d. apply lt_Fin_false in Hd. now rewrite Hd.
Qed.

Lemma displacement_near :
  0 < d -> d < rad ->
  displacement (Fin rad) (Fin mx) (Fin my) p
  = Some (Fin ((mx - px) / d * ((rad - d) / rad) * 2),
          Fin ((my - py) / d * ((rad - d) / rad) * 2)).
Proof.
  intros Hpos Hd. unfold displacement.
  rewrite Hx, Hy, !sub_Fin, sqrt_sum_squares. fold d.
  rewrite (proj2 (lt_Fin_true _ _) Hd).
  rewrite sub_Fin, !div_Fin by lra. reflexivity.
Qed.

Lemma displacement_at :
  px = mx -> py = my -> 0 < rad ->
  displacement (Fin rad) (Fin mx) (Fin my) p = Some (NaN, NaN).
Proof.
  intros -> -> Hrad. unfold displacement.
  rewrite Hx, Hy, !sub_Fin, sqrt_sum_squares.
  replace (mx - mx) with 0 by ring. replace (my - my) with 0 by ring.
  replace (0 * 0 + 0 * 0) with 0 by ring. rewrite sqrt_0.
  rewrite (proj2 (lt_Fin_true _ _) Hrad).
  rewrite div_zero_zero. reflexivity.
Qed.

Lemma magnitude_near :
  0 < d -> d < rad ->
  magnitude (displacement (Fin rad) (Fin mx) (Fin my) p)
  = Fin (2 * (rad - d) / rad).
Proof.
  intros Hpos Hd. rewrite displacement_near by assumption.
  unfold magnitude. rewrite sqrt_sum_squares. f_equal.
  assert (Hsq : d * d = (mx - px) * (mx - px) + (my - py) * (my - py)).
  { unfold d. apply sqrt_sqrt.
    apply Rplus_le_le_0_compat; apply Rle_0_sqr. }
  set (u := mx - px) in *. set (v := my - py) in *.
  replace (u / d * ((rad - d) / rad) * 2 * (u / d * ((rad - d) / rad) * 2) +
           v / d * ((rad - d) / rad) * 2 * (v / d * ((rad - d) / rad) * 2))
    with ((2 * (rad - d) / rad) * (2 * (rad - d) / rad)).
  - apply sqrt_square. apply Rle_mult_inv_pos; lra.
  - transitivity ((2 * (rad - d) / rad) * (2 * (rad - d) / rad)
                  * ((u * u + v * v) / (d * d))).
    + rewrite <- Hsq. field. lra.
    + field. lra.
Qed.

End PointerInteraction.

Section PointerClaims.
Import JS NeuralCanvas.

Lemma pointerDistance_Fin_inv (mx my : number) (p : particle) (d : R) :
  pointerDistance mx my p = Fin d ->
  exists rx ry px py,
    mx = Fin rx /\ my = Fin ry /\ x p = Fin px /\ y p = Fin py /\
    d = R_sqrt.sqrt ((rx - px) * (rx - px) + (ry - py) * (ry - py)).
Proof.
  unfold pointerDistance. intros H.
  destruct mx as [rx | | |], (x p) as [px | | |];
    destruct my as [ry | | |], (y p) as [py | | |];
    simpl in H; try discriminate;
    repeat match type of H with
           | context [Rlt_dec ?a ?b] => destruct (Rlt_dec a b)
           end; try discriminate.
  exists rx, ry, px, py. repeat split; try reflexivity.
  change (rx + - px) with (rx - px) in H.
  change (ry + - py) with (ry - py) in H. now inversion H.
Qed.

Lemma sqrt_of_square (a b : R) : 0 <= a -> b = a * a -> R_sqrt.sqrt b = a.
Proof. intros Ha ->. now apply sqrt_square. Qed.

(** In exact arithmetic: a positive distance leaves real coordinates, the
    pointer at the particle gives 0/0 on both axes. *)
Lemma repel_real (rad mx my : R) (q : particle) :
  is_finite (x q) -> is_finite (y q) -> 0 < rad ->
  (forall dist,
      pointerDistance (Fin mx) (Fin my) q = Fin dist -> 0 < dist ->
      is_finite (x (repel (Fin rad) (Fin mx) (Fin my) q)) /\
      is_finite (y (repel (Fin rad) (Fin mx) (Fin my) q)))
  /\ (pointerAt (Fin mx) (Fin my) q ->
      x (repel (Fin rad) (Fin mx) (Fin my) q) = NaN /\
      y (repel (Fin rad) (Fin mx) (Fin my) q) = NaN).
Proof.
  intros Fx Fy Hrad.
  destruct (is_finite_inv _ Fx) as [qx Hqx], (is_finite_inv _ Fy) as [qy Hqy].
  split.
  - intros dist Hd Hpos.
    rewrite (pointerDistance_real mx my q _ _ Hqx Hqy) in Hd.
    injection Hd as Hd. unfold repel.
    destruct (Rlt_dec dist rad) as [Hlt | Hge].
    + rewrite (displacement_near rad mx my q _ _ Hqx Hqy) by (rewrite Hd; lra).
      cbn [x y]. rewrite Hqx, Hqy. simpl. auto.
    + rewrite (displacement_far rad mx my q _ _ Hqx Hqy) by (rewrite Hd; lra).
      rewrite Hqx, Hqy. simpl. auto.
  - intros [Hpx Hpy]. rewrite Hqx in Hpx. rewrite Hqy in Hpy.
    injection Hpx as Hpx. injection Hpy as Hpy.
    unfold repel.
    rewrite (displacement_at rad mx my q _ _ Hqx Hqy) by lra.
    cbn [x y]. rewrite Hqx, Hqy. simpl. auto.
Qed.

(** C9 (as stated, refuted): a particle at (1e-200, 0), at rest, with the
    pointer at (0, 0) and radius 150 on a 1000 by 800 canvas.  The particle
    is not at the pointer, but the square of its offset underflows:
    [Math.sqrt(dx*dx + dy*dy)] is 0, the test [distance < mouseRadius]
    passes, [dx / distance] is -Infinity and [dy / distance] is NaN.  After
    the update the particle is at (Infinity, NaN). *)
Lemma tiny_offset_becomes_infinite :
  let p := {| Double.NeuralCanvas.x := Double.dyadic 6894565328877484 (-717);
              Double.NeuralCanvas.y := Double.zero;
              Double.NeuralCanvas.vx := Double.zero;
              Double.NeuralCanvas.vy := Double.zero |} in
  let p' := Double.NeuralCanvas.updateParticle
              (Double.ofZ 1000) (Double.ofZ 800) (Double.ofZ 150)
              Double.zero Double.zero p in
  Double.lt Double.zero (Double.NeuralCanvas.x p) = true /\
  Double.lt (Double.NeuralCanvas.x p) (Double.dyadic 1 (-600)) = true /\
  Double.NeuralCanvas.pointerDistance Double.zero Double.zero
    (Double.NeuralCanvas.bounce (Double.ofZ 1000) (Double.ofZ 800)
       (Double.NeuralCanvas.move p)) = Double.zero /\
  Double.NeuralCanvas.x p' = Double.PInf /\
  Double.NeuralCanvas.y p' = Double.NaN.
Proof. vm_compute. repeat split. Qed.

(** C9 (amended), for the particle [q] as it is when the mouse interaction
    starts (after the move and the boundary check).  In exact arithmetic,
    for coordinates and a radius of size at most 2^500: a distance of at
    least 2^-500 leaves the particle with real coordinates.  In binary64,
    for any doubles: whenever the computed distance is 0 and below the
    radius, neither coordinate is a finite number after the interaction;
    the pointer exactly at a particle with finite coordinates is one such
    case, and there both coordinates are NaN. *)
Theorem mouse_interaction_by_computed_distance
  (rad mx my : R) (q : particle) :
  in_range (x q) -> in_range (y q) ->
  Rabs mx <= huge -> Rabs my <= huge -> 0 < rad <= huge ->
  (forall dist,
      pointerDistance (Fin mx) (Fin my) q = Fin dist -> tiny <= dist ->
      is_finite (x (repel (Fin rad) (Fin mx) (Fin my) q)) /\
      is_finite (y (repel (Fin rad) (Fin mx) (Fin my) q))) /\
  (forall (R MX MY : Double.double) (Q : Double.NeuralCanvas.particle),
      Double.is_zero (Double.NeuralCanvas.pointerDistance MX MY Q) = true ->
      Double.lt (Double.NeuralCanvas.pointerDistance MX MY Q) R = true ->
      Double.is_finite
        (Double.NeuralCanvas.x (Double.NeuralCanvas.repel R MX MY Q))
      = false /\
      Double.is_finite
        (Double.NeuralCanvas.y (Double.NeuralCanvas.repel R MX MY Q))
      = false) /\
  (forall (R : Double.double) (Q : Double.NeuralCanvas.particle),
      Double.is_finite (Double.NeuralCanvas.x Q) = true ->
      Double.is_finite (Double.NeuralCanvas.y Q) = true ->
      Double.lt Double.zero R = true ->
      Double.NeuralCanvas.pointerDistance
        (Double.NeuralCanvas.x Q) (Double.NeuralCanvas.y Q) Q = Double.zero /\
      Double.NeuralCanvas.x
        (Double.NeuralCanvas.repel R (Double.NeuralCanvas.x Q)
                                   (Double.NeuralCanvas.y Q) Q)
      = Double.NaN /\
      Double.NeuralCanvas.y
        (Double.NeuralCanvas.repel R (Double.NeuralCanvas.x Q)
                                   (Double.NeuralCanvas.y Q) Q)
      = Double.NaN).
Proof.
  intros Bx By _ _ [Hrad _].
  split; [| split].
  - intros dist Hd Hdist.
    apply (proj1 (repel_real rad mx my q (in_range_finite _ Bx)
                    (in_range_finite _ By) Hrad) dist Hd).
    pose proof tiny_pos. lra.
  - intros R MX MY Q. apply zero_distance_not_finite.
  - intros R Q. apply coincident_pointer_gives_nan.
Qed.

Lemma mouse_interaction_by_computed_distance_witness :
  pointerDistance (Fin 0) (Fin 0) (particleAt 3 4 0 0) = Fin 5 /\
  is_finite (x (repel (Fin 150) (Fin 0) (Fin 0) (particleAt 3 4 0 0))) /\
  is_finite (y (repel (Fin 150) (Fin 0) (Fin 0) (particleAt 3 4 0 0))).
Proof.
  assert (Hx : in_range (x (particleAt 3 4 0 0)))
    by (apply in_range_small; lra).
  assert (Hy : in_range (y (particleAt 3 4 0 0)))
    by (apply in_range_small; lra).
  assert (Hm : Rabs 0 <= huge)
    by (apply Rabs_le; pose proof huge_large; lra).
  assert (Hr : 0 < 150 <= huge) by (pose proof huge_large; lra).
  assert (Hd : pointerDistance (Fin 0) (Fin 0) (particleAt 3 4 0 0) = Fin 5).
  { rewrite (pointerDistance_real 0 0 (particleAt 3 4 0 0) 3 4 eq_refl eq_refl).
    f_equal. apply sqrt_of_square; lra. }
  assert (Ht : tiny <= 5) by (pose proof tiny_small; lra).
  split; [exact Hd |].
  exact (proj1 (mouse_interaction_by_computed_distance 150 0 0
                  (particleAt 3 4 0 0) Hx Hy Hm Hm Hr) 5 Hd Ht).
Defined.

End PointerClaims.

Section DisplacementMagnitude.
Import JS NeuralCanvas.

Lemma magnitude_far (rad : R) (mx my : number) (p : particle) (d : R) :
  pointerDistance mx my p = Fin d -> rad <= d ->
  magnitude (displacement (Fin rad) mx my p) = Fin 0.
Proof.
  intros Hd Hge.
  destruct (pointerDistance_Fin_inv _ _ _ _ Hd)
    as (rx & ry & px & py & -> & -> & Hx & Hy & ->).
  now rewrite (displacement_far rad rx ry p px py Hx Hy Hge).
Qed.

Lemma magnitude_close (rad : R) (mx my : number) (p : particle) (d : R) :
  pointerDistance mx my p = Fin d -> 0 < d -> d < rad ->
  magnitude (displacement (Fin rad) mx my p) = Fin (2 * (rad - d) / rad).
Proof.
  intros Hd Hpos Hlt.
  destruct (pointerDistance_Fin_inv _ _ _ _ Hd)
    as (rx & ry & px & py & -> & -> & Hx & Hy & ->).
  now rewrite (magnitude_near rad rx ry p px py Hx Hy Hpos Hlt).
Qed.

(** C3 (as stated, refuted): with the pointer at the origin and radius 150,
    a particle at distance 75 is displaced by 1 and a particle at distance
    120 by 2/5: on the way from 120 down to 75 the magnitude grows. *)
Lemma displacement_magnitude_grows_when_closer :
  pointerDistance (Fin 0) (Fin 0) (particleAt 75 0 0 0) = Fin 75 /\
  pointerDistance (Fin 0) (Fin 0) (particleAt 120 0 0 0) = Fin 120 /\
  magnitude (displacement (Fin 150) (Fin 0) (Fin 0) (particleAt 75 0 0 0))
  = Fin 1 /\
  magnitude (displacement (Fin 150) (Fin 0) (Fin 0) (particleAt 120 0 0 0))
  = Fin (2 / 5) /\
  ~ (1 < 2 / 5).
Proof.
  assert (H75 : pointerDistance (Fin 0) (Fin 0) (particleAt 75 0 0 0) = Fin 75).
  { rewrite (pointerDistance_real 0 0 (particleAt 75 0 0 0) 75 0 eq_refl eq_refl).
    f_equal. apply sqrt_of_square; lra. }
  assert (H120 : pointerDistance (Fin 0) (Fin 0) (particleAt 120 0 0 0)
                 = Fin 120).
  { rewrite (pointerDistance_real 0 0 (particleAt 120 0 0 0) 120 0 eq_refl eq_refl).
    f_equal. apply sqrt_of_square; lra. }
  repeat split; try assumption.
  - rewrite (magnitude_close 150 _ _ _ 75 H75) by lra. f_equal. lra.
  - rewrite (magnitude_close 150 _ _ _ 120 H120) by lra. f_equal. lra.
  - lra.
Qed.

(** C3 (amended), in exact arithmetic and for a radius between 2^-500 and
    2^500: the displacement magnitude is 0 when the pointer distance is at
    least the radius, and below the radius it is 2 * (radius - d) / radius
    for a distance d of at least 2^-500: strictly larger for the closer of
    two particles, between 0 and 2.  (Below 2^-500 the squares of the
    offsets underflow in binary64, see C9.) *)
Theorem displacement_magnitude_by_distance
  (rad : R) (mx my : number) (p1 p2 : particle) (d1 d2 : R) :
  tiny <= rad <= huge ->
  pointerDistance mx my p1 = Fin d1 ->
  pointerDistance mx my p2 = Fin d2 ->
  (rad <= d1 -> magnitude (displacement (Fin rad) mx my p1) = Fin 0) /\
  (tiny <= d1 -> d1 < d2 -> d2 < rad ->
   exists m1 m2,
     magnitude (displacement (Fin rad) mx my p1) = Fin m1 /\
     magnitude (displacement (Fin rad) mx my p2) = Fin m2 /\
     m1 = 2 * (rad - d1) / rad /\ m2 = 2 * (rad - d2) / rad /\
     0 < m2 /\ m2 < m1 /\ m1 < 2).
Proof.
  intros _ H1 H2. split.
  - intros Hge. exact (magnitude_far rad mx my p1 d1 H1 Hge).
  - intros Htiny H12 Hrad.
    assert (Hpos : 0 < d1) by (pose proof tiny_pos; lra).
    exists (2 * (rad - d1) / rad), (2 * (rad - d2) / rad).
    rewrite (magnitude_close rad mx my p1 d1 H1) by lra.
    rewrite (magnitude_close rad mx my p2 d2 H2) by lra.
    assert (Hr : 0 < rad) by lra.
    assert (Hi : 0 < / rad) by (now apply Rinv_0_lt_compat).
    repeat split; unfold Rdiv.
    + apply Rmult_lt_0_compat; lra.
    + apply Rmult_lt_compat_r; lra.
    + apply (Rmult_lt_reg_r rad); [lra |].
      rewrite Rmult_assoc, Rinv_l by lra. lra.
Qed.

Lemma displacement_magnitude_by_distance_witness :
  pointerDistance (Fin 0) (Fin 0) (particleAt 75 0 0 0) = Fin 75 /\
  pointerDistance (Fin 0) (Fin 0) (particleAt 120 0 0 0) = Fin 120 /\
  exists m1 m2,
    magnitude (displacement (Fin 150) (Fin 0) (Fin 0) (particleAt 75 0 0 0))
    = Fin m1 /\
    magnitude (displacement (Fin 150) (Fin 0) (Fin 0) (particleAt 120 0 0 0))
    = Fin m2 /\
    m1 = 2 * (150 - 75) / 150 /\ m2 = 2 * (150 - 120) / 150 /\
    0 < m2 /\ m2 < m1 /\ m1 < 2.
Proof.
  assert (H75 : pointerDistance (Fin 0) (Fin 0) (particleAt 75 0 0 0) = Fin 75).
  { rewrite (pointerDistance_real 0 0 (particleAt 75 0 0 0) 75 0 eq_refl eq_refl).
    f_equal. apply sqrt_of_square; lra. }
  assert (H120 : pointerDistance (Fin 0) (Fin 0) (particleAt 120 0 0 0)
                 = Fin 120).
  { rewrite (pointerDistance_real 0 0 (particleAt 120 0 0 0) 120 0 eq_refl eq_refl).
    f_equal. apply sqrt_of_square; lra. }
  assert (Hr : tiny <= 150 <= huge)
    by (pose proof tiny_small; pose proof huge_large; lra).
  split; [exact H75 |]. split; [exact H120 |].
  apply (proj2 (displacement_magnitude_by_distance 150 (Fin 0) (Fin 0)
                  (particleAt 75 0 0 0) (particleAt 120 0 0 0) 75 120
                  Hr H75 H120)); try lra.
  pose proof tiny_small. lra.
Defined.

End DisplacementMagnitude.

(** ** The boundary check of NeuralCanvas.draw *)

Section Bounce.
Import JS NeuralCanvas.

Lemma displacement_bounce (w h rad mx my : number) (q : particle) :
  displacement rad mx my (bounce w h q) = displacement rad mx my q.
Proof. reflexivity. Qed.

Lemma updateParticle_free (w h rad mx my : number) (p : particle) :
  displacement rad mx my (move p) = None ->
  updateParticle w h rad mx my p = bounce w h (move p).
Proof.
  intros H. unfold updateParticle, repel.
  now rewrite displacement_bounce, H.
Qed.

Lemma flips_x_real (W : R) (q : particle) (qx : R) :
  x q = Fin qx ->
  (flips_x (Fin W) q = true <-> qx < 0 \/ W < qx).
Proof.
  intros E. unfold flips_x, gt. rewrite E, orb_true_iff, !lt_Fin_true. tauto.
Qed.

Lemma flips_y_real (H : R) (q : particle) (qy : R) :
  y q = Fin qy ->
  (flips_y (Fin H) q = true <-> qy < 0 \/ H < qy).
Proof.
  intros E. unfold flips_y, gt. rewrite E, orb_true_iff, !lt_Fin_true. tauto.
Qed.

Lemma flips_x_within (W : R) (q : particle) (qx : R) :
  x q = Fin qx ->
  (flips_x (Fin W) q = false <-> within (Fin 0) (Fin W) (x q)).
Proof.
  intros E. rewrite E. simpl.
  destruct (flips_x (Fin W) q) eqn:F.
  - apply (flips_x_real W q qx E) in F. split; [discriminate | lra].
  - split; [intros _ | reflexivity].
    destruct (Rle_lt_dec 0 qx), (Rle_lt_dec qx W); try lra;
      assert (flips_x (Fin W) q = true)
        by (apply (flips_x_real W q qx E); lra); congruence.
Qed.

Lemma flips_y_within (H : R) (q : particle) (qy : R) :
  y q = Fin qy ->
  (flips_y (Fin H) q = false <-> within (Fin 0) (Fin H) (y q)).
Proof.
  intros E. rewrite E. simpl.
  destruct (flips_y (Fin H) q) eqn:F.
  - apply (flips_y_real H q qy E) in F. split; [discriminate | lra].
  - split; [intros _ | reflexivity].
    destruct (Rle_lt_dec 0 qy), (Rle_lt_dec qy H); try lra;
      assert (flips_y (Fin H) q = true)
        by (apply (flips_y_real H q qy E); lra); congruence.
Qed.

End Bounce.

Section FreeFlight.
Import JS NeuralCanvas.

Variable W H : R.

Lemma returning_x_near (c : R) (p : particle) :
  returning_x W c p -> within (Fin (- c)) (Fin (W + c)) (x p).
Proof.
  intros (px & u & Ex & _ & Hc & Hin). rewrite Ex. simpl.
  revert Hc. unfold Rabs. destruct (Rcase_abs u); intros; lra.
Qed.

Lemma returning_y_near (c : R) (p : particle) :
  returning_y H c p -> within (Fin (- c)) (Fin (H + c)) (y p).
Proof.
  intros (py & v & Ey & _ & Hc & Hin). rewrite Ey. simpl.
  revert Hc. unfold Rabs. destruct (Rcase_abs v); intros; lra.
Qed.

Lemma bounce_move_x (p : particle) (px u : R) :
  x p = Fin px -> vx p = Fin u ->
  x (bounce (Fin W) (Fin H) (move p)) = Fin (px + u) /\
  ((flips_x (Fin W) (move p) = true /\ (px + u < 0 \/ W < px + u) /\
    vx (bounce (Fin W) (Fin H) (move p)) = Fin (- u))
   \/ (flips_x (Fin W) (move p) = false /\ 0 <= px + u <= W /\
       vx (bounce (Fin W) (Fin H) (move p)) = Fin u)).
Proof.
  intros Ex Eu.
  assert (Eq : x (move p) = Fin (px + u)) by (simpl; now rewrite Ex, Eu).
  split; [exact Eq |].
  cbn [bounce vx move]. destruct (flips_x (Fin W) (move p)) eqn:F.
  - left. split; [reflexivity |]. split.
    + now apply (flips_x_real W (move p) _ Eq).
    + rewrite Eu. simpl. f_equal. ring.
  - right. split; [reflexivity |]. split.
    + apply (flips_x_within W (move p) _ Eq) in F. rewrite Eq in F. exact F.
    + exact Eu.
Qed.

Lemma bounce_move_y (p : particle) (py v : R) :
  y p = Fin py -> vy p = Fin v ->
  y (bounce (Fin W) (Fin H) (move p)) = Fin (py + v) /\
  ((flips_y (Fin H) (move p) = true /\ (py + v < 0 \/ H < py + v) /\
    vy (bounce (Fin W) (Fin H) (move p)) = Fin (- v))
   \/ (flips_y (Fin H) (move p) = false /\ 0 <= py + v <= H /\
       vy (bounce (Fin W) (Fin H) (move p)) = Fin v)).
Proof.
  intros Ey Ev.
  assert (Eq : y (move p) = Fin (py + v)) by (simpl; now rewrite Ey, Ev).
  split; [exact Eq |].
  cbn [bounce vy move]. destruct (flips_y (Fin H) (move p)) eqn:F.
  - left. split; [reflexivity |]. split.
    + now apply (flips_y_real H (move p) _ Eq).
    + rewrite Ev. simpl. f_equal. ring.
  - right. split; [reflexivity |]. split.
    + apply (flips_y_within H (move p) _ Eq) in F. rewrite Eq in F. exact F.
    + exact Ev.
Qed.

Lemma returning_x_step (c : R) (p : particle) :
  returning_x W c p -> returning_x W c (bounce (Fin W) (Fin H) (move p)).
Proof.
  intros (px & u & Ex & Eu & Hc & Hin).
  destruct (bounce_move_x p px u Ex Eu) as [Eq [(_ & Hout & Ev) | (_ & Hins & Ev)]].
  - exists (px + u), (- u). repeat split; try assumption.
    + now rewrite Rabs_Ropp.
    + right. split; [exact Hout |]. lra.
  - exists (px + u), u. repeat split; try assumption. now left.
Qed.

Lemma returning_y_step (c : R) (p : particle) :
  returning_y H c p -> returning_y H c (bounce (Fin W) (Fin H) (move p)).
Proof.
  intros (py & v & Ey & Ev & Hc & Hin).
  destruct (bounce_move_y p py v Ey Ev) as [Eq [(_ & Hout & E) | (_ & Hins & E)]].
  - exists (py + v), (- v). repeat split; try assumption.
    + now rewrite Rabs_Ropp.
    + right. split; [exact Hout |]. lra.
  - exists (py + v), v. repeat split; try assumption. now left.
Qed.

Lemma free_run_near (rad : number) (cx cy : R)
      (pointers : list (number * number)) :
  forall p,
    returning_x W cx p -> returning_y H cy p ->
    freeRun (Fin W) (Fin H) rad p pointers ->
    Forall (fun q => within (Fin (- cx)) (Fin (W + cx)) (x q) /\
                     within (Fin (- cy)) (Fin (H + cy)) (y q))
           (run (Fin W) (Fin H) rad p pointers).
Proof.
  induction pointers as [| [mx my] rest IH]; intros p Jx Jy Hfree; simpl.
  - constructor.
  - destruct Hfree as [Hnone Hrest].
    rewrite (updateParticle_free _ _ _ _ _ _ Hnone) in *.
    pose proof (returning_x_step cx p Jx) as Jx'.
    pose proof (returning_y_step cy p Jy) as Jy'.
    constructor.
    + split; [now apply returning_x_near | now apply returning_y_near].
    + now apply IH.
Qed.

End FreeFlight.

Section FlipsAndExits.
Import JS NeuralCanvas.

Variable W H : R.





End FlipsAndExits.

(** ** Concrete frames *)

Section ConcreteFrames.
Import JS NeuralCanvas.

Lemma particleAt_ext (a b c d a' b' c' d' : R) :
  a = a' -> b = b' -> c = c' -> d = d' ->
  {| oid := 0; x := Fin a; y := Fin b; vx := Fin c; vy := Fin d;
     size := Fin 1; color := cyan |} = particleAt a' b' c' d'.
Proof. now intros -> -> -> ->. Qed.

Lemma displacement_far_x (rad mx my px py : R) (q : particle) :
  x q = Fin px -> y q = Fin py -> rad <= Rabs (mx - px) ->
  displacement (Fin rad) (Fin mx) (Fin my) q = None.
Proof.
  intros Ex Ey Hfar. apply (displacement_far rad mx my q px py Ex Ey).
  eapply Rle_trans; [exact Hfar | apply sqrt_sum_squares_ge_l].
Qed.

Lemma displacement_far_y (rad mx my px py : R) (q : particle) :
  x q = Fin px -> y q = Fin py -> rad <= Rabs (my - py) ->
  displacement (Fin rad) (Fin mx) (Fin my) q = None.
Proof.
  intros Ex Ey Hfar. apply (displacement_far rad mx my q px py Ex Ey).
  eapply Rle_trans; [exact Hfar | apply sqrt_sum_squares_ge_r].
Qed.

(** Evaluation of the comparisons of a frame on given reals. *)
Ltac decide_tests :=
  repeat match goal with
         | |- context [lt (Fin ?a) (Fin ?b)] =>
             first [ rewrite (proj2 (lt_Fin_true a b)) by lra
                   | rewrite (proj2 (lt_Fin_false a b)) by lra ]
         end.

(** The boundary check on given reals: [fx] and [fy] say which of the two
    tests fire. *)
Lemma bounce_move_at (W H px py u v : R) :
  bounce (Fin W) (Fin H) (move (particleAt px py u v))
  = particleAt (px + u) (py + v)
      (if flips_x (Fin W) (particleAt (px + u) (py + v) u v) then - u else u)
      (if flips_y (Fin H) (particleAt (px + u) (py + v) u v) then - v else v).
Proof.
  unfold bounce, move, particleAt, flips_x, flips_y. cbn [x y vx vy oid size color].
  simpl add.
  destruct (lt (Fin (px + u)) (Fin 0) || gt (Fin (px + u)) (Fin W));
    destruct (lt (Fin (py + v)) (Fin 0) || gt (Fin (py + v)) (Fin H));
    simpl mul; apply particleAt_ext; ring.
Qed.

Lemma flips_x_at (W px py u v : R) :
  flips_x (Fin W) (particleAt px py u v)
  = (if Rlt_dec px 0 then true else false)
    || (if Rlt_dec W px then true else false).
Proof. reflexivity. Qed.

Lemma flips_y_at (H px py u v : R) :
  flips_y (Fin H) (particleAt px py u v)
  = (if Rlt_dec py 0 then true else false)
    || (if Rlt_dec H py then true else false).
Proof. reflexivity. Qed.

(** A frame without displacement, on given reals. *)
Lemma frame_far (W H rad mx my px py u v : R) :
  rad <= Rabs (mx - (px + u)) \/ rad <= Rabs (my - (py + v)) ->
  updateParticle (Fin W) (Fin H) (Fin rad) (Fin mx) (Fin my)
                 (particleAt px py u v)
  = bounce (Fin W) (Fin H) (move (particleAt px py u v)).
Proof.
  intros Hfar. apply updateParticle_free.
  destruct Hfar as [Hfar | Hfar].
  - now apply (displacement_far_x rad mx my (px + u) (py + v)).
  - now apply (displacement_far_y rad mx my (px + u) (py + v)).
Qed.

(** A frame with the pointer on the particle's horizontal line, at a
    positive distance [d] to its right, within the radius: the particle is
    pushed left by [2 * (rad - d) / rad]. *)
Lemma frame_pushed_left (W H rad mx my px py u v d : R) :
  0 < d -> d < rad -> mx - (px + u) = d -> my = py + v ->
  updateParticle (Fin W) (Fin H) (Fin rad) (Fin mx) (Fin my)
                 (particleAt px py u v)
  = particleAt (px + u - 2 * (rad - d) / rad) (py + v)
      (if flips_x (Fin W) (particleAt (px + u) (py + v) u v) then - u else u)
      (if flips_y (Fin H) (particleAt (px + u) (py + v) u v) then - v else v).
Proof.
  intros Hpos Hlt Hd ->.
  unfold updateParticle. rewrite bounce_move_at.
  set (u' := if flips_x _ _ then - u else u).
  set (v' := if flips_y _ _ then - v else v).
  assert (Hsqrt : R_sqrt.sqrt ((mx - (px + u)) * (mx - (px + u))
                               + (py + v - (py + v)) * (py + v - (py + v))) = d).
  { apply sqrt_of_square; [lra |]. rewrite Hd. ring. }
  unfold repel.
  rewrite (displacement_near rad mx (py + v)
             (particleAt (px + u) (py + v) u' v') (px + u) (py + v)
             eq_refl eq_refl)
    by (rewrite Hsqrt; lra).
  rewrite Hsqrt. cbn [x y vx vy oid size color particleAt]. rewrite !sub_Fin.
  apply particleAt_ext; try reflexivity.
  - rewrite Hd. field. lra.
  - field. lra.
Qed.

Lemma flips_x_move_at (W px py u v : R) :
  flips_x (Fin W) (move (particleAt px py u v))
  = flips_x (Fin W) (particleAt (px + u) (py + v) u v).
Proof. reflexivity. Qed.

Lemma flips_y_move_at (H px py u v : R) :
  flips_y (Fin H) (move (particleAt px py u v))
  = flips_y (Fin H) (particleAt (px + u) (py + v) u v).
Proof. reflexivity. Qed.

Ltac decide_reals :=
  rewrite ?flips_x_move_at, ?flips_y_move_at, ?flips_x_at, ?flips_y_at;
  repeat (match goal with
          | |- context [Rlt_dec ?a ?b] =>
              first [ let Hlt := fresh in
                      assert (Hlt : a < b) by lra;
                      destruct (Rlt_dec a b) as [_ | Hn];
                      [clear Hlt | now elim Hn]
                    | let Hge := fresh in
                      assert (Hge : ~ a < b) by lra;
                      destruct (Rlt_dec a b) as [Hr | _];
                      [now elim Hge | clear Hge] ]
          end; cbn [orb andb negb]).

(** C1 (as stated, refuted): on a 2000 by 1000 canvas with the pointer at
    (1000, 500), a particle inside the bounds at (1/4, 500) with velocity
    (-1/2, 0) is at x = -1/4 after one frame, outside [0, 2000]. *)
Lemma particle_leaves_bounds :
  within (Fin 0) (Fin 2000) (x (particleAt (1/4) 500 (-1/2) 0)) /\
  within (Fin 0) (Fin 1000) (y (particleAt (1/4) 500 (-1/2) 0)) /\
  run (Fin 2000) (Fin 1000) (Fin 150) (particleAt (1/4) 500 (-1/2) 0)
      [(Fin 1000, Fin 500)]
  = [particleAt (-1/4) 500 (1/2) 0] /\
  ~ within (Fin 0) (Fin 2000) (x (particleAt (-1/4) 500 (1/2) 0)).
Proof.
  split; [simpl; lra |]. split; [simpl; lra |]. split; [| simpl; lra].
  cbn [run]. f_equal.
  rewrite frame_far by (left; unfold Rabs; destruct (Rcase_abs _); lra).
  rewrite bounce_move_at. decide_reals.
  apply particleAt_ext; lra.
Qed.


Lemma inside_returning_x (W : R) (p : particle) (px u : R) :
  x p = Fin px -> vx p = Fin u -> 0 <= px <= W -> returning_x W (Rabs u) p.
Proof. intros Ex Eu Hin. exists px, u. repeat split; try assumption. now left. Qed.

Lemma inside_returning_y (H : R) (p : particle) (py v : R) :
  y p = Fin py -> vy p = Fin v -> 0 <= py <= H -> returning_y H (Rabs v) p.
Proof. intros Ey Ev Hin. exists py, v. repeat split; try assumption. now left. Qed.

(** Two frames with the pointer at (1000, 500), far from a particle that
    starts at (1/4, 500): no displacement in either. *)
Lemma example_free_run :
  freeRun (Fin 2000) (Fin 1000) (Fin 150) (particleAt (1/4) 500 (-1/2) 0)
          [(Fin 1000, Fin 500); (Fin 1000, Fin 500)].
Proof.
  cbn [freeRun]. split.
  - apply (displacement_far_x 150 1000 500 (1/4 + -1/2) (500 + 0));
      try reflexivity.
    unfold Rabs; destruct (Rcase_abs _); lra.
  - rewrite frame_far by (left; unfold Rabs; destruct (Rcase_abs _); lra).
    rewrite bounce_move_at. split; [| exact I].
    apply (displacement_far_x 150 1000 500
             (1/4 + -1/2 + (if flips_x (Fin 2000)
                                 (particleAt (1/4 + -1/2) (500 + 0) (-1/2) 0)
                            then - (-1/2) else -1/2))
             (500 + 0 + (if flips_y (Fin 1000)
                              (particleAt (1/4 + -1/2) (500 + 0) (-1/2) 0)
                         then - 0 else 0)));
      try reflexivity.
    decide_reals. unfold Rabs; destruct (Rcase_abs _); lra.
Qed.

(** C1 (amended): over any number of frames in which the particle gets no
    pointer displacement, a particle that starts inside [0, W] x [0, H]
    stays within [-|vx|, W + |vx|] x [-|vy|, H + |vy|]: the position is not
    clamped and may be outside the canvas by at most one velocity step. *)
Theorem free_run_stays_near_bounds
  (W H : R) (rad : number) (p : particle)
  (pointers : list (number * number)) (px py u v : R) :
  x p = Fin px -> y p = Fin py -> vx p = Fin u -> vy p = Fin v ->
  0 <= px <= W -> 0 <= py <= H ->
  freeRun (Fin W) (Fin H) rad p pointers ->
  Forall (fun q => within (Fin (- Rabs u)) (Fin (W + Rabs u)) (x q) /\
                   within (Fin (- Rabs v)) (Fin (H + Rabs v)) (y q))
         (run (Fin W) (Fin H) rad p pointers).
Proof.
  intros Ex Ey Eu Ev Hx Hy Hfree.
  apply free_run_near; try assumption.
  - now apply (inside_returning_x W p px u).
  - now apply (inside_returning_y H p py v).
Qed.

Lemma free_run_stays_near_bounds_witness :
  freeRun (Fin 2000) (Fin 1000) (Fin 150) (particleAt (1/4) 500 (-1/2) 0)
          [(Fin 1000, Fin 500); (Fin 1000, Fin 500)] /\
  Forall (fun q => within (Fin (- Rabs (-1/2))) (Fin (2000 + Rabs (-1/2))) (x q)
                   /\ within (Fin (- Rabs 0)) (Fin (1000 + Rabs 0)) (y q))
         (run (Fin 2000) (Fin 1000) (Fin 150) (particleAt (1/4) 500 (-1/2) 0)
              [(Fin 1000, Fin 500); (Fin 1000, Fin 500)]).
Proof.
  split; [exact example_free_run |].
  apply (free_run_stays_near_bounds 2000 1000 (Fin 150)
           (particleAt (1/4) 500 (-1/2) 0) _ (1/4) 500 (-1/2) 0);
    try reflexivity; try lra; exact example_free_run.
Defined.



(** In that run the particle does cross: one flip, one crossing. *)
Lemma example_free_run_one_flip :
  flipsOnX (Fin 2000) (Fin 1000) (Fin 150) (particleAt (1/4) 500 (-1/2) 0)
           [(Fin 1000, Fin 500); (Fin 1000, Fin 500)] = 1%nat.
Proof.
  cbn [flipsOnX].
  rewrite frame_far by (left; unfold Rabs; destruct (Rcase_abs _); lra).
  rewrite bounce_move_at. decide_reals. reflexivity.
Qed.

(** ** The pointer at the inactive position *)

Lemma handleTouchEnd_sentinel (m : Background.pointer) :
  Background.mouse_x (Background.handleTouchEnd m) = Fin (-9999) /\
  Background.mouse_y (Background.handleTouchEnd m) = Fin (-9999) /\
  Background.isActive (Background.handleTouchEnd m) = false.
Proof. repeat split. Qed.

Lemma particles_draw (f : fields) (g : world) :
  particles (draw f g)
  = map (updateParticle (width f) (height f) (mouseRadius f)
                        (mouseX g) (mouseY g))
        (particles f).
Proof. reflexivity. Qed.




End ConcreteFrames.

(** ** The connection lines *)

Section NeuralCanvasLinks.
Import JS NeuralCanvas.

Lemma connectPair_spec (maxDist : number) (ps : list particle) (a b : nat)
      (l : link) :
  In l (connectPair maxDist ps a b) <->
  exists pa pb,
    nth_error ps a = Some pa /\ nth_error ps b = Some pb /\
    lt (distance pa pb) maxDist = true /\
    l = {| link_a := a; link_b := b;
           opacity := sub (Fin 1) (div (distance pa pb) maxDist) |}.
Proof.
  unfold connectPair.
  destruct (nth_error ps a) as [pa |] eqn:Ea, (nth_error ps b) as [pb |] eqn:Eb;
    try (split; [intros [] | intros (? & ? & ? & ? & _); discriminate]).
  destruct (lt (distance pa pb) maxDist) eqn:Hlt; simpl.
  - split.
    + intros [<- | []]. now exists pa, pb.
    + intros (pa' & pb' & [= <-] & [= <-] & _ & ->). now left.
  - split; [intros [] |].
    intros (pa' & pb' & [= <-] & [= <-] & Hlt' & _). congruence.
Qed.

(** The lines of connectParticles: the pairs of indices [a <= b] whose
    particles are less than [maxDist] apart; a particle is paired with
    itself. *)
Lemma links_spec (maxDist : number) (ps : list particle) (l : link) :
  In l (links maxDist ps) <->
  exists pa pb,
    (link_a l <= link_b l)%nat /\
    nth_error ps (link_a l) = Some pa /\ nth_error ps (link_b l) = Some pb /\
    lt (distance pa pb) maxDist = true /\
    opacity l = sub (Fin 1) (div (distance pa pb) maxDist).
Proof.
  unfold links. rewrite in_flat_map. split.
  - intros (a & Ha & Hl). apply in_flat_map in Hl. destruct Hl as (b & Hb & Hl).
    apply in_seq in Hb.
    apply connectPair_spec in Hl. destruct Hl as (pa & pb & Ea & Eb & Hlt & ->).
    exists pa, pb. cbn [link_a link_b opacity]. repeat split; try assumption. lia.
  - intros (pa & pb & Hab & Ea & Eb & Hlt & Hop).
    assert (Hla : (link_a l < List.length ps)%nat)
      by (apply nth_error_Some; congruence).
    assert (Hlb : (link_b l < List.length ps)%nat)
      by (apply nth_error_Some; congruence).
    exists (link_a l). split; [apply in_seq; lia |].
    apply in_flat_map. exists (link_b l). split; [apply in_seq; lia |].
    apply connectPair_spec. exists pa, pb. repeat split; try assumption.
    destruct l as [a b o]. cbn [link_a link_b opacity] in *. now rewrite Hop.
Qed.

Lemma distance_self (px py u v : R) :
  distance (particleAt px py u v) (particleAt px py u v) = Fin 0.
Proof.
  unfold distance. cbn [x y particleAt]. rewrite !sub_Fin, sqrt_sum_squares.
  f_equal. apply sqrt_of_square; [lra | ring].
Qed.

(** C2 (the code at the failing input): with a single particle the inner
    loop of connectParticles starts at [b = a] and strokes a line from the
    particle to itself. *)
Theorem connectParticles_links_a_particle_to_itself :
  links connectionRadius [particleAt 10 20 0 0]
  = [ {| link_a := 0; link_b := 0; opacity := Fin 1 |} ] /\
  connectParticles [particleAt 10 20 0 0]
  = [ Canvas.Segment (Fin 10) (Fin 20) (Fin 10) (Fin 20)
        (Canvas.Rgba 0 240 255 (Fin (1 * (1 / 5)))) (Fin 1) (Fin 1) ].
Proof.
  assert (E : links connectionRadius [particleAt 10 20 0 0]
              = [ {| link_a := 0; link_b := 0; opacity := Fin 1 |} ]).
  { unfold links, connectPair, connectionRadius. cbn [List.length seq flat_map
      Nat.sub nth_error app].
    rewrite distance_self.
    rewrite (proj2 (lt_Fin_true 0 150)) by lra.
    rewrite div_Fin, sub_Fin by lra.
    replace (1 - 0 / 150) with 1 by lra. reflexivity. }
  split; [exact E |].
  unfold connectParticles. rewrite E. reflexivity.
Qed.

End NeuralCanvasLinks.

Section BackgroundLinks.
Import JS Background.

Lemma bg_connectPair_spec (maxDist : number) (ps : list particle) (i j : nat)
      (l : link) :
  In l (connectPair maxDist ps i j) <->
  exists p1 p2,
    nth_error ps i = Some p1 /\ nth_error ps j = Some p2 /\
    lt (distance p1 p2) maxDist = true /\
    l = {| link_i := i; link_j := j;
           alpha := mul (Fin (15/100))
                        (sub (Fin 1) (div (distance p1 p2) maxDist)) |}.
Proof.
  unfold connectPair.
  destruct (nth_error ps i) as [p1 |] eqn:Ei, (nth_error ps j) as [p2 |] eqn:Ej;
    try (split; [intros [] | intros (? & ? & ? & ? & _); discriminate]).
  destruct (lt (distance p1 p2) maxDist) eqn:Hlt; simpl.
  - split.
    + intros [<- | []]. now exists p1, p2.
    + intros (p1' & p2' & [= <-] & [= <-] & _ & ->). now left.
  - split; [intros [] |].
    intros (p1' & p2' & [= <-] & [= <-] & Hlt' & _). congruence.
Qed.

(** The lines of BackgroundSystem.draw: exactly the pairs of distinct
    indices [i < j] whose particles are less than [maxDist] apart. *)
Lemma bg_links_spec (maxDist : number) (ps : list particle) (l : link) :
  In l (links maxDist ps) <->
  exists p1 p2,
    (link_i l < link_j l)%nat /\
    nth_error ps (link_i l) = Some p1 /\ nth_error ps (link_j l) = Some p2 /\
    lt (distance p1 p2) maxDist = true /\
    alpha l = mul (Fin (15/100)) (sub (Fin 1) (div (distance p1 p2) maxDist)).
Proof.
  unfold links. rewrite in_flat_map. split.
  - intros (i & Hi & Hl). unfold linksFrom in Hl.
    apply in_flat_map in Hl. destruct Hl as (j & Hj & Hl).
    apply in_seq in Hj.
    apply bg_connectPair_spec in Hl.
    destruct Hl as (p1 & p2 & E1 & E2 & Hlt & ->).
    exists p1, p2. cbn [link_i link_j alpha]. repeat split; try assumption. lia.
  - intros (p1 & p2 & Hij & E1 & E2 & Hlt & Hal).
    assert (Hli : (link_i l < List.length ps)%nat)
      by (apply nth_error_Some; congruence).
    assert (Hlj : (link_j l < List.length ps)%nat)
      by (apply nth_error_Some; congruence).
    exists (link_i l). split; [apply in_seq; lia |].
    unfold linksFrom. apply in_flat_map.
    exists (link_j l). split; [apply in_seq; lia |].
    apply bg_connectPair_spec. exists p1, p2. repeat split; try assumption.
    destruct l as [i j o]. cbn [link_i link_j alpha] in *. now rewrite Hal.
Qed.

(** In BackgroundSystem.draw a line joins the particles at [i] and [j]
    if and only if [i < j] and their distance is strictly below the
    threshold. *)
Lemma bg_line_iff_distinct_and_close
      (maxDist : number) (ps : list particle) (i j : nat) (p1 p2 : particle) :
  nth_error ps i = Some p1 -> nth_error ps j = Some p2 ->
  ((exists l, In l (links maxDist ps) /\ link_i l = i /\ link_j l = j) <->
   (i < j)%nat /\ lt (distance p1 p2) maxDist = true).
Proof.
  intros E1 E2. split.
  - intros (l & Hl & <- & <-). apply bg_links_spec in Hl.
    destruct Hl as (q1 & q2 & Hij & F1 & F2 & Hlt & _).
    rewrite E1 in F1. rewrite E2 in F2.
    injection F1 as <-. injection F2 as <-. now split.
  - intros [Hij Hlt].
    exists {| link_i := i; link_j := j;
              alpha := mul (Fin (15/100))
                           (sub (Fin 1) (div (distance p1 p2) maxDist)) |}.
    split; [| now split].
    apply bg_links_spec. exists p1, p2. now repeat split.
Qed.

(** A pair exactly at the threshold gets no line. *)
Lemma bg_no_line_at_threshold
      (D : R) (ps : list particle) (l : link) (p1 p2 : particle) :
  nth_error ps (link_i l) = Some p1 -> nth_error ps (link_j l) = Some p2 ->
  distance p1 p2 = Fin D -> ~ In l (links (Fin D) ps).
Proof.
  intros E1 E2 Hd Hl. apply bg_links_spec in Hl.
  destruct Hl as (q1 & q2 & _ & F1 & F2 & Hlt & _).
  rewrite E1 in F1. rewrite E2 in F2. injection F1 as <-. injection F2 as <-.
  rewrite Hd in Hlt. apply lt_Fin_true in Hlt. lra.
Qed.

End BackgroundLinks.

Section NeuralCanvasThreshold.
Import JS NeuralCanvas.

(** In connectParticles too a pair exactly at the threshold gets no
    line. *)
Lemma no_line_at_threshold
      (D : R) (ps : list particle) (l : link) (pa pb : particle) :
  nth_error ps (link_a l) = Some pa -> nth_error ps (link_b l) = Some pb ->
  distance pa pb = Fin D -> ~ In l (links (Fin D) ps).
Proof.
  intros E1 E2 Hd Hl. apply links_spec in Hl.
  destruct Hl as (q1 & q2 & _ & F1 & F2 & Hlt & _).
  rewrite E1 in F1. rewrite E2 in F2. injection F1 as <-. injection F2 as <-.
  rewrite Hd in Hlt. apply lt_Fin_true in Hlt. lra.
Qed.

(** In connectParticles a line joins the particles at [a] and [b] if and
    only if [a <= b] and their distance is strictly below the threshold. *)
Lemma line_iff_ordered_and_close
      (maxDist : number) (ps : list particle) (a b : nat) (pa pb : particle) :
  nth_error ps a = Some pa -> nth_error ps b = Some pb ->
  ((exists l, In l (links maxDist ps) /\ link_a l = a /\ link_b l = b) <->
   (a <= b)%nat /\ lt (distance pa pb) maxDist = true).
Proof.
  intros E1 E2. split.
  - intros (l & Hl & <- & <-). apply links_spec in Hl.
    destruct Hl as (q1 & q2 & Hab & F1 & F2 & Hlt & _).
    rewrite E1 in F1. rewrite E2 in F2.
    injection F1 as <-. injection F2 as <-. now split.
  - intros [Hab Hlt].
    exists {| link_a := a; link_b := b;
              opacity := sub (Fin 1) (div (distance pa pb) maxDist) |}.
    split; [| now split].
    apply links_spec. exists pa, pb. now repeat split.
Qed.

End NeuralCanvasThreshold.

(** ** Opacity of the connection lines *)

Section LineOpacity.
Import JS.

Lemma sqrt_lt_inv (a : number) (D : R) :
  lt (sqrt a) (Fin D) = true ->
  exists d, sqrt a = Fin d /\ 0 <= d < D.
Proof.
  destruct a as [r | | |]; simpl; try discriminate.
  destruct (Rlt_dec r 0); [discriminate |].
  intros Hlt. exists (R_sqrt.sqrt r). split; [reflexivity |].
  apply lt_Fin_true in Hlt. split; [apply sqrt_pos | exact Hlt].
Qed.

Lemma scaled_opacity (c d D : R) :
  0 < D ->
  mul (Fin c) (sub (Fin 1) (div (Fin d) (Fin D))) = Fin (c * (1 - d / D)).
Proof. intros HD. rewrite div_Fin by lra. reflexivity. Qed.

(** Two particles at the same place are linked, with [opacity] 1. *)
Lemma coincident_pair_linked :
  In {| NeuralCanvas.link_a := 0; NeuralCanvas.link_b := 1;
        NeuralCanvas.opacity := Fin 1 |}
     (NeuralCanvas.links NeuralCanvas.connectionRadius
        [NeuralCanvas.particleAt 10 20 0 0; NeuralCanvas.particleAt 10 20 0 0]).
Proof.
  apply links_spec.
  exists (NeuralCanvas.particleAt 10 20 0 0),
         (NeuralCanvas.particleAt 10 20 0 0).
  cbn [NeuralCanvas.link_a NeuralCanvas.link_b NeuralCanvas.opacity nth_error].
  rewrite distance_self. unfold NeuralCanvas.connectionRadius.
  rewrite (proj2 (lt_Fin_true 0 150)) by lra.
  rewrite div_Fin, sub_Fin by lra.
  repeat split; try reflexivity; [lia |]. f_equal. lra.
Qed.

(** C5 (as stated, refuted): two particles at the same place are at
    distance 0, and the line connectParticles strokes between them has
    opacity 1/5, not 1. *)
Lemma line_at_distance_zero_has_opacity_one_fifth :
  NeuralCanvas.distance (NeuralCanvas.particleAt 10 20 0 0)
                        (NeuralCanvas.particleAt 10 20 0 0) = Fin 0 /\
  In (Canvas.Segment (Fin 10) (Fin 20) (Fin 10) (Fin 20)
        (Canvas.Rgba 0 240 255 (Fin (1 / 5))) (Fin 1) (Fin 1))
     (NeuralCanvas.connectParticles
        [NeuralCanvas.particleAt 10 20 0 0; NeuralCanvas.particleAt 10 20 0 0])
  /\ Fin (1 / 5) <> Fin 1.
Proof.
  split; [apply distance_self |]. split.
  - unfold NeuralCanvas.connectParticles. apply in_flat_map.
    exists {| NeuralCanvas.link_a := 0; NeuralCanvas.link_b := 1;
              NeuralCanvas.opacity := Fin 1 |}.
    split; [exact coincident_pair_linked |].
    unfold NeuralCanvas.strokeLink, NeuralCanvas.strokeAlpha.
    cbn [NeuralCanvas.link_a NeuralCanvas.link_b NeuralCanvas.opacity
         nth_error NeuralCanvas.x NeuralCanvas.y NeuralCanvas.particleAt mul].
    left. replace (1 * (1 / 5)) with (1 / 5) by lra. reflexivity.
  - intros [= E]. lra.
Qed.

(** C5 (amended): every line is drawn with the opacity
    max * (1 - d / threshold) of its pair's distance d, where max is 1/5
    and the threshold 150 in NeuralCanvas.connectParticles (15/100 and 140
    in BackgroundSystem.draw): linear in d, equal to max at distance 0 and
    tending to 0 at the threshold; the factor 1 - d / threshold, the local
    [opacity] of connectParticles, is 1 at distance 0. *)
Theorem line_opacity_by_distance :
  (forall (ps : list NeuralCanvas.particle) (l : NeuralCanvas.link),
      In l (NeuralCanvas.links NeuralCanvas.connectionRadius ps) ->
      exists pa pb d,
        nth_error ps (NeuralCanvas.link_a l) = Some pa /\
        nth_error ps (NeuralCanvas.link_b l) = Some pb /\
        NeuralCanvas.distance pa pb = Fin d /\ 0 <= d < 150 /\
        NeuralCanvas.opacity l = Fin (1 - d / 150) /\
        NeuralCanvas.strokeAlpha l = Fin ((1 - d / 150) * (1 / 5)) /\
        0 < (1 - d / 150) * (1 / 5) <= 1 / 5 /\
        (d = 0 -> NeuralCanvas.opacity l = Fin 1 /\
                  NeuralCanvas.strokeAlpha l = Fin (1 / 5))) /\
  (forall (ps : list Background.particle) (l : Background.link),
      In l (Background.links Background.connectionDistance ps) ->
      exists p1 p2 d,
        nth_error ps (Background.link_i l) = Some p1 /\
        nth_error ps (Background.link_j l) = Some p2 /\
        Background.distance p1 p2 = Fin d /\ 0 <= d < 140 /\
        Background.alpha l = Fin (15 / 100 * (1 - d / 140)) /\
        0 < 15 / 100 * (1 - d / 140) <= 15 / 100 /\
        (d = 0 -> Background.alpha l = Fin (15 / 100))).
Proof.
  split.
  - intros ps l Hl. apply links_spec in Hl.
    destruct Hl as (pa & pb & _ & Ea & Eb & Hlt & Hop).
    unfold NeuralCanvas.connectionRadius in *.
    destruct (sqrt_lt_inv _ _ Hlt) as (d & Hd & Hrange).
    fold (NeuralCanvas.distance pa pb) in Hd.
    rewrite Hd, div_Fin, sub_Fin in Hop by lra.
    exists pa, pb, d. unfold NeuralCanvas.strokeAlpha. rewrite Hop.
    split; [exact Ea |]. split; [exact Eb |]. split; [exact Hd |].
    split; [exact Hrange |]. split; [reflexivity |]. split; [reflexivity |].
    split; [lra |].
    intros ->. replace (1 - 0 / 150) with 1 by lra. split; [reflexivity |].
    simpl. f_equal. lra.
  - intros ps l Hl. apply bg_links_spec in Hl.
    destruct Hl as (p1 & p2 & _ & E1 & E2 & Hlt & Hal).
    unfold Background.connectionDistance in *.
    destruct (sqrt_lt_inv _ _ Hlt) as (d & Hd & Hrange).
    fold (Background.distance p1 p2) in Hd.
    rewrite Hd, scaled_opacity in Hal by lra.
    exists p1, p2, d. rewrite Hal.
    split; [exact E1 |]. split; [exact E2 |]. split; [exact Hd |].
    split; [exact Hrange |]. split; [reflexivity |]. split; [lra |].
    intros ->. f_equal. lra.
Qed.

Lemma line_opacity_by_distance_witness :
  exists pa pb d,
    nth_error [NeuralCanvas.particleAt 10 20 0 0;
               NeuralCanvas.particleAt 10 20 0 0] 0 = Some pa /\
    nth_error [NeuralCanvas.particleAt 10 20 0 0;
               NeuralCanvas.particleAt 10 20 0 0] 1 = Some pb /\
    NeuralCanvas.distance pa pb = Fin d /\ 0 <= d < 150 /\
    Fin 1 = Fin (1 - d / 150) /\
    NeuralCanvas.strokeAlpha
      {| NeuralCanvas.link_a := 0; NeuralCanvas.link_b := 1;
         NeuralCanvas.opacity := Fin 1 |} = Fin ((1 - d / 150) * (1 / 5)).
Proof.
  destruct (proj1 line_opacity_by_distance _ _ coincident_pair_linked)
    as (pa & pb & d & Ea & Eb & Hd & Hr & Hop & Hal & _).
  exists pa, pb, d. repeat split; try assumption; apply Hr.
Defined.

End LineOpacity.

(** ** resize() and createParticles() of NeuralCanvas *)

Section Resize.
Import JS NeuralCanvas.

Variable rand : nat -> R.

Lemma pushParticles_length (count : nat) (w h : number) (k id : nat) :
  List.length (pushParticles rand count w h k id) = count.
Proof.
  revert k id. induction count as [| n IH]; intros k id; simpl;
    [reflexivity | now rewrite IH].
Qed.

Lemma pushParticles_oid (count : nat) (w h : number) (k id : nat)
      (p : particle) :
  In p (pushParticles rand count w h k id) ->
  (id <= oid p < id + count)%nat.
Proof.
  revert k id. induction count as [| n IH]; intros k id; simpl.
  - intros [].
  - intros [<- | Hin].
    + cbn [oid newParticle]. lia.
    + apply IH in Hin. lia.
Qed.

Lemma resize_particles (f : fields) (g : world) :
  particles (fst (resize rand f g))
  = pushParticles rand
      (if gt (innerWidth g) (Fin 1000) then 120%nat else 60%nat)
      (innerWidth g) (innerHeight g) (draws g) (next_oid g).
Proof. reflexivity. Qed.

(** C7: resize() recomputes the particle count from the new width (120
    above 1000, else 60) and replaces the particle array by that many newly
    allocated particles: the new array does not depend on the old one, and
    none of the old objects is in it. *)
Theorem resize_replaces_particles (f : fields) (g : world) :
  (forall q, In q (particles f) -> (oid q < next_oid g)%nat) ->
  width (fst (resize rand f g)) = innerWidth g /\
  height (fst (resize rand f g)) = innerHeight g /\
  particleCount (snd (resize rand f g))
  = (if gt (innerWidth g) (Fin 1000) then 120%nat else 60%nat) /\
  (forall W, innerWidth g = Fin W ->
             (1000 < W -> particleCount (snd (resize rand f g)) = 120%nat) /\
             (W <= 1000 -> particleCount (snd (resize rand f g)) = 60%nat)) /\
  List.length (particles (fst (resize rand f g)))
  = particleCount (snd (resize rand f g)) /\
  (forall ps, particles (fst (resize rand (setCtx f (ctx f) ps) g))
              = particles (fst (resize rand f g))) /\
  (forall p, In p (particles (fst (resize rand f g))) ->
             (next_oid g <= oid p < next_oid (snd (resize rand f g)))%nat /\
             ~ In p (particles f) /\
             (forall q, In q (particles f) -> oid q <> oid p)).
Proof.
  intros Hold.
  split; [reflexivity |]. split; [reflexivity |]. split; [reflexivity |].
  split.
  { intros W EW. cbn [resize createParticles snd particleCount].
    rewrite EW. unfold gt. split; intros HW.
    - now rewrite (proj2 (lt_Fin_true 1000 W) HW).
    - now rewrite (proj2 (lt_Fin_false 1000 W) HW). }
  split.
  { rewrite resize_particles. now rewrite pushParticles_length. }
  split; [reflexivity |].
  intros p Hin. rewrite resize_particles in Hin.
  apply pushParticles_oid in Hin.
  cbn [resize createParticles snd next_oid particleCount].
  split; [exact Hin |]. split.
  - intros Hp. apply Hold in Hp. lia.
  - intros q Hq E. apply Hold in Hq. lia.
Qed.

End Resize.

Section ResizeWitness.
Import JS NeuralCanvas.

Lemma resize_replaces_particles_witness :
  List.length
    (particles (fst (resize (fun _ => 1 / 2)
                            (fieldsOf (Fin 800) (Fin 600) [particleAt 10 20 0 0])
                            (worldAt (Fin 1200) (Fin 700) (Fin 0) (Fin 0)))))
  = 120%nat /\
  (forall p,
      In p (particles (fst (resize (fun _ => 1 / 2)
                              (fieldsOf (Fin 800) (Fin 600)
                                        [particleAt 10 20 0 0])
                              (worldAt (Fin 1200) (Fin 700) (Fin 0) (Fin 0)))))
      -> ~ In p [particleAt 10 20 0 0]).
Proof.
  assert (Hold : forall q,
             In q (particles (fieldsOf (Fin 800) (Fin 600)
                                       [particleAt 10 20 0 0])) ->
             (oid q < next_oid (worldAt (Fin 1200) (Fin 700) (Fin 0) (Fin 0)))%nat).
  { intros q [<- | []]. cbn. lia. }
  pose proof (resize_replaces_particles (fun _ => 1 / 2)
                (fieldsOf (Fin 800) (Fin 600) [particleAt 10 20 0 0])
                (worldAt (Fin 1200) (Fin 700) (Fin 0) (Fin 0)) Hold)
    as (_ & _ & _ & Hcount & Hlen & _ & Hnew).
  split.
  - rewrite Hlen. apply (Hcount 1200 eq_refl). lra.
  - intros p Hp. exact (proj1 (proj2 (Hnew p Hp))).
Defined.

End ResizeWitness.

(** ** A page without the canvas *)

Section MissingCanvas.
Import JS.

Variable rand : nat -> R.

(** new NeuralCanvas() returns with nothing done: no listener, no frame
    requested, nothing logged, no particle created. *)
Lemma construct_without_canvas (g : NeuralCanvas.world) :
  NeuralCanvas.canvas g = None ->
  NeuralCanvas.construct rand g = (NeuralCanvas.NoCanvas, g).
Proof. intros E. unfold NeuralCanvas.construct. now rewrite E. Qed.

(** C8 (the code at the failing input): on a page without the canvas,
    activateGodMode builds a NeuralCanvas, whose constructor returns before
    [particles] is set, and then reads [particles.forEach]: a TypeError. *)
Theorem activateGodMode_without_canvas_throws (w h : number) :
  NeuralCanvas.construct rand (NeuralCanvas.pageWithoutCanvas w h)
  = (NeuralCanvas.NoCanvas, NeuralCanvas.pageWithoutCanvas w h) /\
  NeuralCanvas.activateGodMode rand (NeuralCanvas.pageWithoutCanvas w h)
  = Throw (TypeError "Cannot read properties of undefined (reading 'forEach')").
Proof. split; reflexivity. Qed.

(** With the canvas, the same call completes. *)
Lemma activateGodMode_with_canvas (g : NeuralCanvas.world) (cw ch : number) :
  NeuralCanvas.canvas g = Some (cw, ch) ->
  exists f g', NeuralCanvas.activateGodMode rand g
               = Ok (NeuralCanvas.Ready f, g').
Proof.
  intros E. unfold NeuralCanvas.activateGodMode, NeuralCanvas.construct.
  assert (E' : NeuralCanvas.canvas (NeuralCanvas.log "GOD MODE ACTIVATED" g)
               = Some (cw, ch)).
  { unfold NeuralCanvas.log. now destruct (NeuralCanvas.debugMode g). }
  cbn [NeuralCanvas.canvas]. rewrite E'.
  destruct (NeuralCanvas.init rand _ _) as [f g']. eauto.
Qed.

(** new BackgroundSystem() without its canvas: not initialised, and no
    subscription. *)
Lemma newSystem_without_canvas (e : Background.env) :
  Background.element e = None ->
  Background.newSystem rand e
  = ({| Background.canvas :=
          {| Background.isValid := false; Background.parent := None;
             Background.ctx := []; Background.canvas_width := NaN;
             Background.canvas_height := NaN;
             Background.width := Fin 0; Background.height := Fin 0 |};
        Background.particles := [];
        Background.initialized := false |}, e).
Proof.
  intros E. unfold Background.newSystem, Background.newController.
  now rewrite E.
Qed.

(** Every later frame and resize event leaves that system as it is:
    nothing is drawn, no particle is created. *)
Lemma calls_without_canvas (cs : list Background.call) :
  forall e : Background.env,
    Background.element e = None ->
    Background.subscribers e = [] ->
    fst (Background.performAll rand (fst (Background.newSystem rand e)) e cs)
    = fst (Background.newSystem rand e).
Proof.
  intros e E. rewrite (newSystem_without_canvas e E). cbn [fst]. clear E.
  revert e. induction cs as [| c rest IH]; intros e Hsub; [reflexivity |].
  cbn [Background.performAll].
  destruct c as [| | iw]; cbn [Background.perform].
  - cbn. now apply IH.
  - cbn. now apply IH.
  - unfold Background.handleResize. cbn [Background.subscribers].
    rewrite Hsub. cbn [fold_left]. now apply IH.
Qed.

End MissingCanvas.

(** ** BackgroundParticle.update *)

Section BackgroundUpdate.
Import JS Background.

Variable rand : nat -> R.
Hypothesis rand_range : forall k, 0 <= rand k < 1.

Variables W H : R.
Hypothesis W_nonneg : 0 <= W.
Hypothesis H_nonneg : 0 <= H.

Lemma reset_real (p : particle) (k : nat) :
  w p = Fin W -> h p = Fin H ->
  reset rand p k
  = {| w := Fin W; h := Fin H;
       x := Fin (rand k * W);
       y := Fin (rand (k + 1) * H);
       vx := Fin ((rand (k + 2) - 1 / 2) * (3 / 10));
       vy := Fin ((rand (k + 3) - 1 / 2) * (3 / 10));
       size := Fin (rand (k + 4) * 2);
       life := Fin (rand (k + 5) * 100) |}.
Proof. intros Ew Eh. unfold reset. now rewrite Ew, Eh. Qed.

Lemma reset_inside (p : particle) (k : nat) :
  w p = Fin W -> h p = Fin H ->
  realParticle W H (reset rand p k) /\
  within (Fin 0) (Fin W) (x (reset rand p k)) /\
  within (Fin 0) (Fin H) (y (reset rand p k)).
Proof.
  intros Ew Eh. rewrite (reset_real p k Ew Eh).
  pose proof (rand_range k) as Hk. pose proof (rand_range (k + 1)) as Hk1.
  repeat split; cbn; try exact I; nra.
Qed.

Lemma outside_false_inside (q : particle) (qx qy : R) :
  w q = Fin W -> h q = Fin H -> x q = Fin qx -> y q = Fin qy ->
  outside q = false -> 0 <= qx <= W /\ 0 <= qy <= H.
Proof.
  intros Ew Eh Ex Ey Hout. unfold outside, gt in Hout.
  rewrite Ew, Eh, Ex, Ey in Hout.
  apply orb_false_iff in Hout. destruct Hout as [Hout Hy2].
  apply orb_false_iff in Hout. destruct Hout as [Hout Hy1].
  apply orb_false_iff in Hout. destruct Hout as [Hx1 Hx2].
  apply lt_Fin_false in Hx1, Hx2, Hy1, Hy2. lra.
Qed.

(** C10: after update() a BackgroundParticle with real position and
    velocity lies within [0, w] x [0, h]; when the step takes it out of the
    bounds it is not reflected: reset() replaces position, velocity, size
    and life by values computed from six new Math.random() calls, the
    position being (r0 * w, r1 * h). *)
Theorem update_keeps_inside (p : particle) (k : nat) :
  realParticle W H p ->
  realParticle W H (fst (update rand p k)) /\
  within (Fin 0) (Fin W) (x (fst (update rand p k))) /\
  within (Fin 0) (Fin H) (y (fst (update rand p k))) /\
  (outside (advance p) = true ->
   update rand p k = (reset rand (advance p) k, (k + 6)%nat) /\
   x (fst (update rand p k)) = Fin (rand k * W) /\
   y (fst (update rand p k)) = Fin (rand (k + 1) * H) /\
   vx (fst (update rand p k)) = Fin ((rand (k + 2) - 1 / 2) * (3 / 10)) /\
   vy (fst (update rand p k)) = Fin ((rand (k + 3) - 1 / 2) * (3 / 10)) /\
   size (fst (update rand p k)) = Fin (rand (k + 4) * 2) /\
   life (fst (update rand p k)) = Fin (rand (k + 5) * 100)) /\
  (outside (advance p) = false -> update rand p k = (advance p, k)).
Proof.
  intros (Ew & Eh & Fx & Fy & Fvx & Fvy).
  destruct (is_finite_inv _ Fx) as [px Ex], (is_finite_inv _ Fy) as [py Ey].
  destruct (is_finite_inv _ Fvx) as [u Eu], (is_finite_inv _ Fvy) as [v Ev].
  assert (Aw : w (advance p) = Fin W) by exact Ew.
  assert (Ah : h (advance p) = Fin H) by exact Eh.
  assert (Ax : x (advance p) = Fin (px + u)) by (simpl; now rewrite Ex, Eu).
  assert (Ay : y (advance p) = Fin (py + v)) by (simpl; now rewrite Ey, Ev).
  unfold update. destruct (outside (advance p)) eqn:Hout; cbn [fst].
  - destruct (reset_inside (advance p) k Aw Ah) as (Hreal & Hx & Hy).
    split; [exact Hreal |]. split; [exact Hx |]. split; [exact Hy |].
    split; [| discriminate]. intros _.
    rewrite (reset_real (advance p) k Aw Ah). repeat split.
  - destruct (outside_false_inside (advance p) _ _ Aw Ah Ax Ay Hout) as [Hx Hy].
    split.
    { repeat split; simpl; rewrite ?Ex, ?Ey, ?Eu, ?Ev; simpl; auto. }
    rewrite Ax, Ay. cbn [within].
    split; [exact Hx |]. split; [exact Hy |].
    split; [discriminate | reflexivity].
Qed.

(** update() of the system keeps every particle inside, frame after
    frame. *)
Lemma updateAll_keeps_inside (ps : list particle) :
  forall k,
    Forall (realParticle W H) ps ->
    Forall (fun q => realParticle W H q /\
                     within (Fin 0) (Fin W) (x q) /\
                     within (Fin 0) (Fin H) (y q))
           (fst (updateAll rand ps k)).
Proof.
  induction ps as [| p rest IH]; intros k Hall; simpl.
  - constructor.
  - inversion Hall as [| ? ? Hp Hrest]; subst.
    destruct (update rand p k) as [p' k1] eqn:Eu.
    destruct (updateAll rand rest k1) as [rest' k2] eqn:Ea.
    cbn [fst]. constructor.
    + destruct (update_keeps_inside p k Hp) as (Hr & Hx & Hy & _).
      rewrite Eu in Hr, Hx, Hy. cbn [fst] in Hr, Hx, Hy.
      split; [exact Hr | split; [exact Hx | exact Hy]].
    + specialize (IH k1 Hrest). now rewrite Ea in IH.
Qed.

(** The particles createParticles() makes are real particles of the
    canvas. *)
Lemma pushParticles_real (count k : nat) :
  Forall (realParticle W H) (pushParticles rand count (Fin W) (Fin H) k).
Proof.
  revert k. induction count as [| n IH]; intros k; simpl; constructor.
  - unfold newParticle.
    exact (proj1 (reset_inside
                    {| w := Fin W; h := Fin H; x := NaN; y := NaN; vx := NaN;
                       vy := NaN; size := NaN; life := NaN |}
                    k eq_refl eq_refl)).
  - apply IH.
Qed.

End BackgroundUpdate.

Section BackgroundUpdateWitness.
Import JS Background.

Lemma update_keeps_inside_witness :
  within (Fin 0) (Fin 800)
         (x (fst (update (fun _ => 1 / 4)
                         {| w := Fin 800; h := Fin 600; x := Fin 800;
                            y := Fin 300; vx := Fin (1 / 10); vy := Fin 0;
                            size := Fin 1; life := Fin 5 |} 0))) /\
  within (Fin 0) (Fin 600)
         (y (fst (update (fun _ => 1 / 4)
                         {| w := Fin 800; h := Fin 600; x := Fin 800;
                            y := Fin 300; vx := Fin (1 / 10); vy := Fin 0;
                            size := Fin 1; life := Fin 5 |} 0))).
Proof.
  assert (Hrand : forall k : nat, 0 <= (fun _ : nat => 1 / 4) k < 1)
    by (intros k; cbv beta; lra).
  assert (HW : 0 <= 800) by lra.
  assert (HH : 0 <= 600) by lra.
  destruct (update_keeps_inside (fun _ => 1 / 4) Hrand 800 600 HW HH
              {| w := Fin 800; h := Fin 600; x := Fin 800;
                 y := Fin 300; vx := Fin (1 / 10); vy := Fin 0;
                 size := Fin 1; life := Fin 5 |} 0)
    as (_ & Hx & Hy & _).
  - repeat split.
  - split; [exact Hx | exact Hy].
Defined.

End BackgroundUpdateWitness.

(** ** Frames with the pointer on the canvas *)

Section PointerOnCanvas.
Import JS NeuralCanvas.

Variables W H rad : R.
Hypothesis rad_pos : 0 < rad.

Lemma push_component_bound (a d : R) :
  0 < d -> d < rad -> Rabs a <= d ->
  Rabs (a / d * ((rad - d) / rad) * 2) < 2.
Proof.
  intros Hd Hlt Ha.
  assert (Ha' : - d <= a <= d).
  { revert Ha. unfold Rabs. destruct (Rcase_abs a); intros; lra. }
  set (t := a / d). set (f := (rad - d) / rad).
  assert (Et : t * d = a) by (unfold t; field; lra).
  assert (Ef : f * rad = rad - d) by (unfold f; field; lra).
  assert (Ht : -1 <= t <= 1) by (split; nra).
  assert (Hf : 0 < f < 1) by (split; nra).
  apply Rabs_def1; nra.
Qed.

Lemma sqrt_sum_squares_zero (a b : R) :
  R_sqrt.sqrt (a * a + b * b) = 0 -> a = 0 /\ b = 0.
Proof.
  intros H0. apply sqrt_eq_0 in H0; [| nra]. split; nra.
Qed.

(** One frame: the position after it, for a particle at real coordinates
    and a pointer on the canvas that is not at the particle. *)
Lemma frame_on_canvas (mx my : R) (p : particle) (px py u v : R) :
  x p = Fin px -> y p = Fin py -> vx p = Fin u -> vy p = Fin v ->
  0 <= mx <= W -> 0 <= my <= H ->
  ~ pointerAt (Fin mx) (Fin my) (move p) ->
  let p' := updateParticle (Fin W) (Fin H) (Fin rad) (Fin mx) (Fin my) p in
  vx p' = vx (bounce (Fin W) (Fin H) (move p)) /\
  vy p' = vy (bounce (Fin W) (Fin H) (move p)) /\
  ((x p' = Fin (px + u) /\ y p' = Fin (py + v)) \/
   (exists qx qy,
       x p' = Fin qx /\ y p' = Fin qy /\
       - rad - 2 <= qx <= W + rad + 2 /\ - rad - 2 <= qy <= H + rad + 2)).
Proof.
  intros Ex Ey Eu Ev Hmx Hmy Hnot p'. subst p'.
  set (q := bounce (Fin W) (Fin H) (move p)).
  assert (Eqx : x q = Fin (px + u)) by (simpl; now rewrite Ex, Eu).
  assert (Eqy : y q = Fin (py + v)) by (simpl; now rewrite Ey, Ev).
  assert (Hq : ~ (px + u = mx /\ py + v = my)).
  { intros [E1 E2]. apply Hnot. unfold pointerAt. simpl.
    rewrite Ex, Eu, Ey, Ev. simpl. now rewrite E1, E2. }
  unfold updateParticle. fold q. clearbody q. unfold repel.
  set (d := R_sqrt.sqrt ((mx - (px + u)) * (mx - (px + u))
                         + (my - (py + v)) * (my - (py + v)))).
  destruct (Rle_lt_dec rad d) as [Hfar | Hnear].
  - rewrite (displacement_far rad mx my q _ _ Eqx Eqy Hfar).
    split; [reflexivity |]. split; [reflexivity |]. left. now split.
  - assert (Hpos : 0 < d).
    { destruct (Rle_lt_dec d 0) as [Hle | Hlt]; [| exact Hlt].
      exfalso. apply Hq.
      assert (H0 : d = 0) by (pose proof (sqrt_pos
        ((mx - (px + u)) * (mx - (px + u))
         + (my - (py + v)) * (my - (py + v)))); unfold d in *; lra).
      apply sqrt_sum_squares_zero in H0. lra. }
    rewrite (displacement_near rad mx my q _ _ Eqx Eqy Hpos Hnear).
    fold d. cbn [x y vx vy]. rewrite Eqx, Eqy, !sub_Fin.
    split; [reflexivity |]. split; [reflexivity |]. right.
    pose proof (sqrt_sum_squares_ge_l (mx - (px + u)) (my - (py + v))) as Hl.
    pose proof (sqrt_sum_squares_ge_r (mx - (px + u)) (my - (py + v))) as Hr.
    fold d in Hl, Hr.
    pose proof (push_component_bound _ d Hpos Hnear Hl) as Bx.
    pose proof (push_component_bound _ d Hpos Hnear Hr) as By.
    eexists. eexists. split; [reflexivity |]. split; [reflexivity |].
    revert Hl Hr Bx By. unfold Rabs.
    repeat match goal with
           | |- context [Rcase_abs ?a] => destruct (Rcase_abs a)
           end; intros; lra.
Qed.

Lemma near_x_next (m cx : R) (p p' : particle) (px u : R) :
  0 <= m ->
  x p = Fin px -> vx p = Fin u -> Rabs u = cx ->
  - (m + cx) <= px <= W + (m + cx) ->
  - (m + cx) <= px + u <= W + (m + cx) ->
  vx p' = vx (bounce (Fin W) (Fin H) (move p)) ->
  (x p' = Fin (px + u) \/ exists qx, x p' = Fin qx /\ - m <= qx <= W + m) ->
  near_x W m cx p'.
Proof.
  intros Hm Ex Eu Hc H1 H2 Ev Hpos.
  assert (Hu : - cx <= u <= cx).
  { revert Hc. unfold Rabs. destruct (Rcase_abs u); intros; lra. }
  destruct (bounce_move_x W H p px u Ex Eu)
    as [_ [(_ & Hout & Ev') | (_ & Hins & Ev')]]; rewrite Ev' in Ev.
  - destruct Hpos as [Ep | (qx & Ep & Hq)].
    + exists (px + u), (- u). repeat split; try assumption; try lra.
      now rewrite Rabs_Ropp.
    + exists qx, (- u). repeat split; try assumption; try lra.
      now rewrite Rabs_Ropp.
  - destruct Hpos as [Ep | (qx & Ep & Hq)].
    + exists (px + u), u. repeat split; try assumption; lra.
    + exists qx, u. repeat split; try assumption; lra.
Qed.

Lemma near_y_next (m cy : R) (p p' : particle) (py v : R) :
  0 <= m ->
  y p = Fin py -> vy p = Fin v -> Rabs v = cy ->
  - (m + cy) <= py <= H + (m + cy) ->
  - (m + cy) <= py + v <= H + (m + cy) ->
  vy p' = vy (bounce (Fin W) (Fin H) (move p)) ->
  (y p' = Fin (py + v) \/ exists qy, y p' = Fin qy /\ - m <= qy <= H + m) ->
  near_y H m cy p'.
Proof.
  intros Hm Ey Ev Hc H1 H2 Evel Hpos.
  assert (Hv : - cy <= v <= cy).
  { revert Hc. unfold Rabs. destruct (Rcase_abs v); intros; lra. }
  destruct (bounce_move_y W H p py v Ey Ev)
    as [_ [(_ & Hout & Ev') | (_ & Hins & Ev')]]; rewrite Ev' in Evel.
  - destruct Hpos as [Ep | (qy & Ep & Hq)].
    + exists (py + v), (- v). repeat split; try assumption; try lra.
      now rewrite Rabs_Ropp.
    + exists qy, (- v). repeat split; try assumption; try lra.
      now rewrite Rabs_Ropp.
  - destruct Hpos as [Ep | (qy & Ep & Hq)].
    + exists (py + v), v. repeat split; try assumption; lra.
    + exists qy, v. repeat split; try assumption; lra.
Qed.

Lemma apart_not_at (mx my : R) (q : particle) :
  apart (Fin mx) (Fin my) q -> ~ pointerAt (Fin mx) (Fin my) q.
Proof.
  intros (d & Hd & Ht) [Hx Hy].
  rewrite (pointerDistance_real mx my q mx my Hx Hy) in Hd.
  injection Hd as Hd.
  replace ((mx - mx) * (mx - mx) + (my - my) * (my - my)) with 0 in Hd
    by ring.
  rewrite sqrt_0 in Hd. lra.
Qed.

(** One frame keeps the particle near the canvas. *)
Lemma near_step (cx cy : R) (mx my : number) (p : particle) :
  near_x W (rad + 2) cx p -> near_y H (rad + 2) cy p ->
  (displacement (Fin rad) mx my (move p) = None \/
   (exists rx ry, mx = Fin rx /\ my = Fin ry /\
                  0 <= rx <= W /\ 0 <= ry <= H /\
                  apart mx my (move p))) ->
  near_x W (rad + 2) cx
         (updateParticle (Fin W) (Fin H) (Fin rad) mx my p) /\
  near_y H (rad + 2) cy
         (updateParticle (Fin W) (Fin H) (Fin rad) mx my p).
Proof.
  intros (px & u & Ex & Eu & Hcx & Hx1 & Hx2)
         (py & v & Ey & Ev & Hcy & Hy1 & Hy2) Hframe.
  assert (Hm : 0 <= rad + 2) by lra.
  destruct Hframe as [Hnone | (rx & ry & -> & -> & Hrx & Hry & Hapart)].
  2: pose proof (apart_not_at rx ry (move p) Hapart) as Hnot.
  - rewrite (updateParticle_free _ _ _ _ _ _ Hnone). split.
    + apply (near_x_next (rad + 2) cx p _ px u); try assumption;
        [reflexivity | left; simpl; now rewrite Ex, Eu].
    + apply (near_y_next (rad + 2) cy p _ py v); try assumption;
        [reflexivity | left; simpl; now rewrite Ey, Ev].
  - destruct (frame_on_canvas rx ry p px py u v Ex Ey Eu Ev Hrx Hry Hnot)
      as (Evx & Evy & Hpos).
    split.
    + apply (near_x_next (rad + 2) cx p _ px u); try assumption.
      destruct Hpos as [[Ep _] | (qx & qy & Ep & _ & Hq & _)];
        [now left | right; exists qx; split; [exact Ep | lra]].
    + apply (near_y_next (rad + 2) cy p _ py v); try assumption.
      destruct Hpos as [[_ Ep] | (qx & qy & _ & Ep & _ & Hq)];
        [now left | right; exists qy; split; [exact Ep | lra]].
Qed.

Lemma near_x_within (m c : R) (p : particle) :
  near_x W m c p -> within (Fin (- (m + c))) (Fin (W + (m + c))) (x p).
Proof. intros (px & u & Ex & _ & _ & Hin & _). rewrite Ex. exact Hin. Qed.

Lemma near_y_within (m c : R) (p : particle) :
  near_y H m c p -> within (Fin (- (m + c))) (Fin (H + (m + c))) (y p).
Proof. intros (py & v & Ey & _ & _ & Hin & _). rewrite Ey. exact Hin. Qed.

Lemma pointer_run_near (cx cy : R) (pointers : list (number * number)) :
  forall p,
    near_x W (rad + 2) cx p -> near_y H (rad + 2) cy p ->
    pointerRun W H (Fin rad) p pointers ->
    Forall (fun q =>
              within (Fin (- (rad + 2 + cx))) (Fin (W + (rad + 2 + cx))) (x q) /\
              within (Fin (- (rad + 2 + cy))) (Fin (H + (rad + 2 + cy))) (y q))
           (run (Fin W) (Fin H) (Fin rad) p pointers).
Proof.
  induction pointers as [| [mx my] rest IH]; intros p Jx Jy Hrun; simpl.
  - constructor.
  - destruct Hrun as [Hframe Hrest].
    destruct (near_step cx cy mx my p Jx Jy Hframe) as [Jx' Jy'].
    constructor.
    + split; [now apply near_x_within | now apply near_y_within].
    + now apply IH.
Qed.

End PointerOnCanvas.

Section PointerOnCanvasRun.
Import JS NeuralCanvas.


(** X1.  In exact arithmetic, for a canvas, a radius and a speed of size at
    most 2^40 and a radius of at least 1: whatever the pointer does on
    the canvas, as long as it stays at least one unit away from the
    particle, a particle that starts inside [0, W] x [0, H] stays, frame
    after frame, within [-(rad + 2 + |vx|), W + rad + 2 + |vx|] on x and
    within [-(rad + 2 + |vy|), H + rad + 2 + |vy|] on y. *)
Theorem pointer_run_stays_near_canvas
  (W H rad : R) (p : particle) (pointers : list (number * number))
  (px py u v : R) :
  W <= wide -> H <= wide -> 1 <= rad <= wide ->
  x p = Fin px -> y p = Fin py -> vx p = Fin u -> vy p = Fin v ->
  0 <= px <= W -> 0 <= py <= H -> Rabs u <= wide -> Rabs v <= wide ->
  pointerRun W H (Fin rad) p pointers ->
  Forall (fun q =>
            within (Fin (- (rad + 2 + Rabs u))) (Fin (W + (rad + 2 + Rabs u)))
                   (x q) /\
            within (Fin (- (rad + 2 + Rabs v))) (Fin (H + (rad + 2 + Rabs v)))
                   (y q))
         (run (Fin W) (Fin H) (Fin rad) p pointers).
Proof.
  intros _ _ rad_range Ex Ey Eu Ev Hx Hy _ _ Hrun.
  assert (Hrad : 0 < rad) by lra.
  assert (Hu : - Rabs u <= u <= Rabs u).
  { unfold Rabs. destruct (Rcase_abs u); lra. }
  assert (Hv : - Rabs v <= v <= Rabs v).
  { unfold Rabs. destruct (Rcase_abs v); lra. }
  pose proof (Rabs_pos u) as Hcu. pose proof (Rabs_pos v) as Hcv.
  apply (pointer_run_near W H rad Hrad); try assumption.
  - exists px, u. repeat split; try assumption; lra.
  - exists py, v. repeat split; try assumption; lra.
Qed.

End PointerOnCanvasRun.

Section PointerOnCanvasWitness.
Import JS NeuralCanvas.

Lemma apart_by_x (mx my : R) (q : particle) (px py : R) :
  x q = Fin px -> y q = Fin py -> 1 <= mx - px ->
  apart (Fin mx) (Fin my) q.
Proof.
  intros Hx Hy Hfar. eexists. split.
  - apply (pointerDistance_real mx my q px py Hx Hy).
  - pose proof (sqrt_sum_squares_ge_l (mx - px) (my - py)).
    pose proof (Rle_abs (mx - px)). lra.
Qed.

(** The pointer at (75, 100) and then at (1000, 100), for a particle that
    starts at (1/2, 100): on the canvas, at least 75 from the particle. *)
Lemma example_pointer_run :
  pointerRun 2000 1000 (Fin 150) (particleAt (1/2) 100 (-1/2) 0)
             [(Fin 75, Fin 100); (Fin 1000, Fin 100)].
Proof.
  cbn [pointerRun]. split; [| split; [| exact I]].
  - right. exists 75, 100.
    split; [reflexivity |]. split; [reflexivity |].
    split; [lra |]. split; [lra |].
    apply (apart_by_x 75 100 (move (particleAt (1/2) 100 (-1/2) 0))
             (1/2 + -1/2) (100 + 0) eq_refl eq_refl).
    lra.
  - right. exists 1000, 100.
    split; [reflexivity |]. split; [reflexivity |].
    split; [lra |]. split; [lra |].
    rewrite (frame_pushed_left 2000 1000 150 75 100 (1/2) 100 (-1/2) 0 75)
      by lra.
    eapply apart_by_x; [reflexivity | reflexivity |].
    destruct (flips_x _ _); lra.
Qed.

Lemma pointer_run_stays_near_canvas_witness :
  pointerRun 2000 1000 (Fin 150) (particleAt (1/2) 100 (-1/2) 0)
             [(Fin 75, Fin 100); (Fin 1000, Fin 100)] /\
  Forall (fun q =>
            within (Fin (- (150 + 2 + Rabs (-1/2))))
                   (Fin (2000 + (150 + 2 + Rabs (-1/2)))) (x q) /\
            within (Fin (- (150 + 2 + Rabs 0)))
                   (Fin (1000 + (150 + 2 + Rabs 0))) (y q))
         (run (Fin 2000) (Fin 1000) (Fin 150) (particleAt (1/2) 100 (-1/2) 0)
              [(Fin 75, Fin 100); (Fin 1000, Fin 100)]).
Proof.
  split; [exact example_pointer_run |].
  assert (HW : 2000 <= wide) by (pose proof wide_large; lra).
  assert (HH : 1000 <= wide) by (pose proof wide_large; lra).
  assert (Hrad : 1 <= 150 <= wide) by (pose proof wide_large; lra).
  assert (Hu : Rabs (-1/2) <= wide)
    by (apply Rabs_le; pose proof wide_large; lra).
  assert (Hv : Rabs 0 <= wide)
    by (apply Rabs_le; pose proof wide_large; lra).
  apply (pointer_run_stays_near_canvas 2000 1000 150
           (particleAt (1/2) 100 (-1/2) 0) _ (1/2) 100 (-1/2) 0 HW HH Hrad);
    try reflexivity; try lra; try assumption; exact example_pointer_run.
Defined.

End PointerOnCanvasWitness.

(** ** More on NeuralCanvas: creation, frames, construction *)

Section NeuralCanvasCreation.
Import JS NeuralCanvas.

Variable rand : nat -> R.
Hypothesis rand_range : forall k, 0 <= rand k < 1.

Lemma pushParticles_oids (count : nat) (w h : number) (k id : nat) :
  map oid (pushParticles rand count w h k id) = seq id count.
Proof.
  revert k id. induction count as [| n IH]; intros k id; simpl;
    [reflexivity | now rewrite IH].
Qed.

Lemma pushParticles_initial (W H : R) (count k id : nat) :
  0 <= W -> 0 <= H ->
  Forall (fun p => exists px py u v s,
              x p = Fin px /\ y p = Fin py /\ vx p = Fin u /\ vy p = Fin v /\
              size p = Fin s /\ color p = cyan /\
              0 <= px <= W /\ 0 <= py <= H /\
              - (3 / 4) <= u < 3 / 4 /\ - (3 / 4) <= v < 3 / 4 /\ 1 <= s < 3)
         (pushParticles rand count (Fin W) (Fin H) k id).
Proof.
  intros HW HH. revert k id.
  induction count as [| n IH]; intros k id; simpl; constructor; [| apply IH].
  pose proof (rand_range k). pose proof (rand_range (k + 1)).
  pose proof (rand_range (k + 2)). pose proof (rand_range (k + 3)).
  pose proof (rand_range (k + 4)).
  exists (rand k * W), (rand (k + 1) * H),
         ((rand (k + 2) - 1 / 2) * (3 / 2)),
         ((rand (k + 3) - 1 / 2) * (3 / 2)),
         (rand (k + 4) * 2 + 1).
  repeat split; try reflexivity; nra.
Qed.

(** X2.  createParticles() fills the array with [particleCount] new objects,
    each inside the canvas, with both velocity components in
    [-3/4, 3/4), a size in [1, 3) and the cyan colour; it makes five
    Math.random() calls per particle. *)
Theorem createParticles_initial (f : fields) (g : world) (W H : R) :
  width f = Fin W -> height f = Fin H -> 0 <= W -> 0 <= H ->
  List.length (particles (fst (createParticles rand f g))) = particleCount g /\
  NoDup (map oid (particles (fst (createParticles rand f g)))) /\
  draws (snd (createParticles rand f g)) = (draws g + 5 * particleCount g)%nat /\
  Forall (fun p => exists px py u v s,
              x p = Fin px /\ y p = Fin py /\ vx p = Fin u /\ vy p = Fin v /\
              size p = Fin s /\ color p = cyan /\
              0 <= px <= W /\ 0 <= py <= H /\
              - (3 / 4) <= u < 3 / 4 /\ - (3 / 4) <= v < 3 / 4 /\ 1 <= s < 3)
         (particles (fst (createParticles rand f g))).
Proof.
  intros EW EH HW HH. cbn [createParticles fst snd particles draws].
  rewrite EW, EH. split; [apply pushParticles_length |].
  split; [rewrite pushParticles_oids; apply seq_NoDup |].
  split; [reflexivity |].
  now apply pushParticles_initial.
Qed.

End NeuralCanvasCreation.

Section NeuralCanvasCreationWitness.
Import JS NeuralCanvas.

Lemma createParticles_initial_witness :
  List.length
    (particles (fst (createParticles (fun _ => 1 / 2)
                       (fieldsOf (Fin 800) (Fin 600) [])
                       (worldAt (Fin 800) (Fin 600) (Fin 0) (Fin 0)))))
  = 60%nat.
Proof.
  assert (Hrand : forall k : nat, 0 <= (fun _ : nat => 1 / 2) k < 1)
    by (intros k; cbv beta; lra).
  assert (HW : 0 <= 800) by lra.
  assert (HH : 0 <= 600) by lra.
  exact (proj1 (createParticles_initial (fun _ => 1 / 2) Hrand
                  (fieldsOf (Fin 800) (Fin 600) [])
                  (worldAt (Fin 800) (Fin 600) (Fin 0) (Fin 0))
                  800 600 eq_refl eq_refl HW HH)).
Defined.

End NeuralCanvasCreationWitness.

Section NeuralCanvasFrame.
Import JS Canvas NeuralCanvas.

Lemma updateParticle_keeps (w h rad mx my : number) (p : particle) :
  oid (updateParticle w h rad mx my p) = oid p /\
  size (updateParticle w h rad mx my p) = size p /\
  color (updateParticle w h rad mx my p) = color p /\
  vx (updateParticle w h rad mx my p)
  = (if flips_x w (move p) then mul (vx p) (Fin (-1)) else vx p) /\
  vy (updateParticle w h rad mx my p)
  = (if flips_y h (move p) then mul (vy p) (Fin (-1)) else vy p).
Proof.
  unfold updateParticle, repel.
  destruct (displacement rad mx my (bounce w h (move p))) as [[dx dy] |];
    repeat split.
Qed.

(** X3.  A frame of draw() keeps the particles in place in the array, each with
    its identity, size and colour; the pointer never changes a velocity:
    a velocity component is kept or multiplied by -1 by the boundary
    check. *)
Theorem draw_keeps_particles (f : fields) (g : world) :
  List.length (particles (draw f g)) = List.length (particles f) /\
  map oid (particles (draw f g)) = map oid (particles f) /\
  map size (particles (draw f g)) = map size (particles f) /\
  map color (particles (draw f g)) = map color (particles f) /\
  (forall i p,
      nth_error (particles f) i = Some p ->
      exists p',
        nth_error (particles (draw f g)) i = Some p' /\
        (vx p' = vx p \/ vx p' = mul (vx p) (Fin (-1))) /\
        (vy p' = vy p \/ vy p' = mul (vy p) (Fin (-1)))) /\
  width (draw f g) = width f /\ height (draw f g) = height f /\
  mouseRadius (draw f g) = mouseRadius f.
Proof.
  rewrite particles_draw.
  split; [apply length_map |].
  split.
  { rewrite map_map. apply map_ext. intros p.
    apply (updateParticle_keeps _ _ _ _ _ p). }
  split.
  { rewrite map_map. apply map_ext. intros p.
    apply (updateParticle_keeps _ _ _ _ _ p). }
  split.
  { rewrite map_map. apply map_ext. intros p.
    apply (updateParticle_keeps _ _ _ _ _ p). }
  split; [| repeat split].
  intros i p Hi. eexists. split.
  - apply map_nth_error. exact Hi.
  - destruct (updateParticle_keeps (width f) (height f) (mouseRadius f)
                (mouseX g) (mouseY g) p) as (_ & _ & _ & Evx & Evy).
    rewrite Evx, Evy.
    destruct (flips_x _ _), (flips_y _ _); auto.
Qed.

End NeuralCanvasFrame.

Section SelfLinks.
Import JS NeuralCanvas.

Lemma distance_self_real (p : particle) :
  is_finite (x p) -> is_finite (y p) -> distance p p = Fin 0.
Proof.
  intros Fx Fy.
  destruct (is_finite_inv _ Fx) as [px Ex], (is_finite_inv _ Fy) as [py Ey].
  unfold distance. rewrite Ex, Ey, !sub_Fin, sqrt_sum_squares.
  f_equal. apply sqrt_of_square; [lra | ring].
Qed.

Lemma distance_nan_l (p q : particle) :
  x p = NaN \/ y p = NaN -> distance p q = NaN.
Proof.
  unfold distance. intros [E | E]; rewrite E.
  - reflexivity.
  - destruct (sub (x p) (x q)) as [r | | |]; simpl; try reflexivity.
Qed.

Lemma distance_nan_r (p q : particle) :
  x q = NaN \/ y q = NaN -> distance p q = NaN.
Proof.
  unfold distance. intros [E | E]; rewrite E.
  - destruct (x p); reflexivity.
  - destruct (sub (x p) (x q)) as [r | | |], (y p); simpl; try reflexivity.
Qed.

(** X4.  connectParticles on any particle array: every particle with real
    coordinates is linked to itself (the inner loop starts at [b = a]),
    with the local [opacity] 1; a particle with a NaN coordinate is on no
    line at all. *)
Theorem connectParticles_self_and_nan
  (ps : list particle) (a : nat) (p : particle) :
  nth_error ps a = Some p ->
  (is_finite (x p) -> is_finite (y p) ->
   In {| link_a := a; link_b := a; opacity := Fin 1 |}
      (links connectionRadius ps)) /\
  (x p = NaN \/ y p = NaN ->
   forall l, In l (links connectionRadius ps) ->
             link_a l <> a /\ link_b l <> a).
Proof.
  intros Ea. split.
  - intros Fx Fy. apply links_spec. exists p, p.
    cbn [link_a link_b opacity]. rewrite (distance_self_real p Fx Fy).
    unfold connectionRadius.
    rewrite (proj2 (lt_Fin_true 0 150)) by lra.
    rewrite div_Fin, sub_Fin by lra.
    repeat split; try assumption; [lia |]. f_equal. lra.
  - intros Hnan l Hl. apply links_spec in Hl.
    destruct Hl as (pa & pb & _ & Fa & Fb & Hlt & _).
    split; intros E; rewrite E in *.
    + rewrite Ea in Fa. injection Fa as <-.
      now rewrite (distance_nan_l p pb Hnan) in Hlt.
    + rewrite Ea in Fb. injection Fb as <-.
      now rewrite (distance_nan_r pa p Hnan) in Hlt.
Qed.

Lemma connectParticles_self_and_nan_witness :
  In {| link_a := 0; link_b := 0; opacity := Fin 1 |}
     (links connectionRadius [particleAt 10 20 0 0]).
Proof.
  exact (proj1 (connectParticles_self_and_nan [particleAt 10 20 0 0] 0
                  (particleAt 10 20 0 0) eq_refl) I I).
Defined.

End SelfLinks.

Section Constructor.
Import JS Canvas NeuralCanvas.

Variable rand : nat -> R.

Lemma log_keeps (msg : string) (g : world) :
  canvas (log msg g) = canvas g /\
  particleCount (log msg g) = particleCount g /\
  draws (log msg g) = draws g /\
  next_oid (log msg g) = next_oid g /\
  listeners (log msg g) = listeners g /\
  frames (log msg g) = frames g /\
  mouseX (log msg g) = mouseX g /\ mouseY (log msg g) = mouseY g.
Proof. unfold log. destruct (debugMode g); repeat split. Qed.

(** X5.  new NeuralCanvas() on a page with the canvas: the instance covers the
    window, holds 120 particles when the window is wider than 1000 and 60
    otherwise, listens to resize and mousemove and has requested one
    frame.  init() creates the particles twice (resize() already calls
    createParticles()): ten Math.random() calls per particle are made and
    the particles kept are the second batch. *)
Theorem construct_with_canvas (g : world) (cw ch : number) :
  canvas g = Some (cw, ch) ->
  exists f,
    fst (construct rand g) = Ready f /\
    width f = innerWidth g /\ height f = innerHeight g /\
    canvas_width f = innerWidth g /\ canvas_height f = innerHeight g /\
    mouseRadius f = Fin 150 /\
    List.length (particles f)
    = (if gt (innerWidth g) (Fin 1000) then 120 else 60)%nat /\
    map oid (particles f)
    = seq (next_oid g + (if gt (innerWidth g) (Fin 1000) then 120 else 60))
          (if gt (innerWidth g) (Fin 1000) then 120 else 60) /\
    particleCount (snd (construct rand g))
    = (if gt (innerWidth g) (Fin 1000) then 120 else 60)%nat /\
    draws (snd (construct rand g))
    = (draws g + 10 * (if gt (innerWidth g) (Fin 1000) then 120 else 60))%nat /\
    listeners (snd (construct rand g))
    = listeners g ++ ["resize"; "mousemove"] /\
    frames (snd (construct rand g)) = S (frames g) /\
    (reducedMotion g = true -> ctx f = []) /\
    (reducedMotion g = false ->
     exists painted,
       ctx f = ClearRect (Fin 0) (Fin 0) (innerWidth g) (innerHeight g)
                 :: painted).
Proof.
  destruct g as [c iw ih pc rm dm mx my dr no ls fr co al cs].
  cbn [canvas innerWidth innerHeight draws next_oid listeners frames
       reducedMotion].
  intros ->. unfold construct, init.
  set (n := if gt iw (Fin 1000) then 120%nat else 60%nat).
  destruct rm, dm;
    cbn [resize createParticles animate log addEventListener requestFrame
         fst snd width height particleCount draws next_oid canvas_width
         canvas_height mouseRadius ctx connections particles innerWidth
         innerHeight reducedMotion debugMode canvas listeners frames
         mouseX mouseY draw setCtx];
    fold n;
    eexists; (split; [reflexivity |]);
    rewrite ?particles_draw;
    cbn [width height canvas_width canvas_height mouseRadius particles ctx
         mouseX mouseY];
    (split; [reflexivity |]); (split; [reflexivity |]);
    (split; [reflexivity |]); (split; [reflexivity |]);
    (split; [reflexivity |]);
    (split; [rewrite ?length_map; apply pushParticles_length |]);
    (split;
     [ first [ apply pushParticles_oids
             | rewrite map_map;
               rewrite <- (pushParticles_oids rand n iw ih
                             (dr + 5 * n) (no + n));
               apply map_ext; intros p;
               apply (updateParticle_keeps _ _ _ _ _ p) ] |]);
    (split; [reflexivity |]);
    (split; [lia |]);
    (split; [now rewrite <- app_assoc |]);
    (split; [reflexivity |]);
    (split; [first [reflexivity | discriminate] |]);
    first [discriminate | intros _; eexists; reflexivity].
Qed.

End Constructor.

Section ConstructorWitness.
Import JS Canvas NeuralCanvas.

Lemma construct_with_canvas_witness :
  exists f,
    fst (construct (fun _ => 1 / 2)
           (worldAt (Fin 1200) (Fin 700) (Fin 0) (Fin 0))) = Ready f /\
    List.length (particles f) = 120%nat.
Proof.
  destruct (construct_with_canvas (fun _ => 1 / 2)
              (worldAt (Fin 1200) (Fin 700) (Fin 0) (Fin 0))
              (Fin 1200) (Fin 700) eq_refl)
    as (f & Ef & _ & _ & _ & _ & _ & Hlen & _).
  exists f. split; [exact Ef |].
  rewrite Hlen. cbn [worldAt innerWidth]. unfold gt.
  now rewrite (proj2 (lt_Fin_true 1000 1200)) by lra.
Defined.

End ConstructorWitness.

(** ** More on BackgroundSystem: creation, frames, resize *)

Section BackgroundSystemFacts.
Import JS Canvas Background.

Variable rand : nat -> R.
Hypothesis rand_range : forall k, 0 <= rand k < 1.

Variables W H : R.
Hypothesis W_nonneg : 0 <= W.
Hypothesis H_nonneg : 0 <= H.

Lemma bg_pushParticles_length (count : nat) (cw ch : number) (k : nat) :
  List.length (pushParticles rand count cw ch k) = count.
Proof.
  revert k. induction count as [| n IH]; intros k; simpl;
    [reflexivity | now rewrite IH].
Qed.

Lemma bg_pushParticles_initial (count k : nat) :
  Forall (fun p => exists px py u v s l,
              w p = Fin W /\ h p = Fin H /\
              x p = Fin px /\ y p = Fin py /\ vx p = Fin u /\ vy p = Fin v /\
              size p = Fin s /\ life p = Fin l /\
              0 <= px <= W /\ 0 <= py <= H /\
              - (3 / 20) <= u < 3 / 20 /\ - (3 / 20) <= v < 3 / 20 /\
              0 <= s < 2 /\ 0 <= l < 100)
         (pushParticles rand count (Fin W) (Fin H) k).
Proof.
  revert k. induction count as [| n IH]; intros k; simpl; constructor;
    [| apply IH].
  pose proof (rand_range k). pose proof (rand_range (k + 1)).
  pose proof (rand_range (k + 2)). pose proof (rand_range (k + 3)).
  pose proof (rand_range (k + 4)). pose proof (rand_range (k + 5)).
  exists (rand k * W), (rand (k + 1) * H),
         ((rand (k + 2) - 1 / 2) * (3 / 10)),
         ((rand (k + 3) - 1 / 2) * (3 / 10)),
         (rand (k + 4) * 2), (rand (k + 5) * 100).
  repeat split; try reflexivity; nra.
Qed.

(** X6.  createParticles() of the background fills the array with 40 particles
    on a mobile page and 100 otherwise, each made for the current canvas
    size, inside it, with velocity components in [-0.15, 0.15), a size in
    [0, 2) and a life in [0, 100); six Math.random() calls each. *)
Theorem bg_createParticles_initial (s : system) (e : env) :
  width (canvas s) = Fin W -> height (canvas s) = Fin H ->
  List.length (particles (fst (createParticles rand s e)))
  = (if isMobile e then 40 else 100)%nat /\
  draws (snd (createParticles rand s e))
  = (draws e + 6 * (if isMobile e then 40 else 100))%nat /\
  canvas (fst (createParticles rand s e)) = canvas s /\
  Forall (fun p => exists px py u v sz l,
              w p = Fin W /\ h p = Fin H /\
              x p = Fin px /\ y p = Fin py /\ vx p = Fin u /\ vy p = Fin v /\
              size p = Fin sz /\ life p = Fin l /\
              0 <= px <= W /\ 0 <= py <= H /\
              - (3 / 20) <= u < 3 / 20 /\ - (3 / 20) <= v < 3 / 20 /\
              0 <= sz < 2 /\ 0 <= l < 100)
         (particles (fst (createParticles rand s e))).
Proof.
  intros EW EH. cbn [createParticles fst snd particles draws canvas].
  rewrite EW, EH. unfold particleCountMobile, particleCountDesktop.
  split; [rewrite bg_pushParticles_length; now destruct (isMobile e) |].
  split; [now destruct (isMobile e) |].
  split; [reflexivity |].
  apply bg_pushParticles_initial.
Qed.

Lemma updateAll_length (ps : list particle) :
  forall k, List.length (fst (updateAll rand ps k)) = List.length ps.
Proof.
  induction ps as [| p rest IH]; intros k; simpl; [reflexivity |].
  destruct (update rand p k) as [p' k1].
  specialize (IH k1). destruct (updateAll rand rest k1) as [rest' k2].
  cbn [fst] in *. simpl. now rewrite IH.
Qed.

Lemma updateSystem_inside (s : system) (e : env) :
  allInside W H s ->
  allInside W H (fst (updateSystem rand s e)) /\
  List.length (particles (fst (updateSystem rand s e)))
  = List.length (particles s).
Proof.
  intros Hin. unfold updateSystem.
  destruct (initialized s); cbn [negb]; [| now split].
  pose proof (updateAll_keeps_inside rand rand_range W H W_nonneg H_nonneg
                (particles s) (draws e)) as Hk.
  pose proof (updateAll_length (particles s) (draws e)) as Hl.
  destruct (updateAll rand (particles s) (draws e)) as [ps k].
  cbn [fst particles] in *. split; [| exact Hl].
  apply Hk. eapply Forall_impl; [| exact Hin]. now intros q [Hq _].
Qed.

(** X7.  Frame after frame (any sequence of update() and draw() calls) the
    system keeps the same number of particles, every one of them inside the
    canvas it was made for. *)
Theorem frames_keep_particles_inside (cs : list call) :
  forall (s : system) (e : env),
    Forall (fun c => c = CallUpdate \/ c = CallDraw) cs ->
    allInside W H s ->
    allInside W H (fst (performAll rand s e cs)) /\
    List.length (particles (fst (performAll rand s e cs)))
    = List.length (particles s).
Proof.
  induction cs as [| c rest IH]; intros s e Hcs Hin; [now split |].
  inversion Hcs as [| ? ? Hc Hrest]; subst.
  cbn [performAll].
  destruct Hc as [-> | ->]; cbn [perform].
  - destruct (updateSystem_inside s e Hin) as [Hin' Hlen].
    destruct (updateSystem rand s e) as [s' e']. cbn [fst] in *.
    destruct (IH s' e' Hrest Hin') as [Hin'' Hlen'].
    split; [exact Hin'' | congruence].
  - assert (Hd : particles (drawSystem s) = particles s).
    { unfold drawSystem. now destruct (initialized s). }
    assert (Hin' : allInside W H (drawSystem s)).
    { unfold allInside. now rewrite Hd. }
    destruct (IH (drawSystem s) e Hrest Hin') as [Hin'' Hlen'].
    split; [exact Hin'' | congruence].
Qed.

End BackgroundSystemFacts.

Section BackgroundResize.
Import JS Canvas Background.

Variable rand : nat -> R.

(** X8.  A resize event on an initialised system, whose two callbacks run in
    the order they were subscribed: the controller first takes the
    parent's size, then createParticles() replaces the array by 40
    particles when the new window is narrower than 768 and 100 otherwise,
    all made for the new canvas size. *)
Theorem handleResize_replaces_particles
  (iw pw ph : number) (s : system) (e : env) :
  isValid (canvas s) = true ->
  parent (canvas s) = Some (pw, ph) ->
  subscribers e
  = ["CanvasController.resize"; "BackgroundSystem.createParticles"] ->
  isMobile (snd (handleResize rand iw s e)) = lt iw (Fin 768) /\
  width (canvas (fst (handleResize rand iw s e))) = pw /\
  height (canvas (fst (handleResize rand iw s e))) = ph /\
  canvas_width (canvas (fst (handleResize rand iw s e))) = mul pw (dpr e) /\
  canvas_height (canvas (fst (handleResize rand iw s e))) = mul ph (dpr e) /\
  particles (fst (handleResize rand iw s e))
  = pushParticles rand (if lt iw (Fin 768) then 40 else 100)%nat pw ph
                  (draws e) /\
  List.length (particles (fst (handleResize rand iw s e)))
  = (if lt iw (Fin 768) then 40 else 100)%nat /\
  Forall (fun p => w p = pw /\ h p = ph)
         (particles (fst (handleResize rand iw s e))) /\
  (forall ps,
      particles (fst (handleResize rand iw
                        {| canvas := canvas s; particles := ps;
                           initialized := initialized s |} e))
      = particles (fst (handleResize rand iw s e))).
Proof.
  intros Hv Hp Hs. unfold handleResize. cbn [subscribers]. rewrite Hs.
  cbn [fold_left notify String.eqb Ascii.eqb Bool.eqb dpr isMobile draws
       createParticles canvas particles fst snd].
  unfold resize. rewrite Hv, Hp. cbn [negb width height canvas_width
                                       canvas_height].
  unfold particleCountMobile, particleCountDesktop.
  repeat split.
  - rewrite bg_pushParticles_length. now destruct (lt iw (Fin 768)).
  - generalize (draws e).
    generalize (if lt iw (Fin 768) then 40%nat else 100%nat).
    intros n. induction n as [| n IH]; intros k; simpl; constructor;
      [now split | apply IH].
Qed.

(** new BackgroundSystem() on a page with the canvas subscribes exactly
    these two callbacks, in this order, and is initialised. *)
Lemma newSystem_with_canvas (e : env) (cw ch : number)
      (par : option (number * number)) :
  element e = Some (cw, ch, par) ->
  initialized (fst (newSystem rand e)) = true /\
  isValid (canvas (fst (newSystem rand e))) = true /\
  subscribers (snd (newSystem rand e))
  = subscribers e ++ ["CanvasController.resize";
                      "BackgroundSystem.createParticles"] /\
  List.length (particles (fst (newSystem rand e)))
  = (if isMobile e then 40 else 100)%nat.
Proof.
  intros E. unfold newSystem, newController. rewrite E.
  unfold resize. cbn [isValid negb parent].
  destruct par as [[pw ph] |]; cbn [isValid init createParticles fst snd
    initialized canvas particles subscribe subscribers isMobile];
    (repeat split; [now rewrite <- app_assoc |
                    rewrite bg_pushParticles_length;
                    unfold particleCountMobile, particleCountDesktop;
                    now destruct (isMobile e)]).
Qed.

End BackgroundResize.

Section BackgroundWitnesses.
Import JS Canvas Background.

Lemma handleResize_replaces_particles_witness :
  List.length
    (particles
       (fst (handleResize (fun _ => 1 / 2) (Fin 500)
               {| canvas := {| isValid := true;
                               parent := Some (Fin 500, Fin 300);
                               ctx := []; canvas_width := Fin 800;
                               canvas_height := Fin 600;
                               width := Fin 800; height := Fin 600 |};
                  particles := []; initialized := true |}
               {| element := Some (Fin 800, Fin 600,
                                   Some (Fin 500, Fin 300));
                  dpr := Fin 1; isMobile := false; draws := 0;
                  subscribers := ["CanvasController.resize";
                                  "BackgroundSystem.createParticles"] |})))
  = (if lt (Fin 500) (Fin 768) then 40 else 100)%nat.
Proof.
  exact (proj1 (proj2 (proj2 (proj2 (proj2 (proj2 (proj2
    (handleResize_replaces_particles (fun _ => 1 / 2) (Fin 500)
       (Fin 500) (Fin 300)
       {| canvas := {| isValid := true;
                       parent := Some (Fin 500, Fin 300);
                       ctx := []; canvas_width := Fin 800;
                       canvas_height := Fin 600;
                       width := Fin 800; height := Fin 600 |};
          particles := []; initialized := true |}
       {| element := Some (Fin 800, Fin 600, Some (Fin 500, Fin 300));
          dpr := Fin 1; isMobile := false; draws := 0;
          subscribers := ["CanvasController.resize";
                          "BackgroundSystem.createParticles"] |}
       eq_refl eq_refl eq_refl)))))))).
Defined.

Lemma bg_createParticles_initial_witness :
  List.length
    (particles
       (fst (createParticles (fun _ => 1 / 2)
               {| canvas := {| isValid := true; parent := None; ctx := [];
                               canvas_width := Fin 800;
                               canvas_height := Fin 600;
                               width := Fin 800; height := Fin 600 |};
                  particles := []; initialized := false |}
               {| element := None; dpr := Fin 1; isMobile := true;
                  draws := 0; subscribers := [] |})))
  = 40%nat.
Proof.
  assert (Hrand : forall k : nat, 0 <= (fun _ : nat => 1 / 2) k < 1)
    by (intros k; cbv beta; lra).
  assert (HW : 0 <= 800) by lra.
  assert (HH : 0 <= 600) by lra.
  exact (proj1 (bg_createParticles_initial (fun _ => 1 / 2) Hrand 800 600
                  HW HH
                  {| canvas := {| isValid := true; parent := None; ctx := [];
                                  canvas_width := Fin 800;
                                  canvas_height := Fin 600;
                                  width := Fin 800; height := Fin 600 |};
                     particles := []; initialized := false |}
                  {| element := None; dpr := Fin 1; isMobile := true;
                     draws := 0; subscribers := [] |}
                  eq_refl eq_refl)).
Defined.

Lemma frames_keep_particles_inside_witness :
  List.length
    (particles
       (fst (performAll (fun _ => 1 / 2)
               {| canvas := {| isValid := true; parent := None; ctx := [];
                               canvas_width := Fin 800;
                               canvas_height := Fin 600;
                               width := Fin 800; height := Fin 600 |};
                  particles := [ {| w := Fin 800; h := Fin 600;
                                    x := Fin 800; y := Fin 300;
                                    vx := Fin (1 / 10); vy := Fin 0;
                                    size := Fin 1; life := Fin 5 |} ];
                  initialized := true |}
               {| element := None; dpr := Fin 1; isMobile := true;
                  draws := 0; subscribers := [] |}
               [CallUpdate; CallDraw; CallUpdate])))
  = 1%nat.
Proof.
  assert (Hrand : forall k : nat, 0 <= (fun _ : nat => 1 / 2) k < 1)
    by (intros k; cbv beta; lra).
  assert (HW : 0 <= 800) by lra.
  assert (HH : 0 <= 600) by lra.
  refine (proj2 (frames_keep_particles_inside (fun _ => 1 / 2) Hrand 800 600
                   HW HH [CallUpdate; CallDraw; CallUpdate] _ _ _ _)).
  - constructor; [now left |]. constructor; [now right |].
    constructor; [now left | constructor].
  - unfold allInside. cbn [particles]. constructor; [| constructor].
    repeat split; simpl; lra.
Defined.

End BackgroundWitnesses.

(** ** Vector2 *)

Section Vector2Facts.
Import JS JSMath.

Lemma eqb_Fin_true (a b : R) : eqb (Fin a) (Fin b) = true <-> a = b.
Proof.
  unfold eqb. destruct (Req_dec_T a b); split; intros; try easy.
Qed.

Lemma eqb_Fin_false (a b : R) : eqb (Fin a) (Fin b) = false <-> a <> b.
Proof.
  unfold eqb. destruct (Req_dec_T a b); split; intros; try easy.
Qed.

Lemma orElse_zero_finite (a : number) :
  is_finite a -> orElse a (Fin 0) = a.
Proof.
  destruct a as [r | | |]; simpl; try contradiction. intros _.
  unfold orElse, truthy. destruct (Req_dec_T r 0) as [-> |]; reflexivity.
Qed.

Lemma orElse_zero_is_finite (a : number) :
  a <> PInf -> a <> NInf -> is_finite (orElse a (Fin 0)).
Proof.
  destruct a as [r | | |]; unfold orElse, truthy; intros H1 H2;
    try congruence; try exact I.
  destruct (Req_dec_T r 0); exact I.
Qed.

Lemma make_finite (a b : number) :
  is_finite a -> is_finite b -> Vector2.make a b = Vector2.mkVec a b.
Proof.
  intros Fa Fb. unfold Vector2.make.
  now rewrite (orElse_zero_finite a Fa), (orElse_zero_finite b Fb).
Qed.

Lemma mag_real (a b : R) :
  Vector2.mag (Vector2.mkVec (Fin a) (Fin b))
  = Fin (R_sqrt.sqrt (a * a + b * b)).
Proof. unfold Vector2.mag. cbn [Vector2.x Vector2.y]. apply sqrt_sum_squares. Qed.

Lemma normalize_real (a b : R) :
  Vector2.normalize (Vector2.mkVec (Fin a) (Fin b))
  = if Req_dec_T (R_sqrt.sqrt (a * a + b * b)) 0
    then Vector2.mkVec (Fin a) (Fin b)
    else Vector2.mkVec (Fin (a / R_sqrt.sqrt (a * a + b * b)))
                       (Fin (b / R_sqrt.sqrt (a * a + b * b))).
Proof.
  unfold Vector2.normalize. rewrite mag_real. unfold neqb.
  destruct (Req_dec_T (R_sqrt.sqrt (a * a + b * b)) 0) as [E | N].
  - now rewrite (proj2 (eqb_Fin_true _ _) E).
  - rewrite (proj2 (eqb_Fin_false _ _) N). cbn [negb].
    unfold Vector2.div. rewrite (proj2 (eqb_Fin_false _ _) N).
    cbn [Vector2.x Vector2.y]. now rewrite !div_Fin.
Qed.

Lemma normalize_finite (v : Vector2.vec) :
  Vector2.finite v -> Vector2.finite (Vector2.normalize v).
Proof.
  destruct v as [vx vy]. intros [Fx Fy]. cbn [Vector2.x Vector2.y] in *.
  destruct (is_finite_inv _ Fx) as [a ->], (is_finite_inv _ Fy) as [b ->].
  rewrite normalize_real.
  destruct (Req_dec_T (R_sqrt.sqrt (a * a + b * b)) 0); split; exact I.
Qed.

Lemma ordinary_finite (a : number) : ordinary a -> is_finite a.
Proof. destruct a; simpl; auto. Qed.

Lemma ordinary_vec_finite (v : Vector2.vec) :
  Vector2.ordinary v -> Vector2.finite v.
Proof. intros [Hx Hy]. split; now apply ordinary_finite. Qed.

Lemma ordinary_small (r : R) : 1 <= Rabs r <= 4096 -> ordinary (Fin r).
Proof.
  intros Hr. right. pose proof tiny_small. pose proof huge_large. lra.
Qed.

(** normalize() in exact arithmetic. *)
Lemma normalize_real_unit_or_zero (v : Vector2.vec) :
  Vector2.finite v ->
  Vector2.finite (Vector2.normalize v) /\
  (Vector2.x v = Fin 0 /\ Vector2.y v = Fin 0 -> Vector2.normalize v = v) /\
  (~ (Vector2.x v = Fin 0 /\ Vector2.y v = Fin 0) ->
   Vector2.mag (Vector2.normalize v) = Fin 1).
Proof.
  destruct v as [vx vy]. intros [Fx Fy]. cbn [Vector2.x Vector2.y] in *.
  destruct (is_finite_inv _ Fx) as [a ->], (is_finite_inv _ Fy) as [b ->].
  rewrite normalize_real.
  set (m := R_sqrt.sqrt (a * a + b * b)).
  assert (Hm : 0 <= m) by apply sqrt_pos.
  assert (Hsq : m * m = a * a + b * b) by (apply sqrt_sqrt; nra).
  destruct (Req_dec_T m 0) as [E | N].
  - split; [split; exact I |]. split; [reflexivity |].
    intros Hnz. exfalso. apply Hnz.
    apply sqrt_sum_squares_zero in E. destruct E as [-> ->]. now split.
  - split; [split; exact I |]. split.
    + intros [[= ->] [= ->]]. exfalso. apply N. unfold m.
      replace (0 * 0 + 0 * 0) with 0 by ring. apply sqrt_0.
    + intros _. rewrite mag_real. f_equal.
      apply sqrt_of_square; [lra |].
      transitivity ((a * a + b * b) / (m * m)); [field; lra |].
      rewrite Hsq. field. nra.
Qed.

(** X9.  normalize() in exact arithmetic, for a vector whose components
    are zero or of a size between 2^-500 and 2^500: the zero vector is left
    as it is (no division by its length 0), any other vector becomes a
    vector of length 1. *)
Theorem normalize_unit_or_zero (v : Vector2.vec) :
  Vector2.ordinary v ->
  Vector2.finite (Vector2.normalize v) /\
  (Vector2.x v = Fin 0 /\ Vector2.y v = Fin 0 -> Vector2.normalize v = v) /\
  (~ (Vector2.x v = Fin 0 /\ Vector2.y v = Fin 0) ->
   Vector2.mag (Vector2.normalize v) = Fin 1).
Proof.
  intros Hv. apply normalize_real_unit_or_zero.
  now apply ordinary_vec_finite.
Qed.

Lemma normalize_unit_or_zero_witness :
  Vector2.mag (Vector2.normalize (Vector2.mkVec (Fin 3) (Fin 4))) = Fin 1.
Proof.
  refine (proj2 (proj2 (normalize_unit_or_zero
                          (Vector2.mkVec (Fin 3) (Fin 4)) _)) _).
  - split; apply ordinary_small; rewrite Rabs_right; lra.
  - intros [E _]. cbn in E. injection E as E. lra.
Defined.

(** limit(max) in exact arithmetic. *)
Lemma limit_real_length (v : Vector2.vec) (M : R) :
  Vector2.finite v -> 0 <= M ->
  exists len len',
    Vector2.mag v = Fin len /\
    Vector2.mag (Vector2.limit v (Fin M)) = Fin len' /\
    len' = Rmin len M /\
    (len <= M -> Vector2.limit v (Fin M) = v).
Proof.
  destruct v as [vx vy]. intros [Fx Fy] HM. cbn [Vector2.x Vector2.y] in *.
  destruct (is_finite_inv _ Fx) as [a ->], (is_finite_inv _ Fy) as [b ->].
  set (m := R_sqrt.sqrt (a * a + b * b)).
  assert (Hm : 0 <= m) by apply sqrt_pos.
  assert (Hsq : m * m = a * a + b * b) by (apply sqrt_sqrt; nra).
  exists m. unfold Vector2.limit. rewrite mag_real. fold m. unfold gt.
  destruct (Rlt_dec M m) as [Hlt | Hge].
  - rewrite (proj2 (lt_Fin_true M m) Hlt). rewrite normalize_real. fold m.
    destruct (Req_dec_T m 0) as [E | N]; [lra |].
    exists M. unfold Vector2.mult. cbn [Vector2.x Vector2.y JS.mul].
    split; [reflexivity |]. split.
    + rewrite mag_real. f_equal. apply sqrt_of_square; [exact HM |].
      transitivity (M * M * ((a * a + b * b) / (m * m))); [field; lra |].
      rewrite Hsq. field. nra.
    + split; [| lra]. unfold Rmin. destruct (Rle_dec m M); lra.
  - assert (Hle : m <= M) by lra.
    rewrite (proj2 (lt_Fin_false M m) Hle).
    exists m. rewrite mag_real. fold m.
    split; [reflexivity |]. split; [reflexivity |].
    split; [| reflexivity]. unfold Rmin. destruct (Rle_dec m M); lra.
Qed.

(** X10.  limit(max) in exact arithmetic, for a vector whose components
    are zero or of a size between 2^-500 and 2^500 and a [max] that is
    zero or between 2^-500 and 2^500: the length of the result is the
    smaller of the length and [max], and a vector that already is no
    longer than [max] is left as it is. *)
Theorem limit_bounds_length (v : Vector2.vec) (M : R) :
  Vector2.ordinary v -> M = 0 \/ tiny <= M <= huge ->
  exists len len',
    Vector2.mag v = Fin len /\
    Vector2.mag (Vector2.limit v (Fin M)) = Fin len' /\
    len' = Rmin len M /\
    (len <= M -> Vector2.limit v (Fin M) = v).
Proof.
  intros Hv HM. apply limit_real_length.
  - now apply ordinary_vec_finite.
  - pose proof tiny_pos. lra.
Qed.

Lemma limit_bounds_length_witness :
  exists len len',
    Vector2.mag (Vector2.mkVec (Fin 3) (Fin 4)) = Fin len /\
    Vector2.mag (Vector2.limit (Vector2.mkVec (Fin 3) (Fin 4)) (Fin 2))
    = Fin len' /\
    len' = Rmin len 2.
Proof.
  assert (Hf : Vector2.ordinary (Vector2.mkVec (Fin 3) (Fin 4)))
    by (split; apply ordinary_small; rewrite Rabs_right; lra).
  assert (HM : 2 = 0 \/ tiny <= 2 <= huge)
    by (right; pose proof tiny_small; pose proof huge_large; lra).
  destruct (limit_bounds_length (Vector2.mkVec (Fin 3) (Fin 4)) 2 Hf HM)
    as (len & len' & E1 & E2 & E3 & _).
  exists len, len'. now repeat split.
Defined.

End Vector2Facts.

(** ** NeuralNode.update and the pointer handed to it *)

Section NeuralNodeFacts.
Import JS JSMath NeuralNode.

Lemma add_finite (a b : number) :
  is_finite a -> is_finite b -> is_finite (add a b).
Proof. destruct a, b; simpl; tauto. Qed.

Lemma sub_finite (a b : number) :
  is_finite a -> is_finite b -> is_finite (sub a b).
Proof. destruct a, b; simpl; tauto. Qed.

Lemma mul_finite (a b : number) :
  is_finite a -> is_finite b -> is_finite (mul a b).
Proof. destruct a, b; simpl; tauto. Qed.

Lemma vadd_finite (v u : Vector2.vec) :
  Vector2.finite v -> Vector2.finite u -> Vector2.finite (Vector2.add v u).
Proof. intros [? ?] [? ?]. split; now apply add_finite. Qed.

Lemma vmult_finite (v : Vector2.vec) (s : number) :
  Vector2.finite v -> is_finite s -> Vector2.finite (Vector2.mult v s).
Proof. intros [? ?] ?. split; now apply mul_finite. Qed.

Lemma vmake_finite (a b : number) :
  is_finite a -> is_finite b -> Vector2.finite (Vector2.make a b).
Proof. intros Fa Fb. now rewrite (make_finite a b Fa Fb). Qed.

Lemma vdist_finite (v u : Vector2.vec) :
  Vector2.finite v -> Vector2.finite u ->
  exists d, Vector2.dist v u = Fin d /\ 0 <= d.
Proof.
  destruct v as [vx vy], u as [ux uy]. intros [Fvx Fvy] [Fux Fuy].
  cbn [Vector2.x Vector2.y] in *.
  destruct (is_finite_inv _ Fvx) as [a ->], (is_finite_inv _ Fvy) as [b ->].
  destruct (is_finite_inv _ Fux) as [c ->], (is_finite_inv _ Fuy) as [d ->].
  unfold Vector2.dist. cbn [Vector2.x Vector2.y].
  rewrite !sub_Fin, sqrt_sum_squares. eexists. split; [reflexivity |].
  apply sqrt_pos.
Qed.

Lemma min_finite (a b : number) :
  is_finite a -> is_finite b -> is_finite (min a b).
Proof.
  destruct a as [r | | |], b as [s | | |]; try (simpl; tauto). intros _ _.
  unfold min. destruct (lt (Fin s) (Fin r)); exact I.
Qed.

Lemma max_finite (a b : number) :
  is_finite a -> is_finite b -> is_finite (max a b).
Proof.
  destruct a as [r | | |], b as [s | | |]; try (simpl; tauto). intros _ _.
  unfold max. destruct (lt (Fin r) (Fin s)); exact I.
Qed.

Lemma repulse_finite (mousePos : Vector2.vec) (n : node) :
  finiteNode n -> Vector2.finite mousePos ->
  finiteNode (repulse mousePos n) /\
  pos (repulse mousePos n) = pos n /\ vel (repulse mousePos n) = vel n /\
  basePos (repulse mousePos n) = basePos n /\
  baseRadius (repulse mousePos n) = baseRadius n.
Proof.
  intros (Fb & Fp & Fv & Fa & Fact & Fr) [Fmx Fmy]. unfold repulse.
  assert (Fm : Vector2.finite
                 (Vector2.make (Vector2.x mousePos) (Vector2.y mousePos)))
    by now apply vmake_finite.
  destruct (vdist_finite (pos n) _ Fp Fm) as (d & Ed & Hd).
  rewrite Ed. unfold mouseRadius.
  destruct (lt (Fin d) (Fin 250)).
  - assert (Facc : Vector2.finite
                     (Vector2.add (acc n)
                        (Vector2.mult
                           (Vector2.normalize
                              (Vector2.difference (pos n)
                                 (Vector2.make (Vector2.x mousePos)
                                               (Vector2.y mousePos))))
                           (mul (mul (div (sub (Fin 250) (Fin d)) (Fin 250))
                                     mouseForce) (Fin 5))))).
    { apply vadd_finite; [exact Fa |].
      apply vmult_finite.
      - apply normalize_finite. unfold Vector2.difference.
        destruct Fp as [Fpx Fpy], Fm as [Fqx Fqy].
        apply vmake_finite; now apply sub_finite.
      - rewrite sub_Fin, div_Fin by lra. exact I. }
    cbn [activate setActivation setAcc basePos pos vel acc activation
         baseRadius].
    split; [| repeat split].
    split; [exact Fb |]. split; [exact Fp |]. split; [exact Fv |].
    split; [exact Facc |]. split; [| exact Fr].
    apply min_finite; [| exact I]. now apply add_finite.
  - split; [| repeat split].
    exact (conj Fb (conj Fp (conj Fv (conj Fa (conj Fact Fr))))).
Qed.

(** X11.  update() keeps a node's position, velocity and activation real
    numbers, whatever the pointer does: also when the pointer is exactly
    at the node, since normalize() does not divide by a zero length.  The
    acceleration is (0, 0) after every update. *)
Theorem update_keeps_node_real
  (isActive : bool) (mousePos : Vector2.vec) (n : node) :
  finiteNode n -> Vector2.finite mousePos ->
  finiteNode (update isActive mousePos n) /\
  acc (update isActive mousePos n) = Vector2.mkVec (Fin 0) (Fin 0) /\
  basePos (update isActive mousePos n) = basePos n.
Proof.
  intros Hn Hm.
  assert (Hn1 : finiteNode
                  (setAcc n
                     (Vector2.add (acc n)
                        (Vector2.mult
                           (Vector2.make
                              (sub (Vector2.x (basePos n)) (Vector2.x (pos n)))
                              (sub (Vector2.y (basePos n)) (Vector2.y (pos n))))
                           (mul floatSpeed (Fin (1/10))))))).
  { destruct Hn as (Fb & Fp & Fv & Fa & Fact & Fr).
    repeat split; cbn [setAcc basePos pos vel acc activation baseRadius];
      try assumption; try (apply Fb); try (apply Fp); try (apply Fv);
      (apply vadd_finite; [exact Fa |]);
      (apply vmult_finite; [| exact I]);
      destruct Fb as [Fbx Fby], Fp as [Fpx Fpy];
      apply vmake_finite; now apply sub_finite. }
  unfold update.
  set (n1 := setAcc n _) in *.
  assert (Hn2 : finiteNode (if isActive then repulse mousePos n1 else n1) /\
                basePos (if isActive then repulse mousePos n1 else n1)
                = basePos n).
  { destruct isActive; [| now split].
    destruct (repulse_finite mousePos n1 Hn1 Hm) as (F & _ & _ & Eb & _).
    split; [exact F | now rewrite Eb]. }
  destruct Hn2 as [(Fb & Fp & Fv & Fa & Fact & Fr) Eb].
  set (n2 := if isActive then repulse mousePos n1 else n1) in *.
  cbn [basePos pos vel acc activation baseRadius].
  assert (Fv1 : Vector2.finite
                  (Vector2.mult (Vector2.add (vel n2) (acc n2))
                                (Fin (92/100)))).
  { apply vmult_finite; [| exact I]. now apply vadd_finite. }
  split; [| split; [| exact Eb]].
  - repeat split; try (apply Fb); try (apply Fv1); try assumption.
    + apply add_finite; [apply Fp | apply Fv1].
    + apply add_finite; [apply Fp | apply Fv1].
    + apply mul_finite; [apply Fa | exact I].
    + apply mul_finite; [apply Fa | exact I].
    + apply max_finite; [| exact I]. now apply sub_finite.
  - destruct Fa as [Fax Fay]. unfold Vector2.mult.
    destruct (is_finite_inv _ Fax) as [a ->], (is_finite_inv _ Fay) as [b ->].
    simpl. f_equal; f_equal; ring.
Qed.

End NeuralNodeFacts.

Section NeuralNodeMore.
Import JS JSMath NeuralNode.

Lemma nodeAt_finite (ox oy a : R) : finiteNode (nodeAt ox oy a).
Proof. repeat split. Qed.

Lemma update_keeps_node_real_witness :
  finiteNode (update true (Vector2.mkVec (Fin 10) (Fin 20)) (nodeAt 10 20 0)).
Proof.
  refine (proj1 (update_keeps_node_real true (Vector2.mkVec (Fin 10) (Fin 20))
                   (nodeAt 10 20 0) (nodeAt_finite 10 20 0) _)).
  split; exact I.
Defined.

Lemma repulse_activation (mousePos : Vector2.vec) (n : node) :
  activation (repulse mousePos n) = activation n \/
  activation (repulse mousePos n)
  = min (add (activation n) (Fin (1/100))) (Fin 1).
Proof.
  unfold repulse. destruct (lt _ mouseRadius); [right | left]; reflexivity.
Qed.

Lemma repulse_baseRadius (mousePos : Vector2.vec) (n : node) :
  baseRadius (repulse mousePos n) = baseRadius n.
Proof. unfold repulse. now destruct (lt _ mouseRadius). Qed.

Lemma min_Fin (a b : R) : min (Fin a) (Fin b) = Fin (Rmin a b).
Proof.
  unfold min, lt, Rmin.
  destruct (Rlt_dec b a), (Rle_dec a b); try reflexivity; f_equal; lra.
Qed.

Lemma max_Fin (a b : R) : max (Fin a) (Fin b) = Fin (Rmax a b).
Proof.
  unfold max, lt, Rmax.
  destruct (Rlt_dec a b), (Rle_dec a b); try reflexivity; f_equal; lra.
Qed.

(** X12.  update() never raises the activation of a node: with an activation
    [a] in [0, 1] before, the activation after is in [0, a]: the
    0.01 that hovering adds is taken away again in the same call.  The
    radius follows: baseRadius + 5 * activation. *)
Theorem update_never_raises_activation
  (isActive : bool) (mousePos : Vector2.vec) (n : node) (a : R) :
  activation n = Fin a -> 0 <= a <= 1 ->
  exists a',
    activation (update isActive mousePos n) = Fin a' /\
    0 <= a' <= a /\
    (a' = Rmax (a - 1/100) 0 \/ a' = Rmax (Rmin (a + 1/100) 1 - 1/100) 0) /\
    radius (update isActive mousePos n)
    = add (baseRadius n) (Fin (a' * 5)).
Proof.
  intros Ea Ha. unfold update.
  set (n1 := setAcc n _).
  assert (E1 : activation n1 = Fin a) by exact Ea.
  assert (B1 : baseRadius n1 = baseRadius n) by reflexivity.
  set (n2 := if isActive then repulse mousePos n1 else n1).
  assert (E2 : activation n2 = Fin a \/
               activation n2 = Fin (Rmin (a + 1/100) 1)).
  { unfold n2. destruct isActive; [| now left].
    destruct (repulse_activation mousePos n1) as [E | E]; rewrite E, E1.
    - now left.
    - right. simpl add. apply min_Fin. }
  assert (B2 : baseRadius n2 = baseRadius n).
  { unfold n2. destruct isActive; [| exact B1].
    now rewrite repulse_baseRadius. }
  cbn [activation radius]. rewrite B2.
  destruct E2 as [E2 | E2]; rewrite E2, sub_Fin, max_Fin.
  - exists (Rmax (a - 1/100) 0). split; [reflexivity |]. split.
    + unfold Rmax. destruct (Rle_dec (a - 1/100) 0); lra.
    + split; [now left | reflexivity].
  - exists (Rmax (Rmin (a + 1/100) 1 - 1/100) 0). split; [reflexivity |].
    split.
    + unfold Rmax, Rmin.
      destruct (Rle_dec (a + 1/100) 1);
        destruct (Rle_dec _ 0); lra.
    + split; [now right | reflexivity].
Qed.

Lemma update_never_raises_activation_witness :
  exists a',
    activation (update true (Vector2.mkVec (Fin 10) (Fin 20))
                       (nodeAt 10 20 (1/2))) = Fin a' /\
    0 <= a' <= 1/2.
Proof.
  assert (Ha : 0 <= 1/2 <= 1) by lra.
  destruct (update_never_raises_activation true
              (Vector2.mkVec (Fin 10) (Fin 20)) (nodeAt 10 20 (1/2)) (1/2)
              eq_refl Ha) as (a' & E & Hr & _).
  exists a'. now split.
Defined.

(** X13.  Without the pointer a node at rest at its base position stays at
    rest there. *)
Theorem node_at_rest_stays (mousePos : Vector2.vec) (n : node) (ox oy : R) :
  basePos n = Vector2.mkVec (Fin ox) (Fin oy) ->
  pos n = Vector2.mkVec (Fin ox) (Fin oy) ->
  vel n = Vector2.mkVec (Fin 0) (Fin 0) ->
  acc n = Vector2.mkVec (Fin 0) (Fin 0) ->
  pos (update false mousePos n) = pos n /\
  vel (update false mousePos n) = vel n /\
  acc (update false mousePos n) = acc n.
Proof.
  intros Eb Ep Ev Ea. unfold update. cbn [pos vel acc setAcc].
  rewrite Eb, Ep, Ev, Ea. cbn [Vector2.x Vector2.y].
  rewrite !sub_Fin.
  rewrite make_finite by exact I.
  unfold Vector2.mult, Vector2.add, floatSpeed.
  cbn [Vector2.x Vector2.y add mul].
  repeat split; f_equal; f_equal; field.
Qed.

Lemma node_at_rest_stays_witness :
  pos (update false (Vector2.mkVec (Fin 0) (Fin 0)) (nodeAt 10 20 0))
  = pos (nodeAt 10 20 0).
Proof.
  exact (proj1 (node_at_rest_stays (Vector2.mkVec (Fin 0) (Fin 0))
                  (nodeAt 10 20 0) 10 20 eq_refl eq_refl eq_refl eq_refl)).
Defined.

End NeuralNodeMore.

Section LocalMouse.
Import JS JSMath NeuralNode.

Lemma le_Fin_true (a b : R) : le (Fin a) (Fin b) = true <-> a <= b.
Proof.
  unfold le. rewrite orb_true_iff, lt_Fin_true, eqb_Fin_true. lra.
Qed.

Lemma ge_Fin_true (a b : R) : ge (Fin a) (Fin b) = true <-> b <= a.
Proof. unfold ge. apply le_Fin_true. Qed.

(** X14.  The pointer handed to the nodes is the far-away position
    (-9999, -9999) unless the pointer is active and over the canvas
    rectangle (borders included); then it is the pointer relative to the
    rectangle's corner, a point of [0, width] x [0, height].  It is the
    far-away position after handleTouchEnd(), whatever the rectangle. *)
Theorem localMouse_far_or_on_canvas
  (m : Background.pointer) (r : rect) (px py l t rr b : R) :
  Background.mouse_x m = Fin px -> Background.mouse_y m = Fin py ->
  left r = Fin l -> top r = Fin t -> right r = Fin rr -> bottom r = Fin b ->
  (localMouse m r = Vector2.mkVec (Fin (-9999)) (Fin (-9999)) /\
   (Background.isActive m = false \/
    ~ (l <= px <= rr /\ t <= py <= b))) \/
  (Background.isActive m = true /\ l <= px <= rr /\ t <= py <= b /\
   localMouse m r = Vector2.mkVec (Fin (px - l)) (Fin (py - t)) /\
   0 <= px - l <= rr - l /\ 0 <= py - t <= b - t).
Proof.
  intros Ex Ey El Et Er Eb. unfold localMouse.
  rewrite Ex, Ey, El, Et, Er, Eb.
  assert (Hfar : Vector2.make (Fin (-9999)) (Fin (-9999))
                 = Vector2.mkVec (Fin (-9999)) (Fin (-9999)))
    by (apply make_finite; exact I).
  destruct (Background.isActive m); cbn [andb];
    [| left; split; [exact Hfar | now left]].
  destruct (ge (Fin px) (Fin l)) eqn:G1; cbn [andb].
  2:{ left. split; [exact Hfar |]. right. intros [[H1 _] _].
      apply ge_Fin_true in H1. congruence. }
  destruct (le (Fin px) (Fin rr)) eqn:G2; cbn [andb].
  2:{ left. split; [exact Hfar |]. right. intros [[_ H1] _].
      apply le_Fin_true in H1. congruence. }
  destruct (ge (Fin py) (Fin t)) eqn:G3; cbn [andb].
  2:{ left. split; [exact Hfar |]. right. intros [_ [H1 _]].
      apply ge_Fin_true in H1. congruence. }
  destruct (le (Fin py) (Fin b)) eqn:G4.
  2:{ left. split; [exact Hfar |]. right. intros [_ [_ H1]].
      apply le_Fin_true in H1. congruence. }
  apply ge_Fin_true in G1, G3. apply le_Fin_true in G2, G4.
  right. rewrite !sub_Fin, make_finite by exact I.
  repeat split; lra.
Qed.

Lemma localMouse_far_or_on_canvas_witness :
  localMouse (Background.handleTouchEnd Background.initialPointer)
             {| left := Fin 0; top := Fin 0; right := Fin 800;
                bottom := Fin 600 |}
  = Vector2.mkVec (Fin (-9999)) (Fin (-9999)).
Proof.
  destruct (localMouse_far_or_on_canvas
              (Background.handleTouchEnd Background.initialPointer)
              {| left := Fin 0; top := Fin 0; right := Fin 800;
                 bottom := Fin 600 |}
              (-9999) (-9999) 0 0 800 600
              eq_refl eq_refl eq_refl eq_refl eq_refl eq_refl)
    as [[E _] | (Hact & _)].
  - exact E.
  - discriminate Hact.
Defined.

End LocalMouse.

(** ** Utils *)

Section UtilsFacts.
Import JS JSMath.

Variable rand : nat -> R.
Hypothesis rand_range : forall k, 0 <= rand k < 1.

(** X15.  Utils.random(min, max) for real [min <= max] lies in [min, max], and
    below [max] when [min < max]. *)
Theorem random_in_range (k : nat) (a b : R) :
  a <= b ->
  exists r, Utils.random rand k (Fin a) (Fin b) = Fin r /\
            a <= r <= b /\ (a < b -> r < b).
Proof.
  intros Hab. pose proof (rand_range k) as Hk.
  exists (rand k * (b - a) + a). split; [reflexivity |].
  split; [split; nra | intros; nra].
Qed.

End UtilsFacts.

Section UtilsWitnesses.
Import JS JSMath.

Lemma random_in_range_witness :
  exists r, Utils.random (fun _ => 1 / 2) 0 (Fin (-30)) (Fin 30) = Fin r /\
            -30 <= r <= 30.
Proof.
  assert (Hrand : forall k : nat, 0 <= (fun _ : nat => 1 / 2) k < 1)
    by (intros k; cbv beta; lra).
  assert (Hab : -30 <= 30) by lra.
  destruct (random_in_range (fun _ => 1 / 2) Hrand 0 (-30) 30 Hab)
    as (r & E & Hr & _).
  exists r. now split.
Defined.

(** X17.  Utils.lerp(start, end, amt) on reals: [start] at 0, [end] at 1, and
    between the two for an amount in [0, 1]. *)
Theorem lerp_between (s e t : R) :
  Utils.lerp (Fin s) (Fin e) (Fin 0) = Fin s /\
  Utils.lerp (Fin s) (Fin e) (Fin 1) = Fin e /\
  (0 <= t <= 1 ->
   exists v, Utils.lerp (Fin s) (Fin e) (Fin t) = Fin v /\
             Rmin s e <= v <= Rmax s e).
Proof.
  unfold Utils.lerp. cbn [add mul sub opp].
  split; [f_equal; ring |]. split; [f_equal; ring |].
  intros Ht. eexists. split; [reflexivity |].
  unfold Rmin, Rmax. destruct (Rle_dec s e); split; nra.
Qed.

(** X18.  Utils.map and Utils.mapRange on reals: with distinct input bounds the
    input bounds are sent to the output bounds; with equal input bounds
    (a division by zero) the result is never a real number. *)
Theorem map_bounds_and_degenerate (v a b c d : R) :
  (a <> b ->
   Utils.map (Fin a) (Fin a) (Fin b) (Fin c) (Fin d) = Fin c /\
   Utils.map (Fin b) (Fin a) (Fin b) (Fin c) (Fin d) = Fin d /\
   Utils.mapRange (Fin a) (Fin a) (Fin b) (Fin c) (Fin d) = Fin c /\
   Utils.mapRange (Fin b) (Fin a) (Fin b) (Fin c) (Fin d) = Fin d) /\
  ~ is_finite (Utils.map (Fin v) (Fin a) (Fin a) (Fin c) (Fin d)) /\
  ~ is_finite (Utils.mapRange (Fin v) (Fin a) (Fin a) (Fin c) (Fin d)).
Proof.
  split; [| split].
  - intros Hab. unfold Utils.map, Utils.mapRange. rewrite !sub_Fin.
    cbn [mul]. rewrite !div_Fin by lra. cbn [mul add].
    repeat split; f_equal; field; lra.
  - unfold Utils.map. rewrite !sub_Fin.
    replace (a - a) with 0 by ring. unfold div.
    destruct (Req_dec_T 0 0) as [_ | N]; [| now elim N].
    destruct (Req_dec_T (v - a) 0); [simpl; tauto |].
    unfold inf_signed. destruct (is_neg (v - a)); cbn [mul];
      destruct (Req_dec_T (d - c) 0); cbn; try tauto;
      destruct (is_neg (d - c)); cbn; tauto.
  - unfold Utils.mapRange. rewrite !sub_Fin. cbn [mul].
    replace (a - a) with 0 by ring. unfold div.
    destruct (Req_dec_T 0 0) as [_ | N]; [| now elim N].
    destruct (Req_dec_T ((v - a) * (d - c)) 0); [simpl; tauto |].
    unfold inf_signed. destruct (is_neg _); cbn; tauto.
Qed.

Lemma map_bounds_and_degenerate_witness :
  Utils.map (Fin 0) (Fin 0) (Fin 10) (Fin 100) (Fin 200) = Fin 100 /\
  Utils.map (Fin 10) (Fin 0) (Fin 10) (Fin 100) (Fin 200) = Fin 200.
Proof.
  assert (H : 0 <> 10) by lra.
  destruct (proj1 (map_bounds_and_degenerate 5 0 10 100 200) H)
    as (E1 & E2 & _).
  now split.
Defined.

End UtilsWitnesses.

(** ** EventManager *)

Section EventsFacts.
Import JS Events.

Lemma filter_out_absent (cb : nat) (cbs : list nat) :
  ~ In cb cbs -> filter (fun c => negb (Nat.eqb c cb)) cbs = cbs.
Proof.
  induction cbs as [| c rest IH]; intros Hn; [reflexivity |].
  simpl. destruct (Nat.eqb_spec c cb) as [-> | Hne].
  - exfalso. apply Hn. now left.
  - simpl. f_equal. apply IH. intros Hin. apply Hn. now right.
Qed.

Lemma on_ok (e : string) (cb : nat) (reg : registry) :
  inherited e = false ->
  exists added,
    on e cb reg = Ok added /\
    callbacks e added = callbacks e reg ++ [cb] /\
    (forall e', e' <> e -> callbacks e' added = callbacks e' reg).
Proof.
  intros He. unfold on. rewrite He. eexists. split; [reflexivity |].
  unfold callbacks. split.
  - rewrite String.eqb_refl. now destruct (reg e).
  - intros e' Hne. now rewrite (proj2 (String.eqb_neq e' e) Hne).
Qed.

Lemma off_ok (e : string) (cb : nat) (reg : registry) :
  inherited e = false ->
  exists removed,
    off e cb reg = Ok removed /\
    callbacks e removed
    = filter (fun c => negb (Nat.eqb c cb)) (callbacks e reg) /\
    (forall e', e' <> e -> callbacks e' removed = callbacks e' reg).
Proof.
  intros He. unfold off. rewrite He. eexists. split; [reflexivity |].
  unfold callbacks. split.
  - rewrite String.eqb_refl. now destruct (reg e).
  - intros e' Hne. now rewrite (proj2 (String.eqb_neq e' e) Hne).
Qed.

Lemma filter_out_gone (cb : nat) (cbs : list nat) :
  ~ In cb (filter (fun c => negb (Nat.eqb c cb)) cbs).
Proof.
  intros Hin. apply filter_In in Hin.
  destruct Hin as [_ Hneq]. now rewrite Nat.eqb_refl in Hneq.
Qed.

(** X19.  For an event name that Object.prototype does not hold:
    off(event, callback) takes every subscription of the callback to the
    event away, however often it was subscribed, keeps the other callbacks
    of the event in their order and leaves the other events alone; a
    callback subscribed with on() is called last by emit(), and a
    callback subscribed twice is gone after one off(), which gives back
    the callbacks there were when the callback was new.  For a name that Object.prototype holds, on(), emit() and
    off() all throw. *)
Theorem off_removes_every_subscription
  (e : string) (cb : nat) (reg : registry) :
  inherited e = false ->
  (exists removed added,
      off e cb reg = Ok removed /\ on e cb reg = Ok added /\
      emit e removed
      = Ok (filter (fun c => negb (Nat.eqb c cb)) (callbacks e reg)) /\
      ~ In cb (callbacks e removed) /\
      (forall c, c <> cb ->
                 (In c (callbacks e removed) <-> In c (callbacks e reg))) /\
      (forall e', e' <> e -> callbacks e' removed = callbacks e' reg) /\
      emit e added = Ok (callbacks e reg ++ [cb]) /\
      (forall e', e' <> e -> callbacks e' added = callbacks e' reg) /\
      exists twice back,
        on e cb added = Ok twice /\ off e cb twice = Ok back /\
        ~ In cb (callbacks e back) /\
        (~ In cb (callbacks e reg) -> callbacks e back = callbacks e reg)) /\
  (forall e', inherited e' = true ->
              (exists m, on e' cb reg = Throw m) /\
              (exists m, emit e' reg = Throw m) /\
              (exists m, off e' cb reg = Throw m)).
Proof.
  intros He. split.
  - destruct (off_ok e cb reg He) as (removed & Eoff & Hsame & Hother).
    destruct (on_ok e cb reg He) as (added & Eon & Hadd & Hadd').
    destruct (on_ok e cb added He) as (twice & Eon2 & Hadd2 & _).
    destruct (off_ok e cb twice He) as (back & Eoff2 & Hback & _).
    exists removed, added.
    split; [exact Eoff |]. split; [exact Eon |].
    unfold emit. rewrite He, Hsame, Hadd.
    split; [reflexivity |].
    split; [apply filter_out_gone |].
    split.
    { intros c Hc. rewrite filter_In. split.
      - now intros [Hin _].
      - intros Hin. split; [exact Hin |].
        now rewrite (proj2 (Nat.eqb_neq c cb) Hc). }
    split; [exact Hother |].
    split; [reflexivity |].
    split; [exact Hadd' |].
    exists twice, back.
    split; [exact Eon2 |]. split; [exact Eoff2 |].
    rewrite Hback, Hadd2, Hadd. split; [apply filter_out_gone |].
    intros Hn. rewrite !filter_app, (filter_out_absent cb _ Hn).
    simpl. rewrite Nat.eqb_refl. simpl. now rewrite !app_nil_r.
  - intros e' Hi. unfold on, emit, off. rewrite Hi.
    repeat split; eexists; reflexivity.
Qed.

Lemma off_removes_every_subscription_witness :
  exists removed,
    off "resize" 1%nat
        (fun e => if String.eqb e "resize"
                  then Some [1%nat; 2%nat; 1%nat] else None) = Ok removed /\
    emit "resize" removed = Ok [2%nat].
Proof.
  destruct (proj1 (off_removes_every_subscription "resize" 1%nat
                     (fun e => if String.eqb e "resize"
                               then Some [1%nat; 2%nat; 1%nat] else None)
                     eq_refl))
    as (removed & _ & E & _ & Hemit & _).
  exists removed. split; [exact E |]. exact Hemit.
Defined.

(** emit() of an event nobody subscribed to calls nothing. *)
Lemma emit_unknown (e : string) :
  inherited e = false -> emit e empty = Ok [].
Proof. intros He. unfold emit. now rewrite He. Qed.

End EventsFacts.

(** ** The typing animation *)

Section TypingFacts.
Import JS Typing.

Variable rs : list string.

Lemma calls_S (n : nat) (st : state) :
  calls rs (S n) st
  = match typeEffect rs true st with
    | Throw e => Throw e
    | Ok (st1, text, _) =>
        match calls rs n st1 with
        | Throw e => Throw e
        | Ok (st2, texts) => Ok (st2, text :: texts)
        end
    end.
Proof. reflexivity. Qed.

(** While typing: from [c] characters, [L - c] calls bring the index to
    the length [L] and switch to deleting, showing the prefixes of lengths
    [c .. L - 1]. *)
Lemma typing_phase (r : nat) (role : string) (k : nat) :
  nth_error rs r = Some role ->
  forall c : nat,
    (c + S k = String.length role)%nat ->
    calls rs (S k) {| roleIndex := r; charIndex := Z.of_nat c;
                      isDeleting := false |}
    = Ok ({| roleIndex := r;
             charIndex := Z.of_nat (String.length role);
             isDeleting := true |},
          map (fun n => prefix role (Z.of_nat n)) (seq c (S k))).
Proof.
  intros Hr. induction k as [| k IH]; intros c Hc.
  - cbn [calls]. unfold typeEffect. cbn [roleIndex charIndex isDeleting].
    rewrite Hr. cbn [negb andb].
    replace (Z.of_nat c + 1)%Z with (Z.of_nat (String.length role)) by lia.
    rewrite Z.eqb_refl. reflexivity.
  - rewrite calls_S. unfold typeEffect at 1.
    cbn [roleIndex charIndex isDeleting]. rewrite Hr. cbn [negb andb].
    assert (Hne : (Z.of_nat c + 1 =? Z.of_nat (String.length role))%Z = false)
      by (apply Z.eqb_neq; lia).
    rewrite Hne.
    replace (Z.of_nat c + 1)%Z with (Z.of_nat (S c)) by lia.
    rewrite (IH (S c)) by lia. reflexivity.
Qed.

(** While deleting: from [c >= 1] characters, [c] calls bring the index to
    0 and move to the next role, showing the prefixes of lengths
    [c, c - 1, .., 1]. *)
Lemma deleting_phase (r : nat) (role : string) :
  nth_error rs r = Some role ->
  forall c : nat,
    calls rs (S c) {| roleIndex := r; charIndex := Z.of_nat (S c);
                      isDeleting := true |}
    = Ok ({| roleIndex := (r + 1) mod List.length rs; charIndex := 0%Z;
             isDeleting := false |},
          map (fun n => prefix role (Z.of_nat n)) (rev (seq 1 (S c)))).
Proof.
  intros Hr. induction c as [| c IH].
  - cbn [calls]. unfold typeEffect. cbn [roleIndex charIndex isDeleting].
    rewrite Hr. cbn [negb andb]. reflexivity.
  - rewrite calls_S. unfold typeEffect at 1.
    cbn [roleIndex charIndex isDeleting]. rewrite Hr. cbn [negb andb].
    assert (Hne : (Z.of_nat (S (S c)) - 1 =? 0)%Z = false)
      by (apply Z.eqb_neq; lia).
    rewrite Hne.
    replace (Z.of_nat (S (S c)) - 1)%Z with (Z.of_nat (S c)) by lia.
    rewrite IH.
    replace (seq 1 (S (S c))) with (seq 1 (S c) ++ [S (S c)])
      by (rewrite (seq_S (S c) 1); reflexivity).
    rewrite rev_app_distr. reflexivity.
Qed.

Lemma calls_app (n m : nat) :
  forall st st1 st2 t1 t2,
    calls rs n st = Ok (st1, t1) ->
    calls rs m st1 = Ok (st2, t2) ->
    calls rs (n + m) st = Ok (st2, t1 ++ t2).
Proof.
  induction n as [| n IH]; intros st st1 st2 t1 t2 H1 H2.
  - cbn in H1. injection H1 as <- <-. exact H2.
  - cbn [Nat.add]. rewrite calls_S in *.
    destruct (typeEffect rs true st) as [[[sa text] delay] | e];
      [| discriminate].
    destruct (calls rs n sa) as [[sb texts] | e] eqn:E; [| discriminate].
    injection H1 as <- <-.
    now rewrite (IH sa sb st2 texts t2 E H2).
Qed.

(** X20.  One role takes twice its length in calls: from the start of a
    non-empty role, after [2 * length] calls of typeEffect() the globals
    are at the start of the next role (the first one after the last).
    The texts shown are the prefixes of lengths 0 .. length - 1 and then
    length .. 1: the full role is first shown by the first deleting call,
    and the empty text only at the start. *)
Theorem typeEffect_cycle (r : nat) (role : string) :
  nth_error rs r = Some role -> (1 <= String.length role)%nat ->
  calls rs (2 * String.length role)
        {| roleIndex := r; charIndex := 0%Z; isDeleting := false |}
  = Ok ({| roleIndex := (r + 1) mod List.length rs; charIndex := 0%Z;
           isDeleting := false |},
        map (fun n => prefix role (Z.of_nat n))
            (seq 0 (String.length role)
             ++ rev (seq 1 (String.length role)))).
Proof.
  intros Hr HL.
  destruct (String.length role) as [| L] eqn:EL; [lia |].
  replace (2 * S L)%nat with (S L + S L)%nat by lia.
  rewrite map_app.
  eapply calls_app.
  - pose proof (typing_phase r role L Hr 0%nat) as Ht.
    rewrite EL in Ht. apply Ht. lia.
  - apply (deleting_phase r role Hr L).
Qed.

End TypingFacts.

Section TypingWitness.
Import JS Typing.

Lemma typeEffect_cycle_witness :
  calls roles (2 * String.length "AI Developer")
        {| roleIndex := 1; charIndex := 0%Z; isDeleting := false |}
  = Ok ({| roleIndex := (1 + 1) mod List.length roles; charIndex := 0%Z;
           isDeleting := false |},
        map (fun n => prefix "AI Developer" (Z.of_nat n))
            (seq 0 (String.length "AI Developer")
             ++ rev (seq 1 (String.length "AI Developer")))).
Proof.
  apply (typeEffect_cycle roles 1 "AI Developer").
  - reflexivity.
  - cbn. lia.
Defined.

(** Without the [.typing-text] element the first call already throws. *)
Lemma typeEffect_without_element (rs : list string) (st : state) :
  exists e, typeEffect rs false st = Throw e.
Proof.
  unfold typeEffect. destruct (nth_error rs (roleIndex st)); cbn; eauto.
Qed.

End TypingWitness.

Section TypingEdge.
Import JS Typing.

(** X21.  An empty role is never left: [charIndex] is compared with the length
    by [===] after it was incremented, so from the start of an empty role
    every call shows the empty text and increments the index again. *)
Theorem typeEffect_empty_role_stuck (rs : list string) (r n : nat) :
  nth_error rs r = Some EmptyString ->
  forall c : nat,
    calls rs n {| roleIndex := r; charIndex := Z.of_nat c;
                  isDeleting := false |}
    = Ok ({| roleIndex := r; charIndex := Z.of_nat (c + n);
             isDeleting := false |}, repeat EmptyString n).
Proof.
  intros Hr. induction n as [| n IH]; intros c.
  - cbn. now rewrite Nat.add_0_r.
  - rewrite calls_S. unfold typeEffect at 1.
    cbn [roleIndex charIndex isDeleting]. rewrite Hr. cbn [negb andb].
    assert (Hne : (Z.of_nat c + 1 =? Z.of_nat (String.length ""))%Z = false)
      by (apply Z.eqb_neq; cbn; lia).
    rewrite Hne.
    replace (Z.of_nat c + 1)%Z with (Z.of_nat (S c)) by lia.
    rewrite (IH (S c)).
    replace (S c + n)%nat with (c + S n)%nat by lia.
    unfold prefix. now destruct (Z.to_nat (Z.of_nat c)).
Qed.

Lemma typeEffect_empty_role_stuck_witness :
  calls ["ab"; ""] 5 {| roleIndex := 1; charIndex := Z.of_nat 0;
                        isDeleting := false |}
  = Ok ({| roleIndex := 1; charIndex := Z.of_nat (0 + 5);
           isDeleting := false |}, repeat EmptyString 5).
Proof.
  exact (typeEffect_empty_role_stuck ["ab"; ""] 1 5 eq_refl 0).
Defined.

End TypingEdge.

(** ** The key buffer of SystemSecrets *)

Section SecretsFacts.
Import Secrets.

Lemma checkInput_fired (key : string) (buf : list string) :
  snd (checkInput key buf)
  = String.eqb (join (fst (checkInput key buf))) (join konamiCode).
Proof. reflexivity. Qed.

Lemma checkInput_suffix (key : string) (buf : list string) :
  (List.length buf <= 10)%nat ->
  exists dropped,
    buf ++ [key] = dropped ++ fst (checkInput key buf) /\
    List.length (fst (checkInput key buf))
    = Nat.min 10 (List.length buf + 1).
Proof.
  intros Hlen. unfold checkInput. cbn [fst].
  change (List.length konamiCode) with 10%nat.
  destruct (Nat.ltb_spec 10 (List.length (buf ++ [key]))) as [Hlt | Hge].
  - rewrite length_app in Hlt. cbn [List.length] in Hlt.
    destruct buf as [| b rest]; [cbn in Hlt; lia |].
    exists [b]. split; [reflexivity |].
    cbn [app tl]. rewrite length_app. cbn [List.length] in *. lia.
  - exists []. split; [reflexivity |].
    rewrite length_app in *. cbn [List.length] in *. lia.
Qed.

Lemma typeKeys_suffix (keys : list string) :
  forall buf,
    (List.length buf <= 10)%nat ->
    exists dropped,
      buf ++ keys = dropped ++ fst (typeKeys keys buf) /\
      List.length (fst (typeKeys keys buf))
      = Nat.min 10 (List.length buf + List.length keys).
Proof.
  induction keys as [| key rest IH]; intros buf Hlen.
  - exists []. cbn [typeKeys fst List.length app].
    rewrite app_nil_r, Nat.add_0_r. split; [reflexivity | lia].
  - cbn [typeKeys].
    destruct (checkInput_suffix key buf Hlen) as (d1 & E1 & L1).
    destruct (checkInput key buf) as [b1 fired]. cbn [fst] in *.
    assert (Hb1 : (List.length b1 <= 10)%nat) by lia.
    destruct (IH b1 Hb1) as (d2 & E2 & L2).
    destruct (typeKeys rest b1) as [final n]. cbn [fst] in *.
    exists (d1 ++ d2). split.
    + change (key :: rest) with ([key] ++ rest).
      now rewrite app_assoc, E1, <- !app_assoc, E2.
    + rewrite L2, L1. cbn [List.length]. lia.
Qed.

Lemma same_suffix (A : Type) (l1 l2 l3 l4 : list A) :
  l1 ++ l2 = l3 ++ l4 -> List.length l2 = List.length l4 -> l2 = l4.
Proof.
  intros E HL.
  assert (H13 : List.length l1 = List.length l3).
  { apply (f_equal (@List.length A)) in E. rewrite !length_app in E. lia. }
  apply (f_equal (skipn (List.length l1))) in E.
  rewrite skipn_app, skipn_all, Nat.sub_diag in E. cbn in E.
  rewrite H13, skipn_app, skipn_all, Nat.sub_diag in E. exact E.
Qed.

Lemma typeKeys_code (buf : list string) :
  (List.length buf <= 10)%nat ->
  fst (typeKeys konamiCode buf) = konamiCode.
Proof.
  intros Hlen.
  destruct (typeKeys_suffix konamiCode buf Hlen) as (d & E & L).
  symmetry. apply (same_suffix _ _ _ _ _ E).
  rewrite L. cbn [List.length konamiCode]. lia.
Qed.

Lemma last_key_completes (buf nine : list string) :
  (List.length buf <= 10)%nat ->
  nine ++ ["a"] = konamiCode ->
  checkInput "a" (fst (typeKeys nine buf)) = (konamiCode, true).
Proof.
  intros Hlen Hnine.
  assert (L9 : List.length nine = 9%nat).
  { apply (f_equal (@List.length string)) in Hnine.
    rewrite length_app in Hnine. cbn in Hnine. lia. }
  destruct (typeKeys_suffix nine buf Hlen) as (d1 & E1 & L1).
  set (b9 := fst (typeKeys nine buf)) in *.
  assert (Hb9 : (List.length b9 <= 10)%nat) by lia.
  destruct (checkInput_suffix "a" b9 Hb9) as (d2 & E2 & L2).
  assert (Hfinal : fst (checkInput "a" b9) = konamiCode).
  { symmetry. rewrite <- Hnine.
    apply (same_suffix _ buf _ (d1 ++ d2)).
    - now rewrite app_assoc, E1, <- !app_assoc, E2.
    - rewrite L2, L1, length_app, L9. cbn [List.length]. lia. }
  rewrite (surjective_pairing (checkInput "a" b9)).
  rewrite (checkInput_fired "a" b9), Hfinal.
  now rewrite String.eqb_refl.
Qed.

(** X22.  The buffer never holds more than ten keys, and whatever was typed
    before, after the ten keys of the code it holds exactly the code; the
    last of them calls activateGodMode(). *)
Theorem konami_code_fires (buf : list string) :
  (List.length buf <= 10)%nat ->
  (forall keys, (List.length (fst (typeKeys keys buf)) <= 10)%nat) /\
  fst (typeKeys konamiCode buf) = konamiCode /\
  (forall nine, nine ++ ["a"] = konamiCode ->
                checkInput "a" (fst (typeKeys nine buf)) = (konamiCode, true)).
Proof.
  intros Hlen. split; [| split].
  - intros keys. destruct (typeKeys_suffix keys buf Hlen) as (_ & _ & L). lia.
  - now apply typeKeys_code.
  - intros nine. now apply last_key_completes.
Qed.

Lemma konami_code_fires_witness :
  (List.length ["x"; "y"; "ArrowUp"] <= 10)%nat /\
  fst (typeKeys konamiCode ["x"; "y"; "ArrowUp"]) = konamiCode.
Proof.
  split; [cbn; lia |].
  refine (proj1 (proj2 (konami_code_fires ["x"; "y"; "ArrowUp"] _))).
  cbn. lia.
Defined.

Variable rand : nat -> R.

(** X23.  On a page without the canvas the key that completes the code makes
    the keydown listener throw: activateGodMode() reads [particles] of a
    NeuralCanvas whose constructor returned early. *)
Theorem konami_code_without_canvas_throws
  (buf nine : list string) (g : NeuralCanvas.world) :
  (List.length buf <= 10)%nat ->
  nine ++ ["a"] = konamiCode ->
  NeuralCanvas.canvas g = None ->
  keydown rand "a" (fst (typeKeys nine buf)) g
  = JS.Throw
      (JS.TypeError "Cannot read properties of undefined (reading 'forEach')").
Proof.
  intros Hlen Hnine Hc. unfold keydown.
  rewrite (last_key_completes buf nine Hlen Hnine).
  unfold NeuralCanvas.activateGodMode.
  rewrite (construct_without_canvas rand); [reflexivity |].
  cbn [NeuralCanvas.canvas].
  destruct (log_keeps "GOD MODE ACTIVATED" g) as (Ec & _).
  now rewrite Ec.
Qed.

(** X24.  With the canvas, activateGodMode() completes, but the NeuralCanvas it
    recolours is a new one: every particle it holds is magenta and was
    allocated by this call, two more listeners are registered and one more
    animation loop is started. *)
Theorem activateGodMode_recolors_new_particles
  (g : NeuralCanvas.world) (cw ch : JS.number) :
  NeuralCanvas.canvas g = Some (cw, ch) ->
  exists f g',
    NeuralCanvas.activateGodMode rand g = JS.Ok (NeuralCanvas.Ready f, g') /\
    Forall (fun p => NeuralCanvas.color p = "#ff00ff" /\
                     (NeuralCanvas.next_oid g <= NeuralCanvas.oid p)%nat)
           (NeuralCanvas.particles f) /\
    NeuralCanvas.listeners g'
    = NeuralCanvas.listeners g ++ ["resize"; "mousemove"] /\
    NeuralCanvas.frames g' = S (NeuralCanvas.frames g) /\
    NeuralCanvas.alerts g'
    = NeuralCanvas.alerts g ++ ["ACCESS GRANTED: SYSTEM OVERRIDE INITIATED."] /\
    NeuralCanvas.cssVars g'
    = NeuralCanvas.cssVars g ++ [("--accent-primary", "#ff00ff");
                                 ("--bg-deep", "#000000")].
Proof.
  destruct g as [c iw ih pc rm dm mx my dr no ls fr co al cs].
  cbn [NeuralCanvas.canvas NeuralCanvas.next_oid NeuralCanvas.listeners
       NeuralCanvas.frames NeuralCanvas.alerts NeuralCanvas.cssVars].
  intros ->.
  unfold NeuralCanvas.activateGodMode, NeuralCanvas.construct,
    NeuralCanvas.init.
  set (n := if JS.gt iw (JS.Fin 1000) then 120%nat else 60%nat).
  destruct rm, dm;
    cbn [NeuralCanvas.resize NeuralCanvas.createParticles NeuralCanvas.animate
         NeuralCanvas.log NeuralCanvas.addEventListener
         NeuralCanvas.requestFrame fst snd
         NeuralCanvas.width NeuralCanvas.height NeuralCanvas.particleCount
         NeuralCanvas.draws NeuralCanvas.next_oid NeuralCanvas.canvas_width
         NeuralCanvas.canvas_height NeuralCanvas.mouseRadius NeuralCanvas.ctx
         NeuralCanvas.connections NeuralCanvas.particles
         NeuralCanvas.innerWidth NeuralCanvas.innerHeight
         NeuralCanvas.reducedMotion NeuralCanvas.debugMode NeuralCanvas.canvas
         NeuralCanvas.listeners NeuralCanvas.frames NeuralCanvas.mouseX
         NeuralCanvas.mouseY NeuralCanvas.draw NeuralCanvas.setCtx
         NeuralCanvas.alerts NeuralCanvas.cssVars NeuralCanvas.console];
    fold n;
    eexists; eexists; (split; [reflexivity |]);
    rewrite ?particles_draw;
    cbn [NeuralCanvas.particles NeuralCanvas.setCtx NeuralCanvas.listeners
         NeuralCanvas.frames NeuralCanvas.alerts NeuralCanvas.cssVars
         NeuralCanvas.addEventListener NeuralCanvas.requestFrame];
    (split;
     [ apply Forall_forall; intros p Hp;
       apply in_map_iff in Hp; destruct Hp as (q & <- & Hq);
       (split; [reflexivity |]); cbn [NeuralCanvas.recolor NeuralCanvas.oid];
       try (apply in_map_iff in Hq; destruct Hq as (q0 & <- & Hq);
            rewrite (proj1 (updateParticle_keeps _ _ _ _ _ q0)));
       match goal with
       | Hin : In ?r (NeuralCanvas.pushParticles _ _ _ _ _ _) |- _ =>
           apply pushParticles_oid in Hin; lia
       end |]);
    (split; [now rewrite <- ?app_assoc |]);
    (split; [reflexivity |]);
    split; reflexivity.
Qed.

End SecretsFacts.

Section SecretsWitnesses.
Import JS Secrets.

Lemma konami_code_without_canvas_throws_witness :
  keydown (fun _ => 1 / 2) "a"
    (fst (typeKeys ["ArrowUp"; "ArrowUp"; "ArrowDown"; "ArrowDown";
                    "ArrowLeft"; "ArrowRight"; "ArrowLeft"; "ArrowRight";
                    "b"] []))
    (NeuralCanvas.pageWithoutCanvas (Fin 800) (Fin 600))
  = Throw (TypeError "Cannot read properties of undefined (reading 'forEach')").
Proof.
  exact (konami_code_without_canvas_throws (fun _ => 1 / 2) []
           ["ArrowUp"; "ArrowUp"; "ArrowDown"; "ArrowDown";
            "ArrowLeft"; "ArrowRight"; "ArrowLeft"; "ArrowRight"; "b"]
           (NeuralCanvas.pageWithoutCanvas (Fin 800) (Fin 600))
           (Nat.le_0_l 10) eq_refl eq_refl).
Defined.

Lemma activateGodMode_recolors_new_particles_witness :
  exists f g',
    NeuralCanvas.activateGodMode (fun _ => 1 / 2)
      (NeuralCanvas.worldAt (Fin 1200) (Fin 700) (Fin 0) (Fin 0))
    = Ok (NeuralCanvas.Ready f, g') /\
    Forall (fun p => NeuralCanvas.color p = "#ff00ff")
           (NeuralCanvas.particles f).
Proof.
  destruct (activateGodMode_recolors_new_particles (fun _ => 1 / 2)
              (NeuralCanvas.worldAt (Fin 1200) (Fin 700) (Fin 0) (Fin 0))
              (Fin 1200) (Fin 700) eq_refl)
    as (f & g' & E & Hall & _).
  exists f, g'. split; [exact E |].
  apply Forall_forall. intros p Hp.
  exact (proj1 (proj1 (Forall_forall _ _) Hall p Hp)).
Defined.

End SecretsWitnesses.

(** ** The tilt of HologramController *)

Section HologramFacts.
Import JS Hologram.

(** X25.  handleTilt(e) with the pointer inside a hero section of positive width
    and height: both angles are real and between -10 and 10 degrees; they
    vanish at the centre and reach 10 and -10 on the bottom and right
    edges.  Under reduced motion nothing is written. *)
Theorem handleTilt_range (l t w h cx cy : R) :
  0 < w -> 0 < h -> l <= cx <= l + w -> t <= cy <= t + h ->
  (forall a b c d e f, handleTilt true a b c d e f = None) /\
  exists tx ty,
    handleTilt false (Fin l) (Fin t) (Fin w) (Fin h) (Fin cx) (Fin cy)
    = Some (Fin tx, Fin ty) /\
    (-10 <= tx <= 10) /\ (-10 <= ty <= 10) /\
    (cy = t + h / 2 -> tx = 0) /\ (cx = l + w / 2 -> ty = 0) /\
    (cy = t + h -> tx = 10) /\ (cx = l + w -> ty = -10).
Proof.
  intros Hw Hh Hx Hy. split; [reflexivity |].
  unfold handleTilt. rewrite !sub_Fin, !div_Fin by lra.
  cbn [sub add mul opp].
  assert (Ex : 0 <= (cx - l) / w <= 1).
  { split; [apply Rmult_le_pos; [lra | left; now apply Rinv_0_lt_compat] |].
    apply (Rmult_le_reg_r w); [exact Hw |]. field_simplify; lra. }
  assert (Ey : 0 <= (cy - t) / h <= 1).
  { split; [apply Rmult_le_pos; [lra | left; now apply Rinv_0_lt_compat] |].
    apply (Rmult_le_reg_r h); [exact Hh |]. field_simplify; lra. }
  eexists; eexists; split; [reflexivity |].
  split; [lra |]. split; [lra |].
  split; [intros ->; replace ((t + h / 2 - t) / h) with (1 / 2)
                      by (field; lra); lra |].
  split; [intros ->; replace ((l + w / 2 - l) / w) with (1 / 2)
                      by (field; lra); lra |].
  split; intros ->.
  - replace ((t + h - t) / h) with 1 by (field; lra). lra.
  - replace ((l + w - l) / w) with 1 by (field; lra). lra.
Qed.

Lemma handleTilt_range_witness :
  exists tx ty,
    handleTilt false (Fin 0) (Fin 0) (Fin 800) (Fin 600) (Fin 200) (Fin 450)
    = Some (Fin tx, Fin ty) /\
    (-10 <= tx <= 10) /\ (-10 <= ty <= 10).
Proof.
  destruct (proj2 (handleTilt_range 0 0 800 600 200 450
                     ltac:(lra) ltac:(lra) ltac:(lra) ltac:(lra)))
    as (tx & ty & E & Hx & Hy & _).
  exists tx, ty. split; [exact E |]. split; assumption.
Defined.

End HologramFacts.

(** ** Binary64: the mouse interaction below the range of squares *)

Section DoubleInteraction.
Import SpecFloat.

(** The bound 2^-500 of C3 and of X1 is needed: for a particle at
    (2.7e-162, 0) and the pointer at (0, 0) the square of the offset is a
    subnormal number, the computed distance is about 2.22e-162 and the
    particle is pushed by more than 2 (by about 2.43). *)
Lemma subnormal_square_pushes_further :
  let p := {| Double.NeuralCanvas.x := Double.dyadic 5470552751942715 (-589);
              Double.NeuralCanvas.y := Double.zero;
              Double.NeuralCanvas.vx := Double.zero;
              Double.NeuralCanvas.vy := Double.zero |} in
  match Double.NeuralCanvas.displacement (Double.ofZ 150) Double.zero
          Double.zero p with
  | Some (directionX, directionY) =>
      Double.lt directionX (Double.ofZ (-2)) && Double.is_zero directionY
  | None => false
  end = true.
Proof. vm_compute. reflexivity. Qed.

End DoubleInteraction.

(** ** Binary64: Vector2 outside the range of squares *)

Section DoubleVector2.
Import SpecFloat.

Lemma finite_over_infinity (a : Double.double) (s : bool) :
  Double.is_finite a = true ->
  Double.is_zero (Double.div a (S754_infinity s)) = true.
Proof. destruct a; try discriminate; reflexivity. Qed.

Lemma zero_times_finite (a b : Double.double) :
  Double.is_zero a = true -> Double.is_finite b = true ->
  Double.is_zero (Double.mul a b) = true.
Proof.
  destruct a; try discriminate. intros _.
  destruct b; try discriminate; reflexivity.
Qed.

(** X26.  Vector2 in binary64, outside the range of X9 and X10.  A vector
    whose computed length is 0 is left as it is by normalize(), also when
    it is not the zero vector (its squares underflow).  A vector with
    finite components whose computed length is Infinity (its squares
    overflow) is turned into a zero vector by normalize(), and so by
    limit(max) for every finite [max].  (1e-200, 0) and (1e200, 0) are
    such vectors. *)
Theorem normalize_outside_range (v : Double.Vector2.vec) :
  (Double.is_zero (Double.Vector2.mag v) = true ->
   Double.Vector2.normalize v = v) /\
  (Double.is_finite (Double.Vector2.x v) = true ->
   Double.is_finite (Double.Vector2.y v) = true ->
   Double.Vector2.mag v = Double.PInf ->
   Double.is_zero (Double.Vector2.x (Double.Vector2.normalize v)) = true /\
   Double.is_zero (Double.Vector2.y (Double.Vector2.normalize v)) = true /\
   forall max,
     Double.is_finite max = true ->
     Double.is_zero (Double.Vector2.x (Double.Vector2.limit v max)) = true /\
     Double.is_zero (Double.Vector2.y (Double.Vector2.limit v max)) = true) /\
  (let small := Double.Vector2.mkVec
                  (Double.dyadic 6894565328877484 (-717)) Double.zero in
   Double.is_zero (Double.Vector2.x small) = false /\
   Double.Vector2.mag small = Double.zero /\
   Double.Vector2.normalize small = small) /\
  (let large := Double.Vector2.mkVec
                  (Double.dyadic 5883593420661338 612) Double.zero in
   Double.is_finite (Double.Vector2.x large) = true /\
   Double.Vector2.mag large = Double.PInf /\
   Double.Vector2.normalize large
   = Double.Vector2.mkVec Double.zero Double.zero /\
   Double.Vector2.limit large (Double.ofZ 5)
   = Double.Vector2.mkVec Double.zero Double.zero).
Proof.
  split; [| split; [| split]].
  - intros Hz. unfold Double.Vector2.normalize. cbv zeta.
    destruct (Double.Vector2.mag v); try discriminate. reflexivity.
  - intros Fx Fy Hmag.
    assert (Hn : Double.Vector2.normalize v
                 = {| Double.Vector2.x :=
                        Double.div (Double.Vector2.x v) Double.PInf;
                      Double.Vector2.y :=
                        Double.div (Double.Vector2.y v) Double.PInf |}).
    { unfold Double.Vector2.normalize. cbv zeta. now rewrite Hmag. }
    rewrite Hn. cbn [Double.Vector2.x Double.Vector2.y].
    split; [now apply finite_over_infinity |].
    split; [now apply finite_over_infinity |].
    intros max Fmax. unfold Double.Vector2.limit. rewrite Hmag, Hn.
    assert (Hgt : Double.gt Double.PInf max = true)
      by (destruct max; try discriminate; reflexivity).
    rewrite Hgt. unfold Double.Vector2.mult.
    cbn [Double.Vector2.x Double.Vector2.y].
    split; apply zero_times_finite; try assumption;
      now apply finite_over_infinity.
  - vm_compute. repeat split.
  - vm_compute. repeat split.
Qed.

End DoubleVector2.

(** ** Binary64: Utils.randomInt *)

Section DoubleUtils.
Import SpecFloat.

(** X16.  Utils.randomInt(min, max) in binary64.  When Math.random()
    returns 0 the result is Math.floor(min), for a finite non-zero [min]
    and a finite span [max - min + 1].  The upper end is not kept: the sum
    is rounded to a double before Math.floor, so randomInt(300, 800) is
    801 when Math.random() returns 1 - 2^-53, and randomInt(2, 2) is 3
    when it returns 1 - 2^-52; at 1/2, randomInt(300, 800) is 550. *)
Theorem randomInt_can_exceed_max :
  (forall min max : Double.double,
      Double.is_finite min = true -> Double.is_zero min = false ->
      Double.is_finite (Double.add (Double.sub max min) (Double.ofZ 1))
      = true ->
      Double.Utils.randomInt Double.zero min max = Double.floor min) /\
  Double.lt (Double.dyadic 9007199254740991 (-53)) (Double.ofZ 1) = true /\
  Double.Utils.randomInt (Double.dyadic 9007199254740991 (-53))
                         (Double.ofZ 300) (Double.ofZ 800)
  = Double.ofZ 801 /\
  Double.lt (Double.dyadic 9007199254740990 (-53)) (Double.ofZ 1) = true /\
  Double.Utils.randomInt (Double.dyadic 9007199254740990 (-53))
                         (Double.ofZ 2) (Double.ofZ 2)
  = Double.ofZ 3 /\
  Double.Utils.randomInt (Double.dyadic 1 (-1))
                         (Double.ofZ 300) (Double.ofZ 800)
  = Double.ofZ 550.
Proof.
  split.
  - intros min max Fmin Zmin Fspan. unfold Double.Utils.randomInt.
    destruct (Double.add (Double.sub max min) (Double.ofZ 1)) as [s | | |];
      try discriminate;
      destruct min; try discriminate; reflexivity.
  - vm_compute. repeat split.
Qed.

End DoubleUtils.
